(** * centrallino-ai: the media-stream session state machine of [src/index.ts]

    A shallow embedding of the telephony bridge of [src/index.ts] (the
    second, complete version of the file): the [activeCalls] registry, the
    [message] handler of the [/media-stream] socket, [processAudioPipeline]
    and [sendGreeting].

    JavaScript runs one synchronous segment at a time; an [async] function
    runs up to its next [await], where it is suspended until the awaited
    promise settles.  The embedding keeps exactly that structure: an
    asynchronous function is a resumption ([Res]) over a shared [World], and
    the event loop ([step]) either delivers a socket message or settles one
    pending [await].  Session objects live in a heap and are held by
    reference, as in the source, so a run that is in flight keeps its
    session after the registry entry is deleted or replaced.

    What lies outside the file is left to the environment: the database,
    the recognition, conversational and synthesis engines and the two
    ffmpeg conversions are calls that settle to whatever an oracle says;
    [JSON.parse] and the base64 decoder are taken as given.  The handler
    casts the Twilio events to their interfaces without checking: any
    top-level property may be missing, and so may the [callSid] of a
    body; the stream ids and the payload are strings, as declared.  The
    console, the record of un-awaited calls and the record of
    rejections nobody handled are kept in the world so that the
    statements can speak about them.  The event loop of the embedding
    goes on after such a rejection, which gives the invariants more
    states to hold in; the real process ends at the first one
    ([exits]).

    The rest of the file is embedded beside the session machine: the
    campaign store ([getCampaignById], [getCampaigns], [createCampaign],
    [deleteCampaign], [updateCampaign]) with the routes that call it,
    as functions of what the database and Twilio answer that also list
    what they have done to the outside; and the promise wrappers
    [mulawToWav] and [mp3ToMulaw], as functions of the events that the
    ffmpeg job emits.  JavaScript numbers are taken as given. *)

From Stdlib Require Import NArith String Ascii.
From stdpp Require Import gmap list pretty.

Set Default Proof Using "Type".
Open Scope N_scope.
Open Scope nat_scope.

(** ** Strings, buffers and the JSON shapes of the transport *)

(** A JavaScript string is a sequence of UTF-16 code units. *)
Abbreviation jsstring := (list N).

(** A [Buffer] is a sequence of bytes. *)
Abbreviation Buffer := (list Byte.byte).

(** A string literal of the source whose characters are all ASCII. *)
Fixpoint lit (s : string) : jsstring :=
  match s with
  | EmptyString => []
  | String a s' => N_of_ascii a :: lit s'
  end.

(** WhiteSpace and LineTerminator code points, the characters that
    [String.prototype.trim] strips. *)
Definition is_js_whitespace (c : N) : bool :=
  ((9 <=? c) && (c <=? 13))%N
  || (c =? 32)%N || (c =? 160)%N || (c =? 5760)%N
  || ((8192 <=? c) && (c <=? 8202))%N
  || (c =? 8232)%N || (c =? 8233)%N || (c =? 8239)%N || (c =? 8287)%N
  || (c =? 12288)%N || (c =? 65279)%N.

Fixpoint trimStart (s : jsstring) : jsstring :=
  match s with
  | [] => []
  | c :: s' => if is_js_whitespace c then trimStart s' else s
  end.

Definition trim (s : jsstring) : jsstring :=
  rev (trimStart (rev (trimStart s))).

(** Truthiness of a string: [!s] holds exactly for the empty string. *)
Arguments lit : simpl never.

Definition truthy (s : jsstring) : bool :=
  match s with [] => false | _ :: _ => true end.

Definition truthy_opt (s : option jsstring) : bool :=
  match s with Some s => truthy s | None => false end.

(** The bodies of the three Twilio events.  The handler casts the parsed
    value to the declared interface without checking it, so a body may
    lack what the interface promises: [callSid], which the handler only
    logs and stores, is [None] when the body has none.  The stream id
    and the payload are taken as the interfaces declare them. *)
Record StartBody := {
  start_callSid : option jsstring;
  start_streamSid : jsstring
}.
Record MediaBody := { media_track : jsstring; media_payload : jsstring }.
Record StopBody := {
  stop_callSid : option jsstring;
  stop_streamSid : jsstring
}.

(** The object a message parses to, as far as the handler reads it.
    Every top-level property may be missing ([undefined]), and so may
    the body of the event.  An [event] that is not a string matches no
    [case] of the [switch], as a missing one does; and a JSON number,
    string, boolean or array has no property [event], so it behaves as
    an object without properties. *)
Record Data := {
  data_event : option jsstring;
  data_start : option StartBody;
  data_media : option MediaBody;
  data_stop : option StopBody;
  data_streamSid : option jsstring
}.

Inductive JsonValue :=
| JNull
| JObject (d : Data).

(** What [JSON.parse (message.toString ())] does with a raw frame. *)
Inductive RawData :=
| BadJson
| Json (v : JsonValue).

(** ** Sessions *)

Abbreviation Socket := nat.
Abbreviation ref := nat.

Inductive Role := system | user | assistant.

Record ChatMessage := { role : Role; content : jsstring }.

Record CallSession := {
  callSid : option jsstring;             (* [undefined] if the start had none *)
  streamSid : jsstring;
  socket : Socket;
  campaignPrompt : jsstring;
  campaignVoiceId : jsstring;
  isProcessing : bool;
  conversationHistory : list ChatMessage;
  audioBuffer : list Buffer
}.

Definition with_isProcessing (b : bool) (s : CallSession) : CallSession :=
  {| callSid := callSid s; streamSid := streamSid s; socket := socket s;
     campaignPrompt := campaignPrompt s; campaignVoiceId := campaignVoiceId s;
     isProcessing := b;
     conversationHistory := conversationHistory s;
     audioBuffer := audioBuffer s |}.

Definition with_conversationHistory (h : list ChatMessage) (s : CallSession)
  : CallSession :=
  {| callSid := callSid s; streamSid := streamSid s; socket := socket s;
     campaignPrompt := campaignPrompt s; campaignVoiceId := campaignVoiceId s;
     isProcessing := isProcessing s;
     conversationHistory := h;
     audioBuffer := audioBuffer s |}.

Definition with_audioBuffer (b : list Buffer) (s : CallSession) : CallSession :=
  {| callSid := callSid s; streamSid := streamSid s; socket := socket s;
     campaignPrompt := campaignPrompt s; campaignVoiceId := campaignVoiceId s;
     isProcessing := isProcessing s;
     conversationHistory := conversationHistory s;
     audioBuffer := b |}.

(** ** Errors, log lines, outbound messages *)

Inductive Err :=
| SyntaxError                                   (* JSON.parse *)
| TypeError                                     (* property of null/undefined *)
| EngineError (code : N)                        (* a collaborator rejected *)
| TtsError (status : N) (errText : jsstring)    (* ElevenLabs TTS error *)
| GreetingTtsError (status : N) (errText : jsstring)
| SendError (s : Socket).                       (* socket.send threw *)

Inductive LogEntry :=
| LogCallStarted (callSid : option jsstring)    (* 'Call has started:' *)
| LogStartError (e : Err)                       (* '[WS start] Error fetching campaign:' *)
| LogUnknownStream (streamSid : option jsstring) (* 'Received media for unknown stream:' *)
| LogCallEnded (callSid : option jsstring)      (* 'Call has ended' *)
| LogGreeting (text : jsstring)                 (* '[Greeting]' *)
| LogGreetingError (e : Err)                    (* '[Greeting error]' *)
| LogWhisper (text : jsstring)                  (* '[Whisper]' *)
| LogGPT (text : jsstring)                      (* '[GPT]' *)
| LogPipelineError (e : Err).                   (* '[Pipeline error]' *)

(** The outbound envelope [{event:'media', streamSid, media:{payload}}];
    [out_payload] is the mu-law audio that the source sends base64-encoded. *)
Record OutMsg := { out_streamSid : jsstring; out_payload : Buffer }.

(** A call of one of the two asynchronous functions that the handler
    starts without awaiting. *)
Inductive Invocation :=
| InvGreeting (session : ref)
| InvPipeline (session : ref) (audio : Buffer).

(** ** The shared world *)

Record World := {
  heap : gmap nat CallSession;           (* the session objects *)
  activeCalls : gmap (list N) nat;       (* Map<string, CallSession> *)
  broken : gset nat;                     (* sockets whose send throws *)
  outbox : list (Socket * OutMsg);       (* what socket.send has sent *)
  console : list LogEntry;               (* console.log / console.error *)
  invoked : list Invocation;             (* ghost: un-awaited calls made *)
  unhandled : list Err                   (* ghost: rejections that escaped *)
}.

Definition empty_world : World :=
  {| heap := ∅; activeCalls := ∅; broken := ∅; outbox := []; console := [];
     invoked := []; unhandled := [] |}.

Definition set_heap (f : gmap nat CallSession → gmap nat CallSession)
  (w : World) : World :=
  {| heap := f (heap w); activeCalls := activeCalls w; broken := broken w;
     outbox := outbox w; console := console w; invoked := invoked w;
     unhandled := unhandled w |}.

Definition set_activeCalls (f : gmap (list N) nat → gmap (list N) nat)
  (w : World) : World :=
  {| heap := heap w; activeCalls := f (activeCalls w); broken := broken w;
     outbox := outbox w; console := console w; invoked := invoked w;
     unhandled := unhandled w |}.

Definition set_broken (f : gset nat → gset nat) (w : World) : World :=
  {| heap := heap w; activeCalls := activeCalls w; broken := f (broken w);
     outbox := outbox w; console := console w; invoked := invoked w;
     unhandled := unhandled w |}.

Definition add_outbox (m : Socket * OutMsg) (w : World) : World :=
  {| heap := heap w; activeCalls := activeCalls w; broken := broken w;
     outbox := outbox w ++ [m]; console := console w; invoked := invoked w;
     unhandled := unhandled w |}.

Definition add_console (l : LogEntry) (w : World) : World :=
  {| heap := heap w; activeCalls := activeCalls w; broken := broken w;
     outbox := outbox w; console := console w ++ [l]; invoked := invoked w;
     unhandled := unhandled w |}.

Definition add_invoked (i : Invocation) (w : World) : World :=
  {| heap := heap w; activeCalls := activeCalls w; broken := broken w;
     outbox := outbox w; console := console w; invoked := invoked w ++ [i];
     unhandled := unhandled w |}.

Definition add_unhandled (e : Err) (w : World) : World :=
  {| heap := heap w; activeCalls := activeCalls w; broken := broken w;
     outbox := outbox w; console := console w; invoked := invoked w;
     unhandled := unhandled w ++ [e] |}.

(** ** External collaborators

    Every [await] of the source waits for one of these; the index is the
    type of the value the promise is fulfilled with. *)

Record Campaign := {
  campaign_prompt : option jsstring;     (* TEXT, nullable *)
  voice_id : option jsstring             (* VARCHAR(255), nullable *)
}.

(** The [Response] of [fetch]; [ok] is true for a status in 200..299. *)
Record Response := { status : N }.

Definition ok (r : Response) : bool :=
  ((200 <=? status r) && (status r <=? 299))%N.

Inductive Call : Type → Type :=
| GetCampaignById (id : jsstring) : Call (option Campaign)
| ChatCompletionsCreate (messages : list ChatMessage) : Call (option jsstring)
| MulawToWav (mulawBuffer : Buffer) : Call Buffer
| TranscriptionsCreate (wavBuffer : Buffer) : Call jsstring
| FetchTextToSpeech (voiceId text : jsstring) : Call Response
| ResponseText (r : Response) : Call jsstring
| ResponseArrayBuffer (r : Response) : Call Buffer
| Mp3ToMulaw (mp3Buffer : Buffer) : Call Buffer.

Inductive Result (X : Type) :=
| Resolved (x : X)
| Rejected (e : Err).
Arguments Resolved {X} x.
Arguments Rejected {X} e.

(** ** Resumptions

    The outcome of running an asynchronous function up to its next
    suspension: it has returned, it has thrown, it waits at an [await]
    with the rest of its body as continuation, or it has started another
    asynchronous function that is now waiting on its own ([Detach]). *)

Inductive Res (A : Type) : Type :=
| RetR (a : A) (w : World)
| ThrowR (e : Err) (w : World)
| AwaitR (X : Type) (c : Call X) (k : Result X → World → Res A) (w : World)
| Detach (i : Invocation) (X : Type) (c : Call X)
    (k : Result X → World → Res unit) (rest : Res A).
Arguments RetR {A} a w.
Arguments ThrowR {A} e w.
Arguments AwaitR {A X} c k w.
Arguments Detach {A} i {X} c k rest.

Definition M (A : Type) : Type := World → Res A.

Fixpoint bindR {A B : Type} (r : Res A) (f : A → M B) : Res B :=
  match r with
  | RetR a w => f a w
  | ThrowR e w => ThrowR e w
  | AwaitR c k w => AwaitR c (λ o w', bindR (k o w') f) w
  | Detach i c k rest => Detach i c k (bindR rest f)
  end.

Definition ret {A : Type} (a : A) : M A := λ w, RetR a w.
Definition bind {A B : Type} (m : M A) (f : A → M B) : M B :=
  λ w, bindR (m w) f.
Definition throw {A : Type} (e : Err) : M A := λ w, ThrowR e w.

Declare Scope async_scope.
Delimit Scope async_scope with async.
Notation "'let*' x := m 'in' k" := (bind m (λ x, k))
  (at level 10, x pattern, m at level 100, k at level 200) : async_scope.
Notation "m ;;; k" := (bind m (λ _, k))
  (at level 100, k at level 200, right associativity) : async_scope.
Open Scope async_scope.

(** [await c]: suspend; resume with the value, or throw the rejection. *)
Definition await {X : Type} (c : Call X) : M X :=
  λ w, AwaitR c (λ o w',
    match o with
    | Resolved x => RetR x w'
    | Rejected e => ThrowR e w'
    end) w.

(** [try { body } catch (err) { handler err }] *)
Fixpoint catchR {A : Type} (r : Res A) (h : Err → M A) : Res A :=
  match r with
  | RetR a w => RetR a w
  | ThrowR e w => h e w
  | AwaitR c k w => AwaitR c (λ o w', catchR (k o w') h) w
  | Detach i c k rest => Detach i c k (catchR rest h)
  end.

Definition try_catch {A : Type} (body : M A) (h : Err → M A) : M A :=
  λ w, catchR (body w) h.

(** [try { body } finally { fin }]: [fin] runs on both exits and the
    completion of [body] is kept. *)
Fixpoint finallyR {A : Type} (r : Res A) (fin : M unit) : Res A :=
  match r with
  | RetR a w => bindR (fin w) (λ _, ret a)
  | ThrowR e w => bindR (fin w) (λ _, throw e)
  | AwaitR c k w => AwaitR c (λ o w', finallyR (k o w') fin) w
  | Detach i c k rest => Detach i c k (finallyR rest fin)
  end.

Definition try_finally {A : Type} (body : M A) (fin : M unit) : M A :=
  λ w, finallyR (body w) fin.

(** Calling an asynchronous function without awaiting its promise: the
    callee runs up to its first suspension, the caller goes on.  A
    rejection of the dropped promise is never handled. *)
Fixpoint detachR {A : Type} (i : Invocation) (r : Res unit) (rest : M A)
  : Res A :=
  match r with
  | RetR _ w => rest w
  | ThrowR e w => rest (add_unhandled e w)
  | AwaitR c k w => Detach i c k (rest w)
  | Detach j c k r' => Detach j c k (detachR i r' rest)
  end.

Definition call_async (i : Invocation) (callee : M unit) : M unit :=
  λ w, detachR i (callee (add_invoked i w)) (ret tt).

Definition modify (f : World → World) : M unit := λ w, RetR tt (f w).
Definition gets {A : Type} (f : World → A) : M A := λ w, RetR (f w) w.

Definition console_log (l : LogEntry) : M unit := modify (add_console l).

(** Reading and writing fields of a session object. *)
Definition blank_session : CallSession :=
  {| callSid := None; streamSid := []; socket := 0; campaignPrompt := [];
     campaignVoiceId := []; isProcessing := false;
     conversationHistory := []; audioBuffer := [] |}.

Definition deref (w : World) (session : ref) : CallSession :=
  default blank_session (heap w !! session).

Definition read {A : Type} (session : ref) (field : CallSession → A) : M A :=
  gets (λ w, field (deref w session)).

Definition write (session : ref) (f : CallSession → CallSession) : M unit :=
  modify (set_heap (alter f session)).

(** [new] of an object literal: a reference no live object has. *)
Definition new_session (s : CallSession) : M ref :=
  λ w, let r := fresh (dom (heap w)) in RetR r (set_heap (insert r s) w).

(** [session.socket.send(...)]: throws when the socket cannot send. *)
Definition socket_send (sock : Socket) (m : OutMsg) : M unit :=
  λ w, if bool_decide (sock ∈ broken w) then ThrowR (SendError sock) w
       else RetR tt (add_outbox (sock, m) w).

(** An oracle for the collaborators: what each awaited call settles to. *)
Definition Answer : Type := ∀ X : Type, Call X → Result X.

(** ** Executions of a single run

    A run is played against an [answer] for every call it may await and
    the list [resumes] of the worlds in which it is resumed, one per
    settled [await]: between a suspension and the resumption any other
    segment may have run, so these worlds are arbitrary.  When [resumes]
    is exhausted the run is left pending. *)

(** Where the run stands after the given resumptions. *)
Fixpoint finish {A : Type} (answer : Answer) (resumes : list World)
  (r : Res A) : Res A :=
  match r with
  | AwaitR c k w =>
      match resumes with
      | [] => r
      | w' :: ws => finish answer ws (k (answer _ c) w')
      end
  | Detach i c k rest => Detach i c k (finish answer resumes rest)
  | _ => r
  end.

(** The world a resumption holds. *)
Fixpoint world_of {A : Type} (r : Res A) : World :=
  match r with
  | RetR _ w | ThrowR _ w | AwaitR _ _ w => w
  | Detach _ _ _ rest => world_of rest
  end.

(** The synchronous segments of the run, each as the pair of the world
    it started in and the world it left; [w0] is where the run began. *)
Fixpoint segments {A : Type} (answer : Answer) (resumes : list World)
  (w0 : World) (r : Res A) : list (World * World) :=
  match r with
  | RetR _ w | ThrowR _ w => [(w0, w)]
  | AwaitR c k w =>
      (w0, w) ::
      match resumes with
      | [] => []
      | w' :: ws => segments answer ws w' (k (answer _ c) w')
      end
  | Detach _ _ _ rest => segments answer resumes w0 rest
  end.

Inductive Request :=
| Req : ∀ X : Type, Call X → Request.
Arguments Req {X} c.

(** The calls the run has awaited, in order. *)
Fixpoint requests {A : Type} (answer : Answer) (resumes : list World)
  (r : Res A) : list Request :=
  match r with
  | RetR _ _ | ThrowR _ _ => []
  | AwaitR c k w =>
      Req c ::
      match resumes with
      | [] => []
      | w' :: ws => requests answer ws (k (answer _ c) w')
      end
  | Detach _ _ _ rest => requests answer resumes rest
  end.

Definition returned {A : Type} (r : Res A) : bool :=
  match r with RetR _ _ => true | _ => false end.

Definition history (w : World) (session : ref) : list ChatMessage :=
  conversationHistory (deref w session).

Definition busy (w : World) (session : ref) : bool :=
  isProcessing (deref w session).

(** ** Outcomes on the HTTP side

    The campaign store and the routes do not share the world of the
    sessions; a call there either returns or throws. *)

(** An error thrown on the HTTP side: one raised by a client library
    (the database driver, Twilio), with its [code] if it has one and its
    [message]; or the TypeError of reading [property] of a missing
    body. *)
Inductive ApiError :=
| Raised (code : option jsstring) (message : jsstring)
| TypeErrorOf (property : string).

(** [error.code] *)
Definition error_code (e : ApiError) : option jsstring :=
  match e with
  | Raised code _ => code
  | TypeErrorOf _ => None
  end.

Inductive Outcome (A : Type) :=
| Returned (a : A)
| Thrown (e : ApiError).
Arguments Returned {A} a.
Arguments Thrown {A} e.

(** What [twilioClient.calls.create] is fulfilled with. *)
Record CallInstance := { call_sid : jsstring; call_status : jsstring }.

(** ** The program *)

Section Program.

(** [Buffer.from(payload, 'base64')], total on strings. *)
Variable base64_decode : jsstring → Buffer.

(** [process.env.ELEVENLABS_VOICE_ID] *)
Variable ELEVENLABS_VOICE_ID : option jsstring.

Definition push_history (session : ref) (m : ChatMessage) : M unit :=
  write session (λ s, with_conversationHistory (conversationHistory s ++ [m]) s).

Definition push_audio (session : ref) (chunk : Buffer) : M unit :=
  write session (λ s, with_audioBuffer (audioBuffer s ++ [chunk]) s).

Definition START_CALL : jsstring :=
  lit "[START_CALL] La llamada acaba de conectar. Pres" ++ [233%N]
  ++ lit "ntate brevemente y saluda al usuario.".

Definition greeting_fallback : jsstring := lit "Ciao, come posso aiutarti?".

Definition sendGreeting (session : ref) : M unit :=
  try_catch
    (let* prompt := read session campaignPrompt in
     let* gptResponse := await (ChatCompletionsCreate
       [ {| role := system; content := prompt |};
         {| role := user; content := START_CALL |} ]) in
     let greetingText := default greeting_fallback gptResponse in
     push_history session {| role := assistant; content := greetingText |};;;
     console_log (LogGreeting greetingText);;;
     let* voice := read session campaignVoiceId in
     let* ttsRes := await (FetchTextToSpeech voice greetingText) in
     (if negb (ok ttsRes) then
        let* errText := await (ResponseText ttsRes) in
        throw (GreetingTtsError (status ttsRes) errText)
      else ret tt);;;
     let* mp3Buffer := await (ResponseArrayBuffer ttsRes) in
     let* mulawAudio := await (Mp3ToMulaw mp3Buffer) in
     let* sock := read session socket in
     let* sid := read session streamSid in
     socket_send sock {| out_streamSid := sid; out_payload := mulawAudio |})
    (λ err, console_log (LogGreetingError err)).

Definition processAudioPipeline (session : ref) (audioBuffer : Buffer)
  : M unit :=
  let* processing := read session isProcessing in
  if processing then ret tt                               (* return *)
  else
    write session (with_isProcessing true);;;
    try_finally
      (try_catch
         ((* 1. mulaw -> WAV *)
          let* wavBuffer := await (MulawToWav audioBuffer) in
          (* 2. transcription *)
          let* transcription := await (TranscriptionsCreate wavBuffer) in
          let userText := trim transcription in
          if negb (truthy userText) then
            write session (with_isProcessing false)     (* return *)
          else
            console_log (LogWhisper userText);;;
            (* 3. history + chat completion *)
            push_history session {| role := user; content := userText |};;;
            let* prompt := read session campaignPrompt in
            let* turns := read session conversationHistory in
            let* gptResponse := await (ChatCompletionsCreate
              ({| role := system; content := prompt |} :: turns)) in
            let assistantText := default [] gptResponse in
            push_history session
              {| role := assistant; content := assistantText |};;;
            console_log (LogGPT assistantText);;;
            (* 4. text to speech *)
            let* voice := read session campaignVoiceId in
            let* ttsRes := await (FetchTextToSpeech voice assistantText) in
            (if negb (ok ttsRes) then
               let* errText := await (ResponseText ttsRes) in
               throw (TtsError (status ttsRes) errText)
             else ret tt);;;
            let* mp3Buffer := await (ResponseArrayBuffer ttsRes) in
            (* 5. MP3 -> mulaw *)
            let* mulawAudio := await (Mp3ToMulaw mp3Buffer) in
            (* 6. send back over the socket *)
            let* sock := read session socket in
            let* sid := read session streamSid in
            socket_send sock
              {| out_streamSid := sid; out_payload := mulawAudio |})
         (λ err, console_log (LogPipelineError err)))
      (write session (with_isProcessing false)).

(** Property access on a value that may be [null] or [undefined]. *)
Definition member {A : Type} (o : option A) : M A :=
  match o with
  | Some a => ret a
  | None => throw TypeError
  end.

Definition JSON_parse (message : RawData) : M JsonValue :=
  match message with
  | BadJson => throw SyntaxError
  | Json v => ret v
  end.

Definition event_of (data : JsonValue) : M (option jsstring) :=
  match data with
  | JNull => throw TypeError
  | JObject d => ret (data_event d)
  end.

Definition object_of (data : JsonValue) : Data :=
  match data with
  | JNull => {| data_event := None; data_start := None; data_media := None;
                data_stop := None; data_streamSid := None |}
  | JObject d => d
  end.

Definition default_prompt : jsstring := lit "You are a helpful assistant.".

(** [process.env.ELEVENLABS_VOICE_ID || ''] *)
Definition default_voice : jsstring :=
  match ELEVENLABS_VOICE_ID with
  | Some v => if truthy v then v else []
  | None => []
  end.

Definition activeCalls_get (streamSid : option jsstring) : M (option ref) :=
  gets (λ w, match streamSid with
             | Some sid => activeCalls w !! sid
             | None => None
             end).

Definition FLUSH_THRESHOLD : nat := 150.

(** The listener of [connection.on('message', ...)] of one connection;
    [campaignIdParam] is [req.query.campaignId] of that connection. *)
Definition on_message (connection : Socket) (campaignIdParam : option jsstring)
  (message : RawData) : M unit :=
  let* data := JSON_parse message in
  let* event := event_of data in
  let data := object_of data in
  if bool_decide (event = Some (lit "start")) then
    let* startData := member (data_start data) in
    console_log (LogCallStarted (start_callSid startData));;;
    let* config :=
      (if truthy_opt campaignIdParam then
         try_catch
           (let* campaign :=
              await (GetCampaignById (default [] campaignIdParam)) in
            let campaignPrompt :=
              match campaign ≫= campaign_prompt with
              | Some p => if truthy p then p else default_prompt
              | None => default_prompt
              end in
            let campaignVoiceId :=
              match campaign ≫= voice_id with
              | Some v => if truthy v then v else default_voice
              | None => default_voice
              end in
            ret (campaignPrompt, campaignVoiceId))
           (λ e, console_log (LogStartError e);;;
                 ret (default_prompt, default_voice))
       else ret (default_prompt, default_voice)) in
    let* newSession := new_session
      {| callSid := start_callSid startData;
         streamSid := start_streamSid startData;
         socket := connection;
         campaignPrompt := config.1;
         campaignVoiceId := config.2;
         isProcessing := false;
         conversationHistory := [];
         audioBuffer := [] |} in
    modify (set_activeCalls (insert (start_streamSid startData) newSession));;;
    call_async (InvGreeting newSession) (sendGreeting newSession)
  else if bool_decide (event = Some (lit "media")) then
    let* mediaData := member (data_media data) in
    (* ignore outbound audio (the AI's own voice) *)
    if negb (bool_decide (media_track mediaData = lit "inbound")) then ret tt
    else
      let* session := activeCalls_get (data_streamSid data) in
      match session with
      | None => console_log (LogUnknownStream (data_streamSid data))
      | Some session =>
          let audioChunk := base64_decode (media_payload mediaData) in
          push_audio session audioChunk;;;
          let* buffered := read session audioBuffer in
          if bool_decide (FLUSH_THRESHOLD ≤ length buffered) then
            let combinedAudio := concat buffered in
            write session (with_audioBuffer []);;;
            call_async (InvPipeline session combinedAudio)
              (processAudioPipeline session combinedAudio)
          else ret tt
      end
  else if bool_decide (event = Some (lit "stop")) then
    let* stopData := member (data_stop data) in
    console_log (LogCallEnded (stop_callSid stopData));;;
    modify (set_activeCalls (delete (stop_streamSid stopData)))
  else ret tt.

(** ** The event loop *)

(** Whose promise a pending [await] belongs to. *)
Inductive Owner :=
| Handler
| Started (i : Invocation).

Record Task := {
  task_owner : Owner;
  task_type : Type;
  task_call : Call task_type;
  task_k : Result task_type → World → Res unit
}.

Record System := { sys_world : World; sys_tasks : list Task }.

Definition init : System := {| sys_world := empty_world; sys_tasks := [] |}.

(** Take a resumption apart: the world it leaves, the awaits it leaves
    pending, and a rejection nobody handles. *)
Fixpoint park (self : Owner) (r : Res unit) : World * list Task :=
  match r with
  | RetR _ w => (w, [])
  | ThrowR e w => (add_unhandled e w, [])
  | AwaitR c k w =>
      (w, [ {| task_owner := self; task_call := c; task_k := k |} ])
  | Detach i c k rest =>
      let '(w, ts) := park self rest in
      (w, {| task_owner := Started i; task_call := c; task_k := k |} :: ts)
  end.

Inductive Action :=
| Deliver (connection : Socket) (campaignIdParam : option jsstring)
    (message : RawData)                   (* a frame arrives on a socket *)
| Settle (i : nat) (answer : Answer)      (* a pending promise settles *)
| SocketBreaks (connection : Socket).     (* a socket stops accepting sends *)

Definition step (sys : System) (a : Action) : System :=
  match a with
  | Deliver connection campaignIdParam message =>
      let '(w, ts) :=
        park Handler
          (on_message connection campaignIdParam message (sys_world sys)) in
      {| sys_world := w; sys_tasks := sys_tasks sys ++ ts |}
  | Settle i answer =>
      match sys_tasks sys !! i with
      | None => sys
      | Some t =>
          let '(w, ts) :=
            park (task_owner t)
              (task_k t (answer _ (task_call t)) (sys_world sys)) in
          {| sys_world := w; sys_tasks := delete i (sys_tasks sys) ++ ts |}
      end
  | SocketBreaks connection =>
      {| sys_world := set_broken (union {[connection]}) (sys_world sys);
         sys_tasks := sys_tasks sys |}
  end.

Definition run (sys : System) (actions : list Action) : System :=
  foldl step sys actions.

Definition reachable (sys : System) : Prop :=
  ∃ actions, sys = run init actions.

(** ** What a pending run may do: the invariant of the event loop *)

(** A segment of a run that works on the session object [session] leaves
    the registry, the other session objects and whatever the handler owns
    of this one (its buffered audio, its identity) alone. *)
Record quiet (session : ref) (w w' : World) : Prop := {
  quiet_activeCalls : activeCalls w' = activeCalls w;
  quiet_invoked : invoked w' = invoked w;
  quiet_unhandled : unhandled w' = unhandled w;
  quiet_broken : broken w' = broken w;
  quiet_dom : dom (heap w') = dom (heap w);
  quiet_other : ∀ r, r ≠ session → heap w' !! r = heap w !! r;
  quiet_audio : audioBuffer (deref w' session) = audioBuffer (deref w session);
  quiet_streamSid : streamSid (deref w' session) = streamSid (deref w session)
}.

(** [upholds Seg Rely Waiting Final w0 r]: the run [r], resumed in [w0],
    runs segments related by [Seg]; it satisfies [Waiting] whenever it is
    suspended and [Final] when it returns; it never throws and starts
    nothing; all this whatever the awaited calls settle to, provided every
    world it is resumed in satisfies [Rely]. *)
Fixpoint upholds (Seg : World → World → Prop) (Rely Waiting Final : World → Prop)
  (w0 : World) (r : Res unit) : Prop :=
  match r with
  | RetR _ w => Seg w0 w ∧ Final w
  | ThrowR _ _ => False
  | AwaitR c k w =>
      Seg w0 w ∧ Waiting w
      ∧ ∀ o w', Rely w' → upholds Seg Rely Waiting Final w' (k o w')
  | Detach _ _ _ _ => False
  end.

Definition pipeline_run (session : ref) : World → Res unit → Prop :=
  upholds (quiet session)
    (λ w, busy w session = true)
    (λ w, busy w session = true)
    (λ w, busy w session = false).

Definition greeting_run (session : ref) : World → Res unit → Prop :=
  upholds (λ w w', quiet session w w' ∧ busy w' session = busy w session)
    (λ _, True) (λ _, True) (λ _, True).

(** The session object a [start] creates. *)
Definition fresh_session (connection : Socket) (startData : StartBody)
  (prompt voice : jsstring) : CallSession :=
  {| callSid := start_callSid startData;
     streamSid := start_streamSid startData;
     socket := connection;
     campaignPrompt := prompt;
     campaignVoiceId := voice;
     isProcessing := false;
     conversationHistory := [];
     audioBuffer := [] |}.

(** The world after a [start] has registered its session in [w]. *)
Definition registered (connection : Socket) (startData : StartBody)
  (prompt voice : jsstring) (w : World) : World :=
  let r := fresh (dom (heap w)) in
  add_invoked (InvGreeting r)
    (set_activeCalls (insert (start_streamSid startData) r)
       (set_heap (insert r (fresh_session connection startData prompt voice))
          w)).

(** [w0] is [w] with at most one line more on the console. *)
Definition logged (w w0 : World) : Prop :=
  w0 = w ∨ ∃ l, w0 = add_console l w.

(** The last segment of a [start]: from [w], after at most one log line,
    the session is registered and the greeting is left waiting for its
    first call. *)
Definition registers (w : World) (r : Res unit) : Prop :=
  match r with
  | Detach (InvGreeting session) c k (RetR _ w') =>
      session = fresh (dom (heap w))
      ∧ (∃ connection startData prompt voice w0,
           logged w w0
           ∧ w' = registered connection startData prompt voice w0)
      ∧ ∀ o w1, greeting_run session w1 (k o w1)
  | _ => False
  end.

Definition runs_on (session : ref) (t : Task) : bool :=
  match task_owner t with
  | Started (InvPipeline r _) => bool_decide (r = session)
  | _ => false
  end.

(** The number of pipeline runs of [session] that are in flight. *)
Fixpoint active_runs (session : ref) (ts : list Task) : nat :=
  match ts with
  | [] => 0
  | t :: ts' => (if runs_on session t then 1 else 0) + active_runs session ts'
  end.

Definition task_ok (w : World) (t : Task) : Prop :=
  match task_owner t with
  | Started (InvPipeline session _) =>
      session ∈ dom (heap w)
      ∧ ∀ o w', busy w' session = true → pipeline_run session w' (task_k t o w')
  | Started (InvGreeting session) =>
      ∀ o w', greeting_run session w' (task_k t o w')
  | Handler =>
      ∀ o w', registers w' (task_k t o w')
  end.

Record Inv (sys : System) : Prop := {
  inv_runs : ∀ session s,
    heap (sys_world sys) !! session = Some s →
    active_runs session (sys_tasks sys) = if isProcessing s then 1 else 0;
  inv_tasks : Forall (task_ok (sys_world sys)) (sys_tasks sys);
  inv_registry : ∀ sid session,
    activeCalls (sys_world sys) !! sid = Some session →
    ∃ s, heap (sys_world sys) !! session = Some s ∧ streamSid s = sid
}.

(** ** The campaign store and the HTTP routes

    [getCampaignById], [getCampaigns], [createCampaign], [deleteCampaign]
    and [updateCampaign], and the routes that call them.  Every call of
    the store opens a database client of its own.  What the database and
    Twilio answer is given by an [Env]; what a call does to the outside
    is recorded, in order, as a list of [Op]s. *)

(** JavaScript numbers are taken as given, with the operations the
    routes apply to them. *)
Variable num : Type.
Variable Number : jsstring → num.         (* Number(string) *)
Variable isNaN : num → bool.
Variable num_truthy : num → bool.         (* false on 0, -0 and NaN *)
Variable num_zero : num.                  (* the literal 0 *)
Variable num_to_string : num → jsstring.  (* a number in a template literal *)

(** The values that a field of a JSON body and a column of a row take:
    those of the primitive types that the parameter types of the store
    declare, [null], and [undefined] for a field that is absent. *)
Inductive Value :=
| VUndefined
| VNull
| VBool (b : bool)
| VNum (n : num)
| VStr (s : jsstring).

Definition truthy_value (v : Value) : bool :=
  match v with
  | VUndefined | VNull => false
  | VBool b => b
  | VNum n => num_truthy n
  | VStr s => truthy s
  end.

(** [a || b] *)
Definition or_value (a b : Value) : Value :=
  if truthy_value a then a else b.

(** [v !== undefined] is the negation of this. *)
Definition is_undefined (v : Value) : bool :=
  match v with VUndefined => true | _ => false end.

(** [v === null] *)
Definition is_null (v : Value) : bool :=
  match v with VNull => true | _ => false end.

(** A value in a template literal. *)
Definition to_string (v : Value) : jsstring :=
  match v with
  | VUndefined => lit "undefined"
  | VNull => lit "null"
  | VBool true => lit "true"
  | VBool false => lit "false"
  | VNum n => num_to_string n
  | VStr s => s
  end.

(** A row of a query result: its columns by name. *)
Definition Row : Type := list (jsstring * Value).

(** [row.column] *)
Definition row_get (row : Row) (column : string) : Value :=
  match List.find (λ cv, bool_decide (cv.1 = lit column)) row with
  | Some cv => cv.2
  | None => VUndefined
  end.

Inductive Op :=
| OpConnect                                        (* client.connect() *)
| OpQuery (text : jsstring) (values : list Value)  (* client.query(text, values) *)
| OpEnd                                            (* client.end() *)
| OpCallsCreate (to : Value) (from : option jsstring) (url : jsstring)
| OpConsoleError (tag : string) (e : ApiError)     (* console.error(tag, e) *)
| OpConsoleLog (line : jsstring).                  (* console.log(line) *)

Record Env := {
  env_connect : Outcome unit;
  env_query : jsstring → list Value → Outcome (list Row);
  env_end : Outcome unit;
  env_calls_create : Value → option jsstring → jsstring → Outcome CallInstance;
  SERVER_URL : option jsstring;           (* process.env.SERVER_URL *)
  TWILIO_PHONE_NUMBER : option jsstring   (* process.env.TWILIO_PHONE_NUMBER *)
}.

Definition Api (A : Type) : Type := Env → list Op * Outcome A.

Definition api_ret {A : Type} (a : A) : Api A := λ _, ([], Returned a).

Definition api_throw {A : Type} (e : ApiError) : Api A := λ _, ([], Thrown e).

Definition api_bind {A B : Type} (m : Api A) (f : A → Api B) : Api B :=
  λ env,
    match m env with
    | (ops, Returned a) => let '(ops', o) := f a env in (ops ++ ops', o)
    | (ops, Thrown e) => (ops, Thrown e)
    end.

(** [try { body } catch (error) { handler error }] *)
Definition api_try_catch {A : Type} (body : Api A) (handler : ApiError → Api A)
  : Api A :=
  λ env,
    match body env with
    | (ops, Returned a) => (ops, Returned a)
    | (ops, Thrown e) => let '(ops', o) := handler e env in (ops ++ ops', o)
    end.

(** [try { body } finally { fin }]: [fin] runs on both exits; the
    completion of [body] is kept unless [fin] throws. *)
Definition api_try_finally {A : Type} (body : Api A) (fin : Api unit) : Api A :=
  λ env,
    let '(ops, o) := body env in
    match fin env with
    | (ops', Returned _) => (ops ++ ops', o)
    | (ops', Thrown e) => (ops ++ ops', Thrown e)
    end.

(** An awaited call of the outside. *)
Definition perform {A : Type} (op : Op) (result : Env → Outcome A) : Api A :=
  λ env, ([op], result env).

Declare Scope api_scope.
Delimit Scope api_scope with api.
Notation "'let*' x := m 'in' k" := (api_bind m (λ x, k))
  (at level 10, x pattern, m at level 100, k at level 200) : api_scope.
Notation "m ;;; k" := (api_bind m (λ _, k))
  (at level 100, k at level 200, right associativity) : api_scope.

Definition client_connect : Api unit := perform OpConnect env_connect.

Definition client_query (text : jsstring) (values : list Value)
  : Api (list Row) :=
  perform (OpQuery text values) (λ env, env_query env text values).

Definition client_end : Api unit := perform OpEnd env_end.

Definition console_error (tag : string) (e : ApiError) : Api unit :=
  perform (OpConsoleError tag e) (λ _, Returned tt).

Definition console_log_line (line : jsstring) : Api unit :=
  perform (OpConsoleLog line) (λ _, Returned tt).

(** [process.env.NAME] *)
Definition getenv {A : Type} (variable : Env → A) : Api A :=
  λ env, ([], Returned (variable env)).

(** [twilioClient.calls.create({ to, from, url })] *)
Definition calls_create (to : Value) (from : option jsstring) (url : jsstring)
  : Api CallInstance :=
  perform (OpCallsCreate to from url)
    (λ env, env_calls_create env to from url).

(** Reading [property] of a body that may be missing. *)
Definition body_of {A : Type} (body : option A) (property : string) : Api A :=
  match body with
  | Some b => api_ret b
  | None => api_throw (TypeErrorOf property)
  end.

Definition getCampaignById (id : Value) : Api (option Row) :=
  (api_try_finally
     (client_connect;;;
      let* rows := client_query
        (lit "SELECT id, campaign_prompt, voice_id FROM campaigns WHERE id = $1")
        [id] in
      api_ret (head rows))                           (* rows[0] ?? null *)
     client_end)%api.

Definition getCampaigns : Api (list Row) :=
  (api_try_finally
     (client_connect;;;
      let* rows := client_query
        (lit "SELECT id, slug, name, description, leads, calls, qualified,
            campaign_prompt, voice_id, initial_delay, max_retries,
            retry_interval, webhook_url, calendar_connected
            FROM campaigns
            ORDER BY created_at DESC")
        [] in                                        (* no parameters *)
      api_ret rows)
     client_end)%api.

(** The parameter of [createCampaign]. *)
Record NewCampaign := {
  new_slug : Value;
  new_name : Value;
  new_description : Value;
  new_campaign_prompt : Value;
  new_voice_id : Value;
  new_initial_delay : Value;
  new_max_retries : Value;
  new_retry_interval : Value;
  new_webhook_url : Value;
  new_calendar_connected : Value
}.

Definition createCampaign (campaign : option NewCampaign) : Api (option Row) :=
  (api_try_finally
     (client_connect;;;
      let* campaign := body_of campaign "slug" in
      let* rows := client_query
        (lit "INSERT INTO campaigns (slug, name, description, campaign_prompt, voice_id, initial_delay, max_retries, retry_interval, webhook_url, calendar_connected)
             VALUES ($1, $2, $3, $4, $5, $6, $7, $8, $9, $10)
             RETURNING id, slug, name, description, leads, calls, qualified")
        [ new_slug campaign;
          new_name campaign;
          or_value (new_description campaign) VNull;
          or_value (new_campaign_prompt campaign) VNull;
          or_value (new_voice_id campaign) VNull;
          or_value (new_initial_delay campaign) (VNum num_zero);
          or_value (new_max_retries campaign) (VNum num_zero);
          or_value (new_retry_interval campaign) (VNum num_zero);
          or_value (new_webhook_url campaign) VNull;
          or_value (new_calendar_connected campaign) (VBool false) ] in
      api_ret (head rows))                           (* rows[0] *)
     client_end)%api.

Definition deleteCampaign (id : num) : Api Value :=
  (api_try_finally
     (client_connect;;;
      let* rows := client_query
        (lit "DELETE FROM campaigns WHERE id = $1 RETURNING id") [VNum id] in
      match rows with
      | [] => api_ret VNull
      | row :: _ => api_ret (row_get row "id")
      end)
     client_end)%api.

(** The second parameter of [updateCampaign]. *)
Record CampaignUpdates := {
  upd_name : Value;
  upd_description : Value;
  upd_campaign_prompt : Value;
  upd_voice_id : Value;
  upd_initial_delay : Value;
  upd_max_retries : Value;
  upd_retry_interval : Value;
  upd_webhook_url : Value;
  upd_calendar_connected : Value
}.

(** A number in a template literal, for the positive integers that
    number the placeholders. *)
Definition decimal (n : nat) : jsstring := lit (pretty n).

(** [fields], [values] and [paramIndex] of [updateCampaign]. *)
Definition Builder : Type := list jsstring * list Value * nat.

(** [if (value !== undefined) { fields.push(`column = $${paramIndex++}`);
    values.push(value) }] *)
Definition push_field (column : string) (value : Value) (b : Builder)
  : Builder :=
  if is_undefined value then b
  else
    let '(fields, values, paramIndex) := b in
    (fields ++ [lit column ++ lit " = $" ++ decimal paramIndex],
     values ++ [value],
     S paramIndex).

(** [fields.join(separator)] *)
Fixpoint join (separator : jsstring) (fields : list jsstring) : jsstring :=
  match fields with
  | [] => []
  | [field] => field
  | field :: rest => field ++ separator ++ join separator rest
  end.

Definition RETURNING_CAMPAIGN : jsstring :=
  lit " RETURNING id, slug, name, description, campaign_prompt, voice_id, initial_delay, max_retries, retry_interval, webhook_url, calendar_connected, leads, calls, qualified".

Definition updateCampaign (id : num) (updates : option CampaignUpdates)
  : Api (option Row) :=
  (api_try_finally
     (client_connect;;;
      let* updates := body_of updates "name" in
      let b : Builder := ([], [], 1) in
      let b := push_field "name" (upd_name updates) b in
      let b := push_field "description" (upd_description updates) b in
      let b := push_field "campaign_prompt" (upd_campaign_prompt updates) b in
      let b := push_field "voice_id" (upd_voice_id updates) b in
      let b := push_field "initial_delay" (upd_initial_delay updates) b in
      let b := push_field "max_retries" (upd_max_retries updates) b in
      let b := push_field "retry_interval" (upd_retry_interval updates) b in
      let b := push_field "webhook_url" (upd_webhook_url updates) b in
      let b := push_field "calendar_connected"
                 (upd_calendar_connected updates) b in
      let '(fields, values, paramIndex) := b in
      if bool_decide (length fields = 0) then
        api_ret None                                 (* nothing to update *)
      else
        let fields := fields ++ [lit "updated_at = CURRENT_TIMESTAMP"] in
        let values := values ++ [VNum id] in
        let query :=
          lit "UPDATE campaigns SET " ++ join (lit ", ") fields
          ++ lit " WHERE id = $" ++ decimal paramIndex
          ++ RETURNING_CAMPAIGN in
        let* rows := client_query query values in
        api_ret (head rows))                         (* null when empty *)
     client_end)%api.

(** What a route answers: the status code and the payload. *)
Inductive ReplyBody :=
| ErrorBody (error : string) (details : option ApiError)
| CampaignsBody (campaigns : list Row)
| CampaignBody (campaign : option Row)
| DeletedBody (message : string) (id : Value)
| CallBody (callSid status : jsstring).

Record Reply := { reply_code : nat; reply_body : ReplyBody }.

(** [GET /campaigns] *)
Definition get_campaigns : Api Reply :=
  (api_try_catch
     (let* campaigns := getCampaigns in
      api_ret {| reply_code := 200; reply_body := CampaignsBody campaigns |})
     (λ error,
        api_ret {| reply_code := 500;
                   reply_body := ErrorBody "Failed to fetch campaigns" None |}))%api.

(** [POST /campaigns] *)
Definition post_campaigns (body : option NewCampaign) : Api Reply :=
  (api_try_catch
     (let* campaign := createCampaign body in
      api_ret {| reply_code := 201; reply_body := CampaignBody campaign |})
     (λ error,
        console_error "Error creating campaign:" error;;;
        if bool_decide (error_code error = Some (lit "23505")) then
          api_ret {| reply_code := 409;
                     reply_body :=
                       ErrorBody "Campaign with this slug already exists" None |}
        else
          api_ret {| reply_code := 500;
                     reply_body :=
                       ErrorBody "Failed to create campaign" (Some error) |}))%api.

(** [DELETE /campaigns/:id] *)
Definition delete_campaign (idParam : jsstring) : Api Reply :=
  (api_try_catch
     (let id := Number idParam in
      if isNaN id then
        api_ret {| reply_code := 400;
                   reply_body := ErrorBody "Invalid campaign ID" None |}
      else
        let* deletedId := deleteCampaign id in
        if is_null deletedId then
          api_ret {| reply_code := 404;
                     reply_body := ErrorBody "Campaign not found" None |}
        else
          api_ret {| reply_code := 200;
                     reply_body :=
                       DeletedBody "Campaign deleted successfully" deletedId |})
     (λ error,
        console_error "Error deleting campaign:" error;;;
        api_ret {| reply_code := 500;
                   reply_body :=
                     ErrorBody "Failed to delete campaign" (Some error) |}))%api.

(** [PATCH /campaigns/:id] *)
Definition patch_campaign (idParam : jsstring) (body : option CampaignUpdates)
  : Api Reply :=
  (api_try_catch
     (let id := Number idParam in
      if isNaN id then
        api_ret {| reply_code := 400;
                   reply_body := ErrorBody "Invalid campaign ID" None |}
      else
        let* updatedCampaign := updateCampaign id body in
        match updatedCampaign with
        | None =>
            api_ret {| reply_code := 404;
                       reply_body := ErrorBody "Campaign not found" None |}
        | Some campaign =>
            api_ret {| reply_code := 200;
                       reply_body := CampaignBody (Some campaign) |}
        end)
     (λ error,
        console_error "Error updating campaign:" error;;;
        api_ret {| reply_code := 500;
                   reply_body :=
                     ErrorBody "Failed to update campaign" (Some error) |}))%api.

(** The body of [POST /calls/outbound]. *)
Record OutboundBody := { out_to : Value; out_campaignId : Value }.

(** [POST /calls/outbound] *)
Definition calls_outbound (body : option OutboundBody) : Api Reply :=
  (let* body := body_of body "to" in
   let to := out_to body in
   let campaignId := out_campaignId body in
   if negb (truthy_value to) || negb (truthy_value campaignId) then
     api_ret {| reply_code := 400;
                reply_body :=
                  ErrorBody "Missing required fields: to, campaignId" None |}
   else
     api_try_catch
       (let* campaign := getCampaignById campaignId in
        match campaign with
        | None =>
            api_ret {| reply_code := 404;
                       reply_body := ErrorBody "Campaign not found" None |}
        | Some _ =>
            let* server := getenv SERVER_URL in
            let twimlUrl :=
              default (lit "undefined") server
              ++ lit "/twiml?campaignId=" ++ to_string campaignId in
            let* from := getenv TWILIO_PHONE_NUMBER in
            let* call := calls_create to from twimlUrl in
            console_log_line
              (lit "[Outbound] Call initiated to " ++ to_string to
               ++ lit ", SID: " ++ call_sid call);;;
            api_ret {| reply_code := 200;
                       reply_body := CallBody (call_sid call) (call_status call) |}
        end)
       (λ err,
          console_error "[Outbound] Error:" err;;;
          api_ret {| reply_code := 500;
                     reply_body :=
                       ErrorBody "Failed to initiate call" (Some err) |}))%api.

(** ** The two conversions

    [mulawToWav] and [mp3ToMulaw] wrap an ffmpeg job in a promise: the
    chunks that the output stream emits are collected, the promise is
    resolved with their concatenation when the stream ends and rejected
    when the stream or ffmpeg reports an error.  What ffmpeg emits for a
    job is left to the environment. *)

Inductive StreamEvent :=
| StreamData (chunk : Buffer)         (* passThrough 'data' *)
| StreamEnd                           (* passThrough 'end' *)
| StreamError (e : Err)               (* passThrough 'error' *)
| FfmpegError (e : Err).              (* ffmpeg 'error' *)

Record FfmpegJob := {
  job_input : Buffer;
  job_inputFormat : option string;
  job_inputOptions : list string;
  job_outputFormat : string;
  job_outputOptions : list string
}.

(** The executor of the promise while it listens: the chunks pushed so
    far, and what the promise has been settled with, if it has been. *)
Record Collector := {
  chunks : list Buffer;
  settled : option (Result Buffer)
}.

(** [resolve] and [reject] on a promise that is already settled do
    nothing. *)
Definition settle (r : Result Buffer) (c : Collector) : Collector :=
  match settled c with
  | Some _ => c
  | None => {| chunks := chunks c; settled := Some r |}
  end.

Definition on_stream_event (c : Collector) (ev : StreamEvent) : Collector :=
  match ev with
  | StreamData chunk => {| chunks := chunks c ++ [chunk]; settled := settled c |}
  | StreamEnd => settle (Resolved (concat (chunks c))) c
  | StreamError e | FfmpegError e => settle (Rejected e) c
  end.

(** The promise after the given events: [None] while it is pending. *)
Definition collect (events : list StreamEvent) : option (Result Buffer) :=
  settled (foldl on_stream_event {| chunks := []; settled := None |} events).

(** The job of [mulawToWav]: 8 kHz mono mu-law in, WAV out. *)
Definition wav_job (mulawBuffer : Buffer) : FfmpegJob :=
  {| job_input := mulawBuffer;
     job_inputFormat := Some "mulaw"%string;
     job_inputOptions := ["-ar 8000"; "-ac 1"]%string;
     job_outputFormat := "wav"%string;
     job_outputOptions := [] |}.

(** The job of [mp3ToMulaw]: MP3 in, 8 kHz mono mu-law out. *)
Definition mulaw_job (mp3Buffer : Buffer) : FfmpegJob :=
  {| job_input := mp3Buffer;
     job_inputFormat := None;
     job_inputOptions := [];
     job_outputFormat := "mulaw"%string;
     job_outputOptions := ["-ar 8000"; "-ac 1"]%string |}.

Definition mulawToWav (ffmpeg : FfmpegJob → list StreamEvent)
  (mulawBuffer : Buffer) : option (Result Buffer) :=
  collect (ffmpeg (wav_job mulawBuffer)).

Definition mp3ToMulaw (ffmpeg : FfmpegJob → list StreamEvent)
  (mp3Buffer : Buffer) : option (Result Buffer) :=
  collect (ffmpeg (mulaw_job mp3Buffer)).

(** ** The vocabulary of the statements *)

(** *** What the handler does with one message *)

Definition push_chunk (chunk : Buffer) (s : CallSession) : CallSession :=
  with_audioBuffer (audioBuffer s ++ [chunk]) s.

(** The world after the handler has flushed the buffer of [session] on
    the arrival of [chunk]: buffer emptied, call of the pipeline noted. *)
Definition flushed (session : ref) (chunk : Buffer) (w : World) : World :=
  add_invoked
    (InvPipeline session (concat (audioBuffer (deref w session) ++ [chunk])))
    (set_heap (alter (with_audioBuffer []) session)
       (set_heap (alter (push_chunk chunk) session) w)).

Inductive handled (w : World) : Res unit → Prop :=
| handled_ignored :
    handled w (RetR tt w)
| handled_thrown e :
    handled w (ThrowR e w)
| handled_unknown_stream sid :
    handled w (RetR tt (add_console (LogUnknownStream sid) w))
| handled_stop stopData :
    handled w (RetR tt
      (set_activeCalls (delete (stop_streamSid stopData))
         (add_console (LogCallEnded (stop_callSid stopData)) w)))
| handled_buffered sid session chunk :
    activeCalls w !! sid = Some session →
    length (audioBuffer (deref w session)) + 1 < FLUSH_THRESHOLD →
    handled w (RetR tt (set_heap (alter (push_chunk chunk) session) w))
| handled_flush_dropped sid session chunk :
    activeCalls w !! sid = Some session →
    FLUSH_THRESHOLD ≤ length (audioBuffer (deref w session)) + 1 →
    busy w session = true →
    handled w (RetR tt (flushed session chunk w))
| handled_flush_run sid session chunk k :
    activeCalls w !! sid = Some session →
    FLUSH_THRESHOLD ≤ length (audioBuffer (deref w session)) + 1 →
    busy w session = false →
    (∀ o w1, busy w1 session = true → pipeline_run session w1 (k o w1)) →
    let blob := concat (audioBuffer (deref w session) ++ [chunk]) in
    handled w (Detach (InvPipeline session blob) (MulawToWav blob) k
      (RetR tt (set_heap (alter (with_isProcessing true) session)
                  (flushed session chunk w))))
| handled_start r :
    registers w r →
    handled w r
| handled_lookup id l k :
    (∀ o w', registers w' (k o w')) →
    handled w (AwaitR (GetCampaignById id) k (add_console l w)).

Definition registry_ok (w : World) : Prop :=
  ∀ sid session, activeCalls w !! sid = Some session →
    ∃ s, heap w !! session = Some s ∧ streamSid s = sid.

(** *** Single runs, segment by segment *)

(** A world change that touches at most the one session object, keeping
    its identity. *)
Record touches (session : ref) (w w' : World) : Prop := {
  touches_activeCalls : activeCalls w' = activeCalls w;
  touches_dom : dom (heap w') = dom (heap w);
  touches_other : ∀ r, r ≠ session → heap w' !! r = heap w !! r;
  touches_streamSid : streamSid (deref w' session) = streamSid (deref w session)
}.

(** How a pipeline run of [session] stands after some resumptions: it has
    returned with the flag reset, or it is pending with the flag set and
    has been resumed fewer than six times; it never throws. *)
Definition guarded (session : ref) (resumes : list World) (r : Res unit) : Prop :=
  match r with
  | RetR _ w' => busy w' session = false
  | AwaitR _ _ w' => busy w' session = true ∧ length resumes < 6
  | _ => False
  end.

(** The segment [seg] appends exactly [delta] to the history of [session]. *)
Definition appended (session : ref) (seg : World * World)
  (delta : list ChatMessage) : Prop :=
  history seg.2 session = history seg.1 session ++ delta.

(** The segment [seg] sends nothing. *)
Definition silent (seg : World * World) : Prop :=
  outbox seg.2 = outbox seg.1.

(** The synthesis request fails: it is rejected, or it is answered with a
    non-success status. *)
Definition synthesis_fails (answer : Answer) : Prop :=
  ∀ voice text,
    match answer _ (FetchTextToSpeech voice text) with
    | Resolved resp => ok resp = false
    | Rejected _ => True
    end.

(** The transport send fails: in the world [w'] in which the run is
    resumed with the encoded audio, if it gets that far, the socket of
    the session throws on [send]. *)
Definition send_fails (session : ref) (w' : option World) : Prop :=
  match w' with
  | Some w' => socket (deref w' session) ∈ broken w'
  | None => True
  end.

Definition threw {A : Type} (r : Res A) : bool :=
  match r with ThrowR _ _ => true | _ => false end.

(** *** Start events *)

(** The campaign lookup of the start fails (the promise is rejected) or
    misses (it is fulfilled with no row). *)
Definition lookup_fails_or_misses (answer : Answer) (q : option jsstring)
  : Prop :=
  match answer _ (GetCampaignById (default [] q)) with
  | Resolved (Some _) => False
  | _ => True
  end.

(** The world in which the handler of a start registers the session: the
    one the message arrived in when there is no campaign selector, the one
    in which the campaign lookup settled when there is one. *)
Definition registration_world (q : option jsstring) (w : World)
  (resumes : list World) : World :=
  if truthy_opt q then default w (head resumes) else w.

(** *** Messages that are not served *)

(** How the handler classifies a message it cannot serve: [Some None] for
    a message whose [event] is none of the three known ones, [Some (Some e)]
    for one on which evaluation raises [e] (not JSON at all; the JSON
    value [null]; a known event without its body), and [None] for a
    start, media or stop that has its body. *)
Definition unserved (message : RawData) : option (option Err) :=
  match message with
  | BadJson => Some (Some SyntaxError)
  | Json JNull => Some (Some TypeError)
  | Json (JObject d) =>
      if bool_decide (data_event d = Some (lit "start")) then
        match data_start d with Some _ => None | None => Some (Some TypeError) end
      else if bool_decide (data_event d = Some (lit "media")) then
        match data_media d with Some _ => None | None => Some (Some TypeError) end
      else if bool_decide (data_event d = Some (lit "stop")) then
        match data_stop d with Some _ => None | None => Some (Some TypeError) end
      else Some None
  end.



(** *** The registry over time *)

(** From one state of the event loop to a later one, session objects are
    never freed, and a reference that enters the registry is either one
    that was registered under the same stream id or a new object. *)
Definition evolves (w w' : World) : Prop :=
  dom (heap w) ⊆ dom (heap w')
  ∧ ∀ sid r, activeCalls w' !! sid = Some r →
      activeCalls w !! sid = Some r ∨ r ∉ dom (heap w).


(** *** The accumulator *)

Definition is_handler (t : Task) : bool :=
  match task_owner t with Handler => true | Started _ => false end.

(** No start is waiting for its campaign lookup (which would register a
    session when it settles). *)
Definition no_pending_start (sys : System) : Prop :=
  Forall (λ t, is_handler t = false) (sys_tasks sys).

(** Steps of the event loop other than the arrival of a message. *)
Definition background (a : Action) : bool :=
  match a with Deliver _ _ _ => false | _ => true end.

(** The media body of [a], when [a] delivers a media event for [sid]. *)
Definition media_for (sid : jsstring) (a : Action) : option MediaBody :=
  match a with
  | Deliver _ _ (Json (JObject d)) =>
      if bool_decide (data_event d = Some (lit "media")
                      ∧ data_streamSid d = Some sid)
      then data_media d else None
  | _ => None
  end.

Definition inbound_for (sid : jsstring) (a : Action) : bool :=
  match media_for sid a with
  | Some m => bool_decide (media_track m = lit "inbound")
  | None => false
  end.

(** A sequence of media events for [sid], with background steps of the
    event loop in between. *)
Definition feed (sid : jsstring) (actions : list Action) : Prop :=
  Forall (λ a, background a = true ∨ is_Some (media_for sid a)) actions.

(** The number of inbound-track frames for [sid] in the sequence. *)
Fixpoint inbound_frames (sid : jsstring) (actions : list Action) : nat :=
  match actions with
  | [] => 0
  | a :: rest => (if inbound_for sid a then 1 else 0) + inbound_frames sid rest
  end.

Definition buffered (sys : System) (session : ref) : list Buffer :=
  audioBuffer (deref (sys_world sys) session).

Definition is_pipeline_call (i : Invocation) : bool :=
  match i with InvPipeline _ _ => true | InvGreeting _ => false end.

(** The number of times [processAudioPipeline] has been called. *)
Definition pipeline_calls (sys : System) : nat :=
  length (List.filter is_pipeline_call (invoked (sys_world sys))).

(** The step [a] hands a blob to the pipeline. *)
Definition flushes (sys : System) (a : Action) : bool :=
  negb (pipeline_calls (step sys a) =? pipeline_calls sys).

(** The number of inbound-track frames for [sid] received since the last
    flush, or since the start of the sequence, where [n] had been
    received, if there was none. *)
Fixpoint since_flush (sid : jsstring) (sys : System) (n : nat)
  (actions : list Action) : nat :=
  match actions with
  | [] => n
  | a :: rest =>
      since_flush sid (step sys a)
        (if flushes sys a then 0 else if inbound_for sid a then S n else n)
        rest
  end.

(** The session of [sid] is registered and being served, nothing else
    can re-register the stream id. *)
Record serving (sid : jsstring) (session : ref) (sys : System) : Prop := {
  serving_inv : Inv sys;
  serving_no_start : no_pending_start sys;
  serving_registered : activeCalls (sys_world sys) !! sid = Some session
}.

(** What one media event for [sid] does to the session it is for. *)
Definition frame_effect (session : ref) (m : MediaBody) (sys sys' : System)
  : Prop :=
  let chunk := base64_decode (media_payload m) in
  if bool_decide (media_track m = lit "inbound") then
    if bool_decide (FLUSH_THRESHOLD ≤ length (buffered sys session) + 1) then
      buffered sys' session = []
      ∧ invoked (sys_world sys') = invoked (sys_world sys)
          ++ [InvPipeline session (concat (buffered sys session ++ [chunk]))]
    else
      buffered sys' session = buffered sys session ++ [chunk]
      ∧ invoked (sys_world sys') = invoked (sys_world sys)
  else sys' = sys.

(** *** The claims that do not hold, as they are worded *)

(** C2 as the specification words its last part: after a run whose
    synthesis failed, nothing more has been sent, the flag is reset, the
    user turn is in the history, and no assistant turn has been added. *)
Definition failed_run_keeps_only_user_turn (before after : World)
  (session : ref) (userText : jsstring) : Prop :=
  outbox after = outbox before
  ∧ busy after session = false
  ∧ {| role := user; content := userText |} ∈ history after session
  ∧ ∀ m, m ∈ history after session → m ∉ history before session →
      role m ≠ assistant.

(** The lines a step has written on the console. *)
Definition console_output (sys sys' : System) : list LogEntry :=
  drop (length (console (sys_world sys))) (console (sys_world sys')).

(** The state [sys] without the registry entry of [sid]. *)
Definition unregistered (sid : jsstring) (sys : System) : System :=
  {| sys_world := set_activeCalls (delete sid) (sys_world sys);
     sys_tasks := sys_tasks sys |}.

(** C7 as the specification words it: the step logs the protocol
    violation, that is, it writes something it would not write if the
    stream id were not in the registry. *)
Definition logs_protocol_violation (sid : jsstring) (sys : System)
  (a : Action) : Prop :=
  console_output sys (step sys a)
  ≠ console_output (unregistered sid sys) (step (unregistered sid sys) a).

(** C9 as the specification words it: the message is logged, no state
    is changed, and no error escapes. *)
Definition ignored_and_logged (sys : System) (a : Action) : Prop :=
  console_output sys (step sys a) ≠ []
  ∧ heap (sys_world (step sys a)) = heap (sys_world sys)
  ∧ activeCalls (sys_world (step sys a)) = activeCalls (sys_world sys)
  ∧ unhandled (sys_world (step sys a)) = unhandled (sys_world sys).

(** The program installs no listener for rejections that nobody handles
    (there is no [process.on('unhandledRejection', ...)]), so the runtime
    ends the process at the first one.  [exits sys a]: the step [a] leaves
    such a rejection, and the process ends there. *)
Definition exits (sys : System) (a : Action) : Prop :=
  unhandled (sys_world (step sys a)) ≠ unhandled (sys_world sys).

(** The [event] of the message is none of the three the [switch] has a
    case for. *)
Definition unknown_event (d : Data) : Prop :=
  data_event d ≠ Some (lit "start")
  ∧ data_event d ≠ Some (lit "media")
  ∧ data_event d ≠ Some (lit "stop").


(** *** Single runs: what is asked, what is sent *)

(** The messages of the chat completion that a pipeline run on [session]
    requests when it is resumed in [w] with the transcript [userText]: the
    system prompt, the whole history as it is then, the new user turn. *)
Definition chat_context (w : World) (session : ref) (userText : jsstring)
  : list ChatMessage :=
  {| role := system; content := campaignPrompt (deref w session) |}
  :: history w session ++ [ {| role := user; content := userText |} ].

(** The outbound message of a run on [session] that is resumed in [w]
    with the encoded audio, and the socket it goes to. *)
Definition reply_to (w : World) (session : ref) (mulawAudio : Buffer)
  : Socket * OutMsg :=
  (socket (deref w session),
   {| out_streamSid := streamSid (deref w session);
      out_payload := mulawAudio |}).

(** The segment [seg] sends exactly [sent], in this order. *)
Definition sends (seg : World * World) (sent : list (Socket * OutMsg)) : Prop :=
  outbox seg.2 = outbox seg.1 ++ sent.

(** The segment [seg] writes exactly [lines] on the console. *)
Definition logs (seg : World * World) (lines : list LogEntry) : Prop :=
  console seg.2 = console seg.1 ++ lines.

(** The audio never becomes a transcript: the decoding is rejected, or
    the transcription of the decoded audio is. *)
Definition no_transcript (answer : Answer) (audio : Buffer) (e : Err) : Prop :=
  answer _ (MulawToWav audio) = Rejected e
  ∨ ∃ wav, answer _ (MulawToWav audio) = Resolved wav
           ∧ answer _ (TranscriptionsCreate wav) = Rejected e.

(** Calls of an engine that is given the words of the conversation. *)
Definition is_engine_call (q : Request) : bool :=
  match q with
  | Req c =>
      match c with
      | ChatCompletionsCreate _ | FetchTextToSpeech _ _ => true
      | _ => false
      end
  end.

(** *** What no step of the event loop undoes *)

(** The fields of a session object that are set when it is created. *)
Definition identity (s : CallSession)
  : option jsstring * jsstring * Socket * jsstring * jsstring :=
  (callSid s, streamSid s, socket s, campaignPrompt s, campaignVoiceId s).

(** A turn as the history stores them: the turn of the user or of the
    assistant, never a system message; and the text of a user turn is
    not empty and has no white space at either end. *)
Definition storable (m : ChatMessage) : Prop :=
  role m ≠ system
  ∧ (role m = user → content m ≠ [] ∧ trim (content m) = content m).

(** [s'] is a later state of the session object [s]: the same identity,
    and the history of [s] followed by storable turns. *)
Definition grown (s s' : CallSession) : Prop :=
  identity s' = identity s
  ∧ ∃ turns, conversationHistory s' = conversationHistory s ++ turns
      ∧ Forall storable turns.

(** Every history holds storable turns only. *)
Definition tidy (w : World) : Prop :=
  ∀ r s, heap w !! r = Some s → Forall storable (conversationHistory s).

(** The message went to the socket of [s] under the stream id of [s]. *)
Definition sent_to (s : CallSession) (m : Socket * OutMsg) : Prop :=
  m.1 = socket s ∧ out_streamSid m.2 = streamSid s.

(** From [w] to [w']: every session object is still there, grown, and
    everything that had been sent is still the beginning of what has been
    sent. *)
Definition keeps (w w' : World) : Prop :=
  (∀ r s, heap w !! r = Some s → ∃ s', heap w' !! r = Some s' ∧ grown s s')
  ∧ outbox w `prefix_of` outbox w'.

(** Every message that has been sent went to the socket of a session
    object, under the stream id of that object. *)
Definition addressed (w : World) : Prop :=
  ∀ m, m ∈ outbox w → ∃ r s, heap w !! r = Some s ∧ sent_to s m.

(** From one state of the event loop to the next: nothing is undone, and
    what is sent goes to a session object that is there. *)
Definition advances (w w' : World) : Prop :=
  keeps w w'
  ∧ ∃ sent, outbox w' = outbox w ++ sent
      ∧ Forall (λ m, ∃ r s, heap w !! r = Some s ∧ sent_to s m) sent.

(** A segment of a run on [session]: it is quiet, the session object
    grows, and whatever it sends goes to the session. *)
Record orderly (session : ref) (w w' : World) : Prop := {
  orderly_quiet : quiet session w w';
  orderly_grown : grown (deref w session) (deref w' session);
  orderly_sent : ∃ sent, outbox w' = outbox w ++ sent
                   ∧ Forall (sent_to (deref w session)) sent
}.

Definition orderly_run (session : ref) : World → Res unit → Prop :=
  upholds (orderly session) (λ _, True) (λ _, True) (λ _, True).

(** The last segment of a [start] leaves an orderly greeting behind. *)
Definition starts_orderly (r : Res unit) : Prop :=
  match r with
  | Detach (InvGreeting session) c k (RetR _ _) =>
      ∀ o w1, orderly_run session w1 (k o w1)
  | _ => False
  end.

Definition task_orderly (w : World) (t : Task) : Prop :=
  match task_owner t with
  | Started (InvPipeline session _) | Started (InvGreeting session) =>
      session ∈ dom (heap w)
      ∧ ∀ o w', orderly_run session w' (task_k t o w')
  | Handler =>
      ∀ o w', starts_orderly (task_k t o w')
  end.

(** Every pending await belongs to an orderly run. *)
Definition Orderly (sys : System) : Prop :=
  Forall (task_orderly (sys_world sys)) (sys_tasks sys).

(** No session object holds a full buffer. *)
Definition below_threshold (w : World) : Prop :=
  ∀ r s, heap w !! r = Some s → length (audioBuffer s) < FLUSH_THRESHOLD.

(** The rejection that the handler lets escape on a message, if any. *)
Definition rejection_of (a : Action) : option Err :=
  match a with
  | Deliver _ _ message => mjoin (unserved message)
  | _ => None
  end.

(** *** Configuration of a session *)

(** [value || fallback] on a nullable string column. *)
Definition or_else (value : option jsstring) (fallback : jsstring) : jsstring :=
  if truthy_opt value then default [] value else fallback.

(** *** The campaign store and the routes *)

Definition is_query (op : Op) : bool :=
  match op with OpQuery _ _ => true | _ => false end.

(** The operations of one call of the store: the client is opened, at
    most one statement is sent, none if the client could not be opened,
    and the client is closed. *)
Definition one_connection (env : Env) (ops : list Op) : Prop :=
  ∃ queries,
    ops = OpConnect :: queries ++ [OpEnd]
    ∧ length queries ≤ 1
    ∧ Forall (λ op, is_query op = true) queries
    ∧ ∀ e, env_connect env = Thrown e → queries = [].

(** The error with which a call of the store is rejected, if any, when
    its statement is answered with [queried]: the error of closing the
    client if that fails, otherwise the error of opening it, otherwise
    the error of the statement. *)
Definition store_failure (env : Env) (queried : Outcome (list Row))
  : option ApiError :=
  match env_end env with
  | Thrown e => Some e
  | Returned _ =>
      match env_connect env with
      | Thrown e => Some e
      | Returned _ =>
          match queried with
          | Thrown e => Some e
          | Returned _ => None
          end
      end
  end.

(** The columns that [updateCampaign] can set, in the order in which it
    looks at them, with the values the request gives them. *)
Definition columns_of (u : CampaignUpdates) : list (string * Value) :=
  [ ("name", upd_name u);
    ("description", upd_description u);
    ("campaign_prompt", upd_campaign_prompt u);
    ("voice_id", upd_voice_id u);
    ("initial_delay", upd_initial_delay u);
    ("max_retries", upd_max_retries u);
    ("retry_interval", upd_retry_interval u);
    ("webhook_url", upd_webhook_url u);
    ("calendar_connected", upd_calendar_connected u) ]%string.

(** Those of them that the request provides. *)
Definition provided (u : CampaignUpdates) : list (string * Value) :=
  List.filter (λ cv, negb (is_undefined cv.2)) (columns_of u).

(** The [i]-th assignment of the SET clause, counting from 0. *)
Definition assignment (i : nat) (cv : string * Value) : jsstring :=
  lit cv.1 ++ lit " = $" ++ decimal (S i).

(** The UPDATE statement that assigns the given columns: the [i]-th
    column gets the placeholder of the [i]-th parameter, and the row is
    selected by the parameter after the last of them. *)
Definition update_statement (assigned : list (string * Value)) : jsstring :=
  lit "UPDATE campaigns SET "
  ++ join (lit ", ")
       (imap assignment assigned ++ [lit "updated_at = CURRENT_TIMESTAMP"])
  ++ lit " WHERE id = $" ++ decimal (S (length assigned))
  ++ RETURNING_CAMPAIGN.

Definition DELETE_CAMPAIGN : jsstring :=
  lit "DELETE FROM campaigns WHERE id = $1 RETURNING id".

Definition SELECT_CAMPAIGN : jsstring :=
  lit "SELECT id, campaign_prompt, voice_id FROM campaigns WHERE id = $1".

Definition is_calls_create (op : Op) : bool :=
  match op with OpCallsCreate _ _ _ => true | _ => false end.

Definition INSERT_CAMPAIGN : jsstring :=
  lit "INSERT INTO campaigns (slug, name, description, campaign_prompt, voice_id, initial_delay, max_retries, retry_interval, webhook_url, calendar_connected)
             VALUES ($1, $2, $3, $4, $5, $6, $7, $8, $9, $10)
             RETURNING id, slug, name, description, leads, calls, qualified".

(** What is stored for an optional field of a new campaign: the value
    given if it is truthy, the fallback otherwise. *)
Definition stored (given fallback : Value) : Value :=
  match given with
  | VBool true => given
  | VNum n => if num_truthy n then given else fallback
  | VStr (_ :: _) => given
  | _ => fallback
  end.

(** The ten parameters of the INSERT of a new campaign. *)
Definition insert_parameters (c : NewCampaign) : list Value :=
  [ new_slug c; new_name c ]
  ++ [ stored (new_description c) VNull;
       stored (new_campaign_prompt c) VNull;
       stored (new_voice_id c) VNull ]
  ++ [ stored (new_initial_delay c) (VNum num_zero);
       stored (new_max_retries c) (VNum num_zero);
       stored (new_retry_interval c) (VNum num_zero) ]
  ++ [ stored (new_webhook_url c) VNull;
       stored (new_calendar_connected c) (VBool false) ].

(** The URL that Twilio is told to fetch the TwiML from. *)
Definition twiml_url (env : Env) (campaignId : Value) : jsstring :=
  default (lit "undefined") (SERVER_URL env)
  ++ lit "/twiml?campaignId=" ++ to_string campaignId.

Definition error_reply (code : nat) (error : string) (details : option ApiError)
  : Reply :=
  {| reply_code := code; reply_body := ErrorBody error details |}.

(** Operations on the database client. *)
Definition is_db (op : Op) : bool :=
  match op with
  | OpConnect | OpQuery _ _ | OpEnd => true
  | _ => false
  end.

(** What a route does to the database: nothing, or one call of the
    store. *)
Definition at_most_one_connection (env : Env) (ops : list Op) : Prop :=
  List.filter is_db ops = [] ∨ one_connection env (List.filter is_db ops).

(** *** The two conversions *)

Definition is_data (ev : StreamEvent) : bool :=
  match ev with StreamData _ => true | _ => false end.

(** The chunks of the data events among [events]. *)
Definition data_of (events : list StreamEvent) : list Buffer :=
  omap (λ ev, match ev with StreamData chunk => Some chunk | _ => None end)
    events.

(** What the first event that is not a chunk settles the promise with,
    given the chunks that came before it. *)
Definition verdict (before : list Buffer) (ev : StreamEvent) : Result Buffer :=
  match ev with
  | StreamError e | FfmpegError e => Rejected e
  | _ => Resolved (concat before)
  end.

(** *** Greetings and blobs *)

Definition is_greeting_of (session : ref) (i : Invocation) : bool :=
  match i with
  | InvGreeting r => bool_decide (r = session)
  | InvPipeline _ _ => false
  end.

(** The number of times [sendGreeting] has been called for [session]. *)
Definition greetings_of (session : ref) (w : World) : nat :=
  length (List.filter (is_greeting_of session) (invoked w)).

(** Every session object has been greeted once, and nothing else has. *)
Definition greeted_once (w : World) : Prop :=
  ∀ session,
    greetings_of session w
    = if bool_decide (session ∈ dom (heap w)) then 1 else 0.

(** The decoded payloads of the inbound-track frames for [sid] in the
    sequence, in order of arrival. *)
Fixpoint inbound_chunks (sid : jsstring) (actions : list Action)
  : list Buffer :=
  match actions with
  | [] => []
  | a :: rest =>
      match media_for sid a with
      | Some m =>
          if bool_decide (media_track m = lit "inbound")
          then base64_decode (media_payload m) :: inbound_chunks sid rest
          else inbound_chunks sid rest
      | None => inbound_chunks sid rest
      end
  end.

(** * Proofs *)

(** ** Trimming *)

Lemma trimStart_nil (s : jsstring) :
  trimStart s = [] ↔ forallb is_js_whitespace s = true.
Proof.
  induction s as [|c s IH]; simpl; [done|].
  destruct (is_js_whitespace c); simpl; [done|].
  split; discriminate.
Qed.

Lemma trimStart_forallb (s : jsstring) :
  forallb is_js_whitespace s = true → trimStart s = [].
Proof. apply trimStart_nil. Qed.

Lemma trim_whitespace (s : jsstring) :
  forallb is_js_whitespace s = true → trim s = [].
Proof.
  intros H. unfold trim. by rewrite (trimStart_forallb s H).
Qed.

Lemma trimStart_suffix (s : jsstring) : ∃ p, s = p ++ trimStart s
  ∧ forallb is_js_whitespace p = true.
Proof.
  induction s as [|c s (p & Hp & Hws)]; simpl.
  - by exists [].
  - destruct (is_js_whitespace c) eqn:Hc.
    + exists (c :: p). simpl. rewrite Hc, Hws. split; [congruence|done].
    + by exists [].
Qed.

Lemma forallb_rev' (p : N → bool) (s : jsstring) :
  forallb p (rev s) = forallb p s.
Proof.
  induction s as [|c s IH]; simpl; [done|].
  rewrite forallb_app, IH. simpl. rewrite andb_true_r. apply andb_comm.
Qed.

(** The test [!userText] of the source succeeds exactly on the transcripts
    that are empty or consist of whitespace only. *)
Lemma trim_nil (s : jsstring) :
  trim s = [] ↔ forallb is_js_whitespace s = true.
Proof.
  split; [|apply trim_whitespace].
  unfold trim. intros H.
  apply (f_equal (@rev N)) in H. rewrite rev_involutive in H. simpl in H.
  apply trimStart_nil in H. rewrite forallb_rev' in H.
  destruct (trimStart_suffix s) as (p & Hp & Hws).
  rewrite Hp, forallb_app, Hws, H. done.
Qed.

(** ** Reading the world after a write *)

Lemma busy_true_is_Some (w : World) (session : ref) :
  busy w session = true → ∃ s, heap w !! session = Some s ∧ isProcessing s = true.
Proof.
  unfold busy, deref. destruct (heap w !! session) as [s|]; simpl; [eauto|done].
Qed.

(** Solves [quiet], [busy] and [history] goals about a world obtained
    from [w] by writes to the one session object and appends to the logs. *)
Ltac session_facts :=
  repeat match goal with
  | H : busy _ _ = true |- _ => apply busy_true_is_Some in H as (? & ? & ?)
  end;
  unfold busy, history, deref in *; simpl in *;
  rewrite ?lookup_alter_eq;
  repeat match goal with
  | H : heap ?w !! ?r = Some _ |- context [heap ?w !! ?r] => rewrite H
  | |- context [heap ?w !! ?r] => destruct (heap w !! r)
  end; simpl in *; try done.

Ltac quiet_tac :=
  constructor; simpl;
  first [ reflexivity
        | by rewrite ?dom_alter_L
        | by intros; rewrite ?lookup_alter_ne by done
        | by session_facts ].

Lemma pipeline_run_start (session : ref) (audio : Buffer) (w : World) (s : CallSession) :
  heap w !! session = Some s → isProcessing s = false →
  pipeline_run session w (processAudioPipeline session audio w).
Proof.
  intros Hs Hidle.
  unfold pipeline_run, processAudioPipeline.
  cbn. unfold deref. rewrite Hs. simpl. rewrite Hidle. cbn.
  split; [quiet_tac|]. split; [session_facts|].
  intros [wav|e] w1 H1; cbn;
    [|split; [quiet_tac|session_facts]].
  split; [quiet_tac|]. split; [done|].
  intros [text|e] w2 H2; cbn;
    [|split; [quiet_tac|session_facts]].
  destruct (truthy (trim text)); cbn;
    [|split; [quiet_tac|session_facts]].
  split; [quiet_tac|]. split; [session_facts|].
  intros [reply|e] w3 H3; cbn;
    [|split; [quiet_tac|session_facts]].
  split; [quiet_tac|]. split; [session_facts|].
  intros [resp|e] w4 H4; cbn;
    [|split; [quiet_tac|session_facts]].
  destruct (ok resp); cbn.
  - split; [quiet_tac|]. split; [done|].
    intros [mp3|e] w5 H5; cbn;
      [|split; [quiet_tac|session_facts]].
    split; [quiet_tac|]. split; [done|].
    intros [mulaw|e] w6 H6; cbn;
      [|split; [quiet_tac|session_facts]].
    unfold socket_send. case_bool_decide; cbn;
      (split; [quiet_tac|session_facts]).
  - split; [quiet_tac|]. split; [done|].
    intros [errText|e] w5 H5; cbn; (split; [quiet_tac|session_facts]).
Qed.

Lemma pipeline_busy (session : ref) (audio : Buffer) (w : World) :
  busy w session = true →
  processAudioPipeline session audio w = RetR tt w.
Proof.
  unfold busy, processAudioPipeline. cbn. by intros ->.
Qed.

Lemma pipeline_idle (session : ref) (audio : Buffer) (w : World) :
  busy w session = false →
  ∃ k, processAudioPipeline session audio w =
         AwaitR (MulawToWav audio) k
           (set_heap (alter (with_isProcessing true) session) w)
       ∧ ∀ s, heap w !! session = Some s →
           ∀ o w1, busy w1 session = true → pipeline_run session w1 (k o w1).
Proof.
  intros Hb. eexists. split.
  - unfold busy in Hb. unfold processAudioPipeline. cbn. rewrite Hb. cbn.
    reflexivity.
  - intros s Hs o w1 H1.
    assert (Hidle : isProcessing s = false).
    { unfold busy, deref in Hb. by rewrite Hs in Hb. }
    pose proof (pipeline_run_start session audio w s Hs Hidle) as H.
    unfold pipeline_run, processAudioPipeline in H. cbn in H.
    unfold deref at 1 in H. rewrite Hs in H. simpl in H.
    rewrite Hidle in H. cbn in H.
    destruct H as (_ & _ & H). by apply H.
Qed.

Lemma greeting_run_start (session : ref) (w : World) :
  greeting_run session w (sendGreeting session w).
Proof.
  unfold greeting_run, sendGreeting. cbn.
  split; [split; [quiet_tac|done]|]. split; [done|].
  intros [greeting|e] w1 _; cbn;
    [|split; [split; [quiet_tac|done]|done]].
  split; [split; [quiet_tac|session_facts]|]. split; [done|].
  intros [resp|e] w2 _; cbn;
    [|split; [split; [quiet_tac|done]|done]].
  destruct (ok resp); cbn.
  - split; [split; [quiet_tac|done]|]. split; [done|].
    intros [mp3|e] w3 _; cbn;
      [|split; [split; [quiet_tac|done]|done]].
    split; [split; [quiet_tac|done]|]. split; [done|].
    intros [mulaw|e] w4 _; cbn;
      [|split; [split; [quiet_tac|done]|done]].
    unfold socket_send. case_bool_decide; cbn;
      (split; [split; [quiet_tac|done]|done]).
  - split; [split; [quiet_tac|done]|]. split; [done|].
    intros [errText|e] w3 _; cbn; (split; [split; [quiet_tac|done]|done]).
Qed.

Lemma greeting_first_call (session : ref) (w : World) :
  ∃ k, sendGreeting session w =
         AwaitR (ChatCompletionsCreate
           [ {| role := system; content := campaignPrompt (deref w session) |};
             {| role := user; content := START_CALL |} ]) k w
       ∧ ∀ o w1, greeting_run session w1 (k o w1).
Proof.
  eexists. split.
  - unfold sendGreeting. cbn. reflexivity.
  - intros o w1.
    pose proof (greeting_run_start session w1) as H.
    unfold greeting_run, sendGreeting in H. cbn in H.
    destruct H as (_ & _ & H). by apply H.
Qed.

Arguments processAudioPipeline : simpl never.
Arguments sendGreeting : simpl never.

(** ** What the handler does with one message *)

Lemma registers_start (connection : Socket) (startData : StartBody)
  (prompt voice : jsstring) (w w0 : World) :
  logged w w0 →
  registers w
    (bindR (new_session (fresh_session connection startData prompt voice) w0)
       (λ newSession,
          modify (set_activeCalls (insert (start_streamSid startData) newSession));;;
          call_async (InvGreeting newSession) (sendGreeting newSession))).
Proof.
  intros Hlog. cbn.
  assert (Hdom : dom (heap w0) = dom (heap w)).
  { by destruct Hlog as [->|[l ->]]. }
  rewrite Hdom. unfold call_async.
  match goal with
  | |- context [sendGreeting ?r ?w1] =>
      destruct (greeting_first_call r w1) as (k & -> & Hk)
  end.
  cbn. split; [done|].
  split; [exists connection, startData, prompt, voice, w0; split; [done|];
          unfold registered; by rewrite Hdom|].
  done.
Qed.

Lemma on_message_handled (connection : Socket) (q : option jsstring)
  (message : RawData) (w : World) :
  registry_ok w →
  handled w (on_message connection q message w).
Proof.
  intros Hreg. unfold on_message.
  destruct message as [|[|d]]; cbn; [apply handled_thrown..|].
  case_bool_decide as Hstart; [|case_bool_decide as Hmedia;
    [|case_bool_decide as Hstop]]; cbn.
  - (* start *)
    destruct (data_start d) as [startData|]; cbn; [|constructor].
    destruct (truthy_opt q); cbn.
    + apply handled_lookup. intros [campaign|e] w'; cbn.
      * apply (registers_start _ _ _ _ w' w'). by left.
      * apply (registers_start _ _ _ _ w'
          (add_console (LogStartError e) w')). right; by eexists.
    + apply handled_start.
      apply (registers_start _ _ _ _ w
        (add_console (LogCallStarted (start_callSid startData)) w)).
      right; by eexists.
  - (* media *)
    destruct (data_media d) as [mediaData|]; cbn; [|constructor].
    case_bool_decide as Htrack; cbn; [|constructor].
    destruct (data_streamSid d) as [sid|]; cbn; [|constructor].
    destruct (activeCalls w !! sid) as [session|] eqn:Hsid; cbn; [|constructor].
    destruct (Hreg _ _ Hsid) as (s & Hs & _).
    set (chunk := base64_decode (media_payload mediaData)).
    assert (Hlen : audioBuffer (deref (set_heap (alter (λ s0,
        with_audioBuffer (audioBuffer s0 ++ [chunk]) s0) session) w) session)
        = audioBuffer (deref w session) ++ [chunk]).
    { unfold deref. simpl. rewrite lookup_alter_eq, Hs. done. }
    rewrite Hlen. rewrite length_app. simpl.
    case_bool_decide as Hthr; cbn.
    + unfold call_async.
      match goal with
      | |- context [processAudioPipeline _ _ ?w2] =>
          assert (Hbusy : busy w2 session = busy w session)
            by (unfold busy, deref; simpl; by rewrite !lookup_alter_eq, Hs);
          assert (H2 : ∃ s2, heap w2 !! session = Some s2)
            by (simpl; rewrite !lookup_alter_eq, Hs; by eexists)
      end.
      destruct H2 as (s2 & H2).
      destruct (busy w session) eqn:Hb.
      * rewrite pipeline_busy by done. cbn.
        by eapply handled_flush_dropped.
      * match goal with
        | |- context [processAudioPipeline ?r ?a ?w2] =>
            destruct (pipeline_idle r a w2 Hbusy) as (k & -> & Hk)
        end.
        cbn. eapply (handled_flush_run w sid session chunk); try done.
        by eapply Hk.
    + eapply handled_buffered; [done|]. unfold FLUSH_THRESHOLD in *. lia.
  - (* stop *)
    destruct (data_stop d) as [stopData|]; cbn; constructor.
  - constructor.
Qed.

(** ** The invariant of the event loop *)

Lemma active_runs_app (session : ref) (ts ts' : list Task) :
  active_runs session (ts ++ ts') =
  active_runs session ts + active_runs session ts'.
Proof. induction ts as [|t ts IH]; simpl; [done|]. rewrite IH. lia. Qed.

Lemma active_runs_delete (session : ref) (ts : list Task) (i : nat) (t : Task) :
  ts !! i = Some t →
  active_runs session ts =
  (if runs_on session t then 1 else 0) + active_runs session (delete i ts).
Proof.
  revert i. induction ts as [|t' ts IH]; intros [|i] Hi; simplify_eq/=; [done|].
  rewrite (IH i Hi). lia.
Qed.

Lemma task_ok_mono (w w' : World) (t : Task) :
  dom (heap w) ⊆ dom (heap w') → task_ok w t → task_ok w' t.
Proof.
  intros Hdom. unfold task_ok.
  destruct (task_owner t) as [|[session|session audio]]; [done..|].
  intros [Hin H]. split; [by apply Hdom|done].
Qed.

Lemma tasks_ok_mono (w w' : World) (ts : list Task) :
  dom (heap w) ⊆ dom (heap w') →
  Forall (task_ok w) ts → Forall (task_ok w') ts.
Proof.
  intros Hdom H. eapply Forall_impl; [done|]. intros t. by apply task_ok_mono.
Qed.

Lemma active_runs_fresh (w : World) (ts : list Task) (session : ref) :
  Forall (task_ok w) ts → session ∉ dom (heap w) →
  active_runs session ts = 0.
Proof.
  intros Hts Hfresh. induction Hts as [|t ts Ht _ IH]; simpl; [done|].
  rewrite IH. unfold runs_on, task_ok in *.
  destruct (task_owner t) as [|[r|r audio]]; [done..|].
  case_bool_decide; [|done]. subst. by destruct Ht.
Qed.

Lemma quiet_touches (session : ref) (w w' : World) :
  quiet session w w' → touches session w w'.
Proof. intros []. by constructor. Qed.

Lemma touches_alter (session : ref) (f : CallSession → CallSession) (w : World) :
  (∀ s, streamSid (f s) = streamSid s) →
  touches session w (set_heap (alter f session) w).
Proof.
  intros Hf. constructor; simpl; [done|by rewrite dom_alter_L| |].
  - intros r Hr. by rewrite lookup_alter_ne.
  - unfold deref. simpl. rewrite lookup_alter_eq.
    destruct (heap w !! session); simpl; [apply Hf|done].
Qed.

Lemma touches_lookup (session : ref) (w w' : World) (s' : CallSession) :
  touches session w w' → heap w' !! session = Some s' →
  ∃ s, heap w !! session = Some s ∧ streamSid s = streamSid s'.
Proof.
  intros [_ Hdom _ Hsid] Hs'.
  assert (session ∈ dom (heap w)) as [s Hs]%elem_of_dom.
  { rewrite <- Hdom. by eapply elem_of_dom_2. }
  exists s. split; [done|]. unfold deref in Hsid. by rewrite Hs, Hs' in Hsid.
Qed.

Lemma Inv_touch (sys : System) (session : ref) (w' : World) (ts' : list Task) :
  Inv sys →
  touches session (sys_world sys) w' →
  (∀ s', heap w' !! session = Some s' →
     active_runs session ts' = if isProcessing s' then 1 else 0) →
  (∀ r, r ≠ session → active_runs r ts' = active_runs r (sys_tasks sys)) →
  Forall (task_ok w') ts' →
  Inv {| sys_world := w'; sys_tasks := ts' |}.
Proof.
  intros [Hruns Htasks Hreg] Ht Hsession Hothers Hts'.
  constructor; simpl; [|done|].
  - intros r s' Hs'. destruct (decide (r = session)) as [->|Hne]; [auto|].
    rewrite Hothers by done. apply Hruns.
    by rewrite <- (touches_other _ _ _ Ht).
  - intros sid r. rewrite (touches_activeCalls _ _ _ Ht). intros Hsid.
    destruct (Hreg _ _ Hsid) as (s & Hs & Hstream).
    destruct (decide (r = session)) as [->|Hne].
    + assert (session ∈ dom (heap w')) as [s' Hs']%elem_of_dom.
      { rewrite (touches_dom _ _ _ Ht). by eapply elem_of_dom_2. }
      exists s'. split; [done|].
      destruct (touches_lookup _ _ _ _ Ht Hs') as (s0 & Hs0 & <-). congruence.
    + exists s. by rewrite (touches_other _ _ _ Ht).
Qed.

(** A world change that leaves the heap alone. *)
Lemma Inv_same_heap (sys : System) (w' : World) (ts : list Task) :
  Inv sys →
  heap w' = heap (sys_world sys) →
  (∀ sid r, activeCalls w' !! sid = Some r →
     activeCalls (sys_world sys) !! sid = Some r) →
  Forall (task_ok w') ts →
  (∀ r, active_runs r ts = 0) →
  Inv {| sys_world := w'; sys_tasks := sys_tasks sys ++ ts |}.
Proof.
  intros [Hruns Htasks Hreg] Hheap Hcalls Hts Hnone.
  constructor; simpl.
  - intros r s. rewrite Hheap, active_runs_app, Hnone, Nat.add_0_r. apply Hruns.
  - apply Forall_app. split; [|done].
    eapply tasks_ok_mono; [|done]. by rewrite Hheap.
  - intros sid r Hsid. rewrite Hheap. by apply Hreg, Hcalls.
Qed.

(** Registering a new session object. *)
Lemma Inv_registers (w : World) (ts : list Task) (r : Res unit) :
  Inv {| sys_world := w; sys_tasks := ts |} →
  registers w r →
  Inv {| sys_world := (park Handler r).1;
         sys_tasks := ts ++ (park Handler r).2 |}.
Proof.
  intros [Hruns Htasks Hreg] Hr. simpl in Hruns, Htasks, Hreg.
  destruct r as [| | |[session|] X c k [[] w'| | |]]; try done.
  destruct Hr as (-> & (conn & startData & prompt & voice & w0 & Hlog & ->) & Hk).
  set (session := fresh (dom (heap w))) in Hk |- *.
  assert (Hfresh : session ∉ dom (heap w)) by apply is_fresh.
  assert (Hnone : heap w !! session = None) by by apply not_elem_of_dom.
  assert (Hheap : heap w0 = heap w) by (by destruct Hlog as [->|[l ->]]).
  assert (Hcalls : activeCalls w0 = activeCalls w)
    by (by destruct Hlog as [->|[l ->]]).
  unfold registered. rewrite Hheap. fold session. simpl.
  constructor; simpl.
  - intros r s. rewrite Hheap, active_runs_app. simpl.
    rewrite lookup_insert. case_decide as Hr.
    + subst r. intros [= <-]. simpl.
      by rewrite (active_runs_fresh w ts session).
    + intros Hs. rewrite (Hruns r s Hs). unfold runs_on. simpl. lia.
  - apply Forall_app. split.
    + eapply tasks_ok_mono; [|done]. simpl. rewrite Hheap, dom_insert_L.
      apply union_subseteq_r.
    + apply Forall_singleton. unfold task_ok. simpl. done.
  - intros sid r. rewrite Hheap, Hcalls, lookup_insert. case_decide as Hsid.
    + subst sid. intros [= <-]. rewrite lookup_insert_eq. by eexists.
    + intros Hr. destruct (Hreg _ _ Hr) as (s & Hs & Hstream).
      exists s. split; [|done]. rewrite lookup_insert_ne; [done|].
      intros <-. congruence.
Qed.

Lemma touches_flushed (session : ref) (chunk : Buffer) (w : World) :
  touches session w (flushed session chunk w).
Proof.
  constructor; simpl; [done|by rewrite !dom_alter_L| |].
  - intros r Hr. by rewrite !lookup_alter_ne.
  - unfold deref. simpl. rewrite !lookup_alter_eq.
    by destruct (heap w !! session).
Qed.

Lemma busy_lookup (w : World) (session : ref) (s : CallSession) :
  heap w !! session = Some s → busy w session = isProcessing s.
Proof. unfold busy, deref. by intros ->. Qed.

Lemma Inv_handled (w : World) (ts : list Task) (r : Res unit) :
  Inv {| sys_world := w; sys_tasks := ts |} →
  handled w r →
  Inv {| sys_world := (park Handler r).1;
         sys_tasks := ts ++ (park Handler r).2 |}.
Proof.
  intros HI Hr.
  destruct Hr as [|e|sid|stopData|sid session chunk Hsid Hlen
    |sid session chunk Hsid Hlen Hbusy|sid session chunk k Hsid Hlen Hbusy Hk
    |r Hr|id l k Hk]; simpl.
  - by apply (Inv_same_heap _ w []) in HI.
  - by apply (Inv_same_heap _ (add_unhandled e w) []) in HI.
  - by apply (Inv_same_heap _ (add_console (LogUnknownStream sid) w) []) in HI.
  - apply (Inv_same_heap _ (set_activeCalls (delete (stop_streamSid stopData))
      (add_console (LogCallEnded (stop_callSid stopData)) w)) []) in HI;
      [done|done| |done|done].
    simpl. intros sid r. rewrite lookup_delete_Some. by intros [_ ?].
  - rewrite app_nil_r.
    apply (Inv_touch _ session) with (1 := HI); simpl.
    + by apply touches_alter.
    + rewrite lookup_alter_eq. intros s'.
      destruct (heap w !! session) as [s|] eqn:Hs; simpl; [|done].
      intros [= <-]. simpl. by apply (inv_runs _ HI).
    + done.
    + eapply tasks_ok_mono; [|apply (inv_tasks _ HI)]. simpl.
      by rewrite dom_alter_L.
  - rewrite app_nil_r.
    apply (Inv_touch _ session) with (1 := HI); simpl.
    + apply touches_flushed.
    + rewrite !lookup_alter_eq. intros s'.
      destruct (heap w !! session) as [s|] eqn:Hs; simpl; [|done].
      intros [= <-]. simpl. by apply (inv_runs _ HI).
    + done.
    + eapply tasks_ok_mono; [|apply (inv_tasks _ HI)]. simpl.
      by rewrite !dom_alter_L.
  - destruct (inv_registry _ HI _ _ Hsid) as (s & Hs & _). simpl in Hs.
    assert (Hidle : isProcessing s = false)
      by (by rewrite <- (busy_lookup w session s Hs)).
    apply (Inv_touch _ session) with (1 := HI); simpl.
    + constructor; simpl; [done|by rewrite !dom_alter_L| |].
      * intros r Hr. by rewrite !lookup_alter_ne.
      * unfold deref. simpl. rewrite !lookup_alter_eq, Hs. done.
    + rewrite !lookup_alter_eq, Hs. simpl. intros s' [= <-]. simpl.
      pose proof (inv_runs _ HI session s Hs) as Hcount. simpl in Hcount.
      rewrite active_runs_app, Hcount, Hidle. simpl.
      unfold runs_on. simpl. by rewrite bool_decide_eq_true_2.
    + intros r Hr. rewrite active_runs_app. simpl. unfold runs_on. simpl.
      rewrite bool_decide_eq_false_2 by done. lia.
    + apply Forall_app. split.
      * eapply tasks_ok_mono; [|apply (inv_tasks _ HI)]. simpl.
        by rewrite !dom_alter_L.
      * apply Forall_singleton. unfold task_ok. simpl. split; [|done].
        rewrite !dom_alter_L. by eapply elem_of_dom_2.
  - by apply (Inv_registers w).
  - apply (Inv_same_heap _ (add_console l w)) with (1 := HI); simpl;
      [done|done| |done].
    apply Forall_singleton. unfold task_ok. simpl. done.
Qed.

Lemma Inv_drop_handler (sys : System) (i : nat) (t : Task) :
  Inv sys → sys_tasks sys !! i = Some t → task_owner t = Handler →
  Inv {| sys_world := sys_world sys; sys_tasks := delete i (sys_tasks sys) |}.
Proof.
  intros [Hruns Htasks Hreg] Hi Ht. constructor; simpl; [|by apply Forall_delete|done].
  intros r s Hs. rewrite <- (Hruns r s Hs).
  rewrite (active_runs_delete r _ i t Hi). unfold runs_on. by rewrite Ht.
Qed.

Lemma active_runs_replace (r : ref) (ts : list Task) (i : nat) (t t' : Task) :
  ts !! i = Some t → task_owner t' = task_owner t →
  active_runs r (delete i ts ++ [t']) = active_runs r ts.
Proof.
  intros Hi Ht. rewrite active_runs_app, (active_runs_delete r ts i t Hi).
  simpl. unfold runs_on. rewrite Ht. lia.
Qed.

Lemma Inv_settle (sys : System) (i : nat) (answer : Answer) (t : Task) :
  Inv sys → sys_tasks sys !! i = Some t →
  let r := task_k t (answer _ (task_call t)) (sys_world sys) in
  Inv {| sys_world := (park (task_owner t) r).1;
         sys_tasks := delete i (sys_tasks sys) ++ (park (task_owner t) r).2 |}.
Proof.
  intros HI Hi r.
  pose proof (Forall_lookup_1 _ _ _ _ (inv_tasks _ HI) Hi) as Hok.
  unfold task_ok in Hok.
  destruct (task_owner t) as [|[session|session audio]] eqn:Howner.
  - (* the handler of a start, after the campaign lookup *)
    apply (Inv_registers (sys_world sys)); [|apply Hok].
    by apply (Inv_drop_handler sys i t).
  - (* a greeting *)
    specialize (Hok (answer _ (task_call t)) (sys_world sys)). fold r in Hok.
    unfold greeting_run in Hok.
    destruct r as [[] w'|e w'|X c k w'|]; simpl in Hok; [|done| |done]; simpl.
    + destruct Hok as [[Hq Hb] _]. rewrite app_nil_r.
      apply (Inv_touch _ session) with (1 := HI).
      * by apply quiet_touches.
      * intros s' Hs'.
        destruct (touches_lookup _ _ _ _ (quiet_touches _ _ _ Hq) Hs')
          as (s & Hs & _).
        rewrite (busy_lookup _ _ _ Hs), (busy_lookup _ _ _ Hs') in Hb.
        rewrite Hb, <- (inv_runs _ HI session s Hs).
        rewrite (active_runs_delete session _ i t Hi).
        unfold runs_on at 1. by rewrite Howner.
      * intros r _. rewrite (active_runs_delete r (sys_tasks sys) i t Hi).
        unfold runs_on at 1. by rewrite Howner.
      * apply Forall_delete. eapply tasks_ok_mono; [|apply (inv_tasks _ HI)].
        by rewrite (quiet_dom _ _ _ Hq).
    + destruct Hok as ([Hq Hb] & _ & Hk).
      apply (Inv_touch _ session) with (1 := HI).
      * by apply quiet_touches.
      * intros s' Hs'.
        destruct (touches_lookup _ _ _ _ (quiet_touches _ _ _ Hq) Hs')
          as (s & Hs & _).
        rewrite (busy_lookup _ _ _ Hs), (busy_lookup _ _ _ Hs') in Hb.
        rewrite Hb, (active_runs_replace session _ i t) by done.
        by apply (inv_runs _ HI).
      * intros r _. by rewrite (active_runs_replace r _ i t).
      * apply Forall_app. split.
        -- apply Forall_delete.
           eapply tasks_ok_mono; [|apply (inv_tasks _ HI)].
           by rewrite (quiet_dom _ _ _ Hq).
        -- apply Forall_singleton. unfold task_ok. simpl. intros o w1.
           by apply Hk.
  - (* a pipeline run *)
    destruct Hok as [Hin Hok].
    apply elem_of_dom in Hin as [s Hs].
    assert (Hbusy : isProcessing s = true).
    { pose proof (inv_runs _ HI session s Hs) as Hcount.
      rewrite (active_runs_delete session _ i t Hi) in Hcount.
      unfold runs_on at 1 in Hcount. rewrite Howner in Hcount.
      rewrite bool_decide_eq_true_2 in Hcount by done.
      by destruct (isProcessing s). }
    assert (Hrest : active_runs session (delete i (sys_tasks sys)) = 0).
    { pose proof (inv_runs _ HI session s Hs) as Hcount.
      rewrite (active_runs_delete session _ i t Hi), Hbusy in Hcount.
      unfold runs_on at 1 in Hcount. rewrite Howner in Hcount.
      rewrite bool_decide_eq_true_2 in Hcount by done. lia. }
    specialize (Hok (answer _ (task_call t)) (sys_world sys)). fold r in Hok.
    rewrite (busy_lookup _ _ _ Hs) in Hok. specialize (Hok Hbusy).
    unfold pipeline_run in Hok.
    destruct r as [[] w'|e w'|X c k w'|]; simpl in Hok; [|done| |done]; simpl.
    + destruct Hok as [Hq Hb]. rewrite app_nil_r.
      apply (Inv_touch _ session) with (1 := HI).
      * by apply quiet_touches.
      * intros s' Hs'. rewrite (busy_lookup _ _ _ Hs') in Hb.
        by rewrite Hb, Hrest.
      * intros r Hr. rewrite (active_runs_delete r (sys_tasks sys) i t Hi).
        unfold runs_on at 1. rewrite Howner.
        by rewrite bool_decide_eq_false_2.
      * apply Forall_delete. eapply tasks_ok_mono; [|apply (inv_tasks _ HI)].
        by rewrite (quiet_dom _ _ _ Hq).
    + destruct Hok as (Hq & Hb & Hk).
      apply (Inv_touch _ session) with (1 := HI).
      * by apply quiet_touches.
      * intros s' Hs'. rewrite (busy_lookup _ _ _ Hs') in Hb.
        rewrite Hb, (active_runs_replace session _ i t) by done.
        by rewrite (inv_runs _ HI session s Hs), Hbusy.
      * intros r _. by rewrite (active_runs_replace r _ i t).
      * apply Forall_app. split.
        -- apply Forall_delete.
           eapply tasks_ok_mono; [|apply (inv_tasks _ HI)].
           by rewrite (quiet_dom _ _ _ Hq).
        -- apply Forall_singleton. unfold task_ok. simpl. split.
           ++ rewrite (quiet_dom _ _ _ Hq). by eapply elem_of_dom_2.
           ++ done.
Qed.

Lemma Inv_init : Inv init.
Proof.
  constructor; simpl.
  - intros session s. by rewrite lookup_empty.
  - constructor.
  - intros sid session. by rewrite lookup_empty.
Qed.

Lemma Inv_step (sys : System) (a : Action) : Inv sys → Inv (step sys a).
Proof.
  intros HI. destruct a as [connection q message|i answer|connection]; simpl.
  - destruct sys as [w ts]. simpl.
    pose proof (Inv_handled w ts (on_message connection q message w) HI
      (on_message_handled connection q message w (inv_registry _ HI))) as H.
    by destruct (park Handler (on_message connection q message w)).
  - destruct (sys_tasks sys !! i) as [t|] eqn:Hi; [|done].
    pose proof (Inv_settle sys i answer t HI Hi) as H. simpl in H.
    by destruct (park (task_owner t)
      (task_k t (answer _ (task_call t)) (sys_world sys))).
  - apply (Inv_same_heap sys (set_broken (union {[connection]}) (sys_world sys))
      []) in HI; try done.
    by rewrite app_nil_r in HI.
Qed.

Lemma run_snoc (sys : System) (actions : list Action) (a : Action) :
  run sys (actions ++ [a]) = step (run sys actions) a.
Proof. unfold run. by rewrite foldl_snoc. Qed.

Lemma run_app (sys : System) (actions actions' : list Action) :
  run sys (actions ++ actions') = run (run sys actions) actions'.
Proof. unfold run. by rewrite foldl_app. Qed.

Lemma Inv_run (sys : System) (actions : list Action) :
  Inv sys → Inv (run sys actions).
Proof.
  intros HI. induction actions as [|a actions IH] using rev_ind; [done|].
  rewrite run_snoc. by apply Inv_step.
Qed.

Lemma reachable_Inv (sys : System) : reachable sys → Inv sys.
Proof. intros [actions ->]. apply Inv_run, Inv_init. Qed.

(** ** C1: the busy guard *)

Lemma pipeline_guarded (session : ref) (audio : Buffer) (w : World)
  (s : CallSession) (answer : Answer) (resumes : list World) :
  heap w !! session = Some s → isProcessing s = false →
  Forall (λ w', busy w' session = true) resumes →
  guarded session resumes
    (finish answer resumes (processAudioPipeline session audio w)).
Proof.
  intros Hs Hidle Hres. unfold guarded, processAudioPipeline.
  cbn. unfold deref at 1. rewrite Hs. simpl. rewrite Hidle. cbn.
  destruct Hres as [|w1 resumes H1 Hres]; cbn; [split; [session_facts|lia]|].
  destruct (answer _ (MulawToWav audio)) as [wav|e]; cbn; [|session_facts].
  destruct Hres as [|w2 resumes H2 Hres]; cbn; [split; [done|lia]|].
  destruct (answer _ (TranscriptionsCreate wav)) as [text|e]; cbn;
    [|session_facts].
  destruct (truthy (trim text)); cbn; [|session_facts].
  destruct Hres as [|w3 resumes H3 Hres]; cbn;
    [split; [session_facts|lia]|].
  destruct (answer _ (ChatCompletionsCreate _)) as [reply|e]; cbn;
    [|session_facts].
  destruct Hres as [|w4 resumes H4 Hres]; cbn;
    [split; [session_facts|lia]|].
  destruct (answer _ (FetchTextToSpeech _ _)) as [resp|e]; cbn;
    [|session_facts].
  destruct (ok resp); cbn.
  - destruct Hres as [|w5 resumes H5 Hres]; cbn; [split; [done|lia]|].
    destruct (answer _ (ResponseArrayBuffer resp)) as [mp3|e]; cbn;
      [|session_facts].
    destruct Hres as [|w6 resumes H6 Hres]; cbn; [split; [done|lia]|].
    destruct (answer _ (Mp3ToMulaw mp3)) as [mulaw|e]; cbn; [|session_facts].
    unfold socket_send. case_bool_decide; cbn; session_facts.
  - destruct Hres as [|w5 resumes H5 Hres]; cbn; [split; [done|lia]|].
    destruct (answer _ (ResponseText resp)) as [errText|e]; cbn; session_facts.
Qed.

(** C1. In every reachable state of the event loop and for every session
    object: the number of pipeline runs in flight on the session is one
    when its [isProcessing] flag is true and zero when it is false, so
    there is never more than one; a call of [processAudioPipeline] while
    the flag is true returns at once and enters no run; and a run entered
    while the flag is false keeps the flag true at every suspension and
    has reset it when it returns, whatever its awaited calls settle to
    (success, empty transcript, or the failure of any stage); it returns
    after at most six resumptions and never throws. *)
Theorem C1_busy_guard_spans_the_run (sys : System) (session : ref)
  (s : CallSession) :
  reachable sys →
  heap (sys_world sys) !! session = Some s →
  active_runs session (sys_tasks sys) = (if isProcessing s then 1 else 0)
  ∧ active_runs session (sys_tasks sys) ≤ 1
  ∧ (isProcessing s = true → ∀ audio,
       processAudioPipeline session audio (sys_world sys)
       = RetR tt (sys_world sys))
  ∧ (isProcessing s = false → ∀ audio answer resumes,
       Forall (λ w', busy w' session = true) resumes →
       guarded session resumes
         (finish answer resumes
            (processAudioPipeline session audio (sys_world sys)))).
Proof.
  intros Hreach Hs.
  pose proof (inv_runs _ (reachable_Inv sys Hreach) session s Hs) as Hruns.
  split; [done|]. split; [rewrite Hruns; destruct (isProcessing s); lia|].
  split.
  - intros Hbusy audio. apply pipeline_busy. by rewrite (busy_lookup _ _ s).
  - intros Hidle audio answer resumes Hres. by eapply pipeline_guarded.
Qed.

(** ** C5, C2, C10: what a single run does, segment by segment *)

Lemma history_push (session : ref) (m : ChatMessage) (w : World) :
  is_Some (heap w !! session) →
  history (set_heap (alter (λ s, with_conversationHistory
    (conversationHistory s ++ [m]) s) session) w) session
  = history w session ++ [m].
Proof.
  intros [s Hs]. unfold history, deref. simpl.
  by rewrite lookup_alter_eq, Hs.
Qed.

Lemma history_flag (session : ref) (b : bool) (w : World) :
  history (set_heap (alter (with_isProcessing b) session) w) session
  = history w session.
Proof.
  unfold history, deref. simpl. rewrite lookup_alter_eq.
  by destruct (heap w !! session).
Qed.

Lemma history_console (session : ref) (l : LogEntry) (w : World) :
  history (add_console l w) session = history w session.
Proof. done. Qed.

Lemma history_outbox (session : ref) (m : Socket * OutMsg) (w : World) :
  history (add_outbox m w) session = history w session.
Proof. done. Qed.

Lemma is_Some_alter (session : ref) (f : CallSession → CallSession) (w : World) :
  is_Some (heap w !! session) →
  is_Some (heap (set_heap (alter f session) w) !! session).
Proof. intros [s Hs]. simpl. rewrite lookup_alter_eq, Hs. by eexists. Qed.

(** Proves that a list of explicit segments append the stated turns and
    send nothing. *)
Ltac seg_tac :=
  unfold appended, silent; simpl;
  rewrite ?history_flag, ?history_console, ?history_outbox;
  rewrite ?history_push by (try apply is_Some_alter; done);
  rewrite ?history_flag, ?history_console, ?history_outbox;
  rewrite ?app_nil_r; done.

Ltac segs_tac :=
  repeat first
    [ apply List.Forall_nil | apply List.Forall2_nil
    | apply Forall_cons; split; [first [split; seg_tac | seg_tac]|]
    | apply Forall2_cons; split; [seg_tac|] ].

(** C5. In every pipeline run whose transcription is empty or consists
    of whitespace only, no segment of the run changes the conversation
    history or sends anything, the only calls awaited are the decoding
    and the transcription (so neither the conversational nor the
    synthesis engine is called), and once the transcription has settled
    the run has returned with [isProcessing] reset to false. *)
Theorem C5_empty_transcript_exits_quietly (session : ref) (audio : Buffer)
  (w : World) (answer : Answer) (resumes : list World)
  (wav : Buffer) (text : jsstring) :
  busy w session = false →
  answer _ (MulawToWav audio) = Resolved wav →
  answer _ (TranscriptionsCreate wav) = Resolved text →
  forallb is_js_whitespace text = true →
  let r := processAudioPipeline session audio w in
  Forall (λ seg, appended session seg [] ∧ silent seg)
    (segments answer resumes w r)
  ∧ requests answer resumes r
      `prefix_of` [Req (MulawToWav audio); Req (TranscriptionsCreate wav)]
  ∧ (2 ≤ length resumes →
     ∃ w', finish answer resumes r = RetR tt w' ∧ busy w' session = false).
Proof.
  intros Hidle Hwav Htext Hws r. subst r.
  apply trim_whitespace in Hws.
  unfold processAudioPipeline. cbn.
  unfold busy in Hidle. rewrite Hidle. cbn.
  destruct resumes as [|w1 resumes]; cbn.
  { split; [segs_tac|].
    split; [by exists [Req (TranscriptionsCreate wav)]|]. simpl; lia. }
  rewrite Hwav. cbn.
  destruct resumes as [|w2 resumes]; cbn.
  { split; [segs_tac|]. split; [by exists []|]. simpl; lia. }
  rewrite Htext. cbn. rewrite Hws. cbn.
  split; [segs_tac|]. split; [by exists []|].
  intros _. eexists. split; [done|]. session_facts.
Qed.

(** C2 (amended). In every pipeline run in which the synthesis engine
    answers with a non-success status, no segment of the run sends an
    outbound message, the run returns with [isProcessing] reset to false,
    and the run has appended to the conversation history the transcribed
    user turn and then the assistant turn of the reply: the reply is
    pushed before synthesis is requested and is not taken back. *)
Theorem C2_failed_synthesis_keeps_both_turns (session : ref) (audio : Buffer)
  (w : World) (answer : Answer) (resumes : list World)
  (wav : Buffer) (text : jsstring) (reply : option jsstring) (resp : Response) :
  busy w session = false →
  Forall (λ w', is_Some (heap w' !! session)) resumes →
  answer _ (MulawToWav audio) = Resolved wav →
  answer _ (TranscriptionsCreate wav) = Resolved text →
  truthy (trim text) = true →
  (∀ messages, answer _ (ChatCompletionsCreate messages) = Resolved reply) →
  (∀ voice t, answer _ (FetchTextToSpeech voice t) = Resolved resp) →
  ok resp = false →
  5 ≤ length resumes →
  let r := processAudioPipeline session audio w in
  Forall silent (segments answer resumes w r)
  ∧ (∃ w', finish answer resumes r = RetR tt w' ∧ busy w' session = false)
  ∧ Forall2 (appended session) (segments answer resumes w r)
      [ []; [];
        [ {| role := user; content := trim text |} ];
        [ {| role := assistant; content := default [] reply |} ];
        []; [] ].
Proof.
  intros Hidle Hres Hwav Htext Hsaid Hreply Hresp Hok Hlen r. subst r.
  unfold processAudioPipeline. cbn.
  unfold busy in Hidle. rewrite Hidle. cbn.
  destruct resumes as [|w1 [|w2 [|w3 [|w4 [|w5 resumes]]]]];
    simpl in Hlen; try lia.
  repeat (apply Forall_cons in Hres as [? Hres]).
  cbn. rewrite Hwav. cbn. rewrite Htext. cbn. rewrite Hsaid. cbn.
  rewrite Hreply. cbn. rewrite Hresp. cbn. rewrite Hok. cbn.
  split; [|split].
  - destruct (answer _ (ResponseText resp)); cbn; segs_tac.
  - destruct (answer _ (ResponseText resp)); cbn;
      (eexists; split; [done|session_facts]).
  - destruct (answer _ (ResponseText resp)); cbn; segs_tac.
Qed.

Ltac lookup_tac :=
  let i := fresh "i" in
  intros i ?;
  repeat (destruct i as [|i]; simpl; [intros [= <-]; seg_tac|]);
  done.

Ltac greeting_leaf :=
  split;
  [ lookup_tac
  | split;
    [ first [ by (simpl; lia) | by (intros _; eexists _, _, _) ]
    | split;
      [ segs_tac
      | split; [ done | first [ done | by (simpl; lia) ] ] ] ] ].

(** C10. In every run of [sendGreeting] whose chat completion settles,
    the segment resumed by it appends the greeting as an assistant turn
    and ends by requesting the synthesis of that text; if the synthesis
    request fails or the transport send fails, no other segment changes
    the history (the greeting turn stays), no segment sends an outbound
    message, the run never throws to its caller, and it has returned
    after at most four resumptions. *)
Theorem C10_greeting_turn_survives_failure (session : ref) (w : World)
  (answer : Answer) (resumes : list World) (reply : option jsstring) :
  Forall (λ w', is_Some (heap w' !! session)) resumes →
  (∀ messages, answer _ (ChatCompletionsCreate messages) = Resolved reply) →
  synthesis_fails answer ∨ send_fails session (resumes !! 3) →
  let greetingText := default greeting_fallback reply in
  let r := sendGreeting session w in
  (∀ i seg, segments answer resumes w r !! i = Some seg →
     appended session seg
       (if decide (i = 1)
        then [ {| role := assistant; content := greetingText |} ]
        else []))
  ∧ (1 ≤ length resumes → ∃ messages voice rest,
       requests answer resumes r =
       Req (ChatCompletionsCreate messages)
       :: Req (FetchTextToSpeech voice greetingText) :: rest)
  ∧ Forall silent (segments answer resumes w r)
  ∧ threw (finish answer resumes r) = false
  ∧ (4 ≤ length resumes → returned (finish answer resumes r) = true).
Proof.
  intros Hres Hreply Hfail greetingText r. subst r greetingText.
  unfold sendGreeting. cbn.
  destruct resumes as [|w1 resumes]; cbn; [greeting_leaf|].
  apply Forall_cons in Hres as [H1 Hres].
  rewrite Hreply. cbn.
  destruct resumes as [|w2 resumes]; cbn; [greeting_leaf|].
  apply Forall_cons in Hres as [H2 Hres].
  destruct (answer _ (FetchTextToSpeech _ _)) as [resp|e] eqn:Hfetch; cbn;
    [|greeting_leaf].
  destruct (ok resp) eqn:Hok; cbn.
  - (* the synthesis succeeded, so it is the send that fails *)
    destruct Hfail as [Hsyn|Hsend].
    { match type of Hfetch with
      | answer _ (FetchTextToSpeech ?v ?t) = _ => specialize (Hsyn v t)
      end.
      rewrite Hfetch in Hsyn. congruence. }
    destruct resumes as [|w3 resumes]; cbn; [greeting_leaf|].
    destruct (answer _ (ResponseArrayBuffer resp)) as [mp3|e]; cbn;
      [|greeting_leaf].
    destruct resumes as [|w4 resumes]; cbn; [greeting_leaf|].
    destruct (answer _ (Mp3ToMulaw mp3)) as [mulaw|e]; cbn; [|greeting_leaf].
    unfold socket_send. rewrite bool_decide_eq_true_2 by exact Hsend. cbn.
    greeting_leaf.
  - destruct resumes as [|w3 resumes]; cbn; [greeting_leaf|].
    destruct (answer _ (ResponseText resp)) as [errText|e]; cbn; greeting_leaf.
Qed.

(** ** C6, C7: what a start event does *)

Lemma start_event_eq : bool_decide (Some (lit "start") = Some (lit "start")) = true.
Proof. by apply bool_decide_eq_true_2. Qed.

(** C6. For every start event that carries no campaign selector, or
    whose campaign lookup fails or misses: the handler creates the session
    object with the default prompt and the default voice, registers it
    under the stream id, and calls [sendGreeting] exactly once, which
    is left waiting for a chat completion whose system message is that
    default prompt. *)
Theorem C6_start_without_campaign_uses_defaults (connection : Socket)
  (q : option jsstring) (d : Data) (startData : StartBody) (w : World)
  (answer : Answer) (resumes : list World) :
  data_event d = Some (lit "start") →
  data_start d = Some startData →
  truthy_opt q = false
  ∨ (resumes ≠ [] ∧ lookup_fails_or_misses answer q) →
  let base := registration_world q w resumes in
  let session := fresh (dom (heap base)) in
  ∃ k w',
    finish answer resumes (on_message connection q (Json (JObject d)) w)
    = Detach (InvGreeting session)
        (ChatCompletionsCreate
           [ {| role := system; content := default_prompt |};
             {| role := user; content := START_CALL |} ])
        k (RetR tt w')
    ∧ heap w' = <[session :=
        fresh_session connection startData default_prompt default_voice]>
        (heap base)
    ∧ activeCalls w' =
        <[start_streamSid startData := session]> (activeCalls base)
    ∧ invoked w' = invoked base ++ [InvGreeting session].
Proof.
  intros Hev Hstart Hq base session. subst base session.
  unfold registration_world, on_message. cbn.
  rewrite Hev, start_event_eq, Hstart. cbn.
  destruct (truthy_opt q) eqn:Htruthy; cbn.
  - destruct Hq as [|[Hres Hmiss]]; [done|].
    destruct resumes as [|w1 resumes]; [done|]. cbn.
    unfold lookup_fails_or_misses in Hmiss.
    destruct (answer _ (GetCampaignById (default [] q))) as [[row|]|e];
      [done|..]; cbn; unfold call_async;
      match goal with
      | |- context [sendGreeting ?r ?w1] =>
          destruct (greeting_first_call r w1) as (k & -> & _)
      end; cbn; unfold deref; simpl; rewrite lookup_insert_eq; simpl;
      by eexists _, _.
  - unfold call_async.
    match goal with
    | |- context [sendGreeting ?r ?w1] =>
        destruct (greeting_first_call r w1) as (k & -> & _)
    end.
    cbn. unfold deref. simpl. rewrite lookup_insert_eq. simpl.
    by eexists _, _.
Qed.

(** C7 (amended). For every start event whose stream id is already in
    the registry when the handler registers the session: the entry is
    replaced by a reference to the new session object, which is not the
    prior one; the prior session object itself is left as it was; and the
    handler logs nothing about this, every line it writes in that segment
    being the ordinary 'Call has started' line or a campaign-lookup
    error. *)
Theorem C7_duplicate_start_replaces_silently (connection : Socket)
  (q : option jsstring) (d : Data) (startData : StartBody) (w : World)
  (answer : Answer) (resumes : list World) (prior : ref) :
  data_event d = Some (lit "start") →
  data_start d = Some startData →
  (truthy_opt q = true → resumes ≠ []) →
  let base := registration_world q w resumes in
  activeCalls base !! start_streamSid startData = Some prior →
  prior ∈ dom (heap base) →
  let w' := world_of
    (finish answer resumes (on_message connection q (Json (JObject d)) w)) in
  let session := fresh (dom (heap base)) in
  session ≠ prior
  ∧ activeCalls w' !! start_streamSid startData = Some session
  ∧ (∃ prompt voice, heap w' !! session
       = Some (fresh_session connection startData prompt voice))
  ∧ heap w' !! prior = heap base !! prior
  ∧ ∃ lines, console w' = console base ++ lines
      ∧ Forall (λ l, l = LogCallStarted (start_callSid startData)
                     ∨ ∃ e, l = LogStartError e) lines.
Proof.
  intros Hev Hstart Hq base Hprior Hin w' session. subst w'.
  assert (Hne : session ≠ prior).
  { intros Heq. apply (is_fresh (dom (heap base))). fold session.
    by rewrite Heq. }
  split; [done|]. subst session base.
  unfold registration_world, on_message in *. cbn.
  rewrite Hev, start_event_eq, Hstart. cbn.
  destruct (truthy_opt q) eqn:Htruthy; cbn.
  - destruct resumes as [|w1 resumes]; [by destruct Hq|]. cbn in *.
    destruct (answer _ (GetCampaignById (default [] q))) as [row|e];
      cbn; unfold call_async;
      match goal with
      | |- context [sendGreeting ?r ?w1] =>
          destruct (greeting_first_call r w1) as (k & -> & _)
      end; cbn;
      (split; [by rewrite lookup_insert_eq|]);
      (split; [eexists _, _; by rewrite lookup_insert_eq|]);
      (split; [by rewrite lookup_insert_ne|]).
    + exists []. by rewrite app_nil_r.
    + exists [LogStartError e]. split; [done|].
      apply Forall_singleton. right. by eexists.
  - unfold call_async.
    match goal with
    | |- context [sendGreeting ?r ?w1] =>
        destruct (greeting_first_call r w1) as (k & -> & _)
    end.
    cbn.
    split; [by rewrite lookup_insert_eq|].
    split; [eexists _, _; by rewrite lookup_insert_eq|].
    split; [by rewrite lookup_insert_ne|].
    exists [LogCallStarted (start_callSid startData)]. split; [done|].
    apply Forall_singleton. by left.
Qed.

(** ** C9: unknown and malformed messages *)

Lemma on_message_unserved (connection : Socket) (q : option jsstring)
  (message : RawData) (o : option Err) (w : World) :
  unserved message = Some o →
  on_message connection q message w
  = match o with
    | None => RetR tt w
    | Some e => ThrowR e w
    end.
Proof.
  intros Hun. unfold unserved in Hun. unfold on_message.
  destruct message as [|[|d]]; cbn; simplify_eq; try done.
  repeat case_bool_decide; cbn.
  - destruct (data_start d); by simplify_eq.
  - destruct (data_media d); by simplify_eq.
  - destruct (data_stop d); by simplify_eq.
  - by simplify_eq.
Qed.

(** C9 (amended). A message that carries an unknown event type is
    ignored: the handler returns normally, in the world it was called
    in, so that the step that delivers it changes nothing (no session
    object, no registry entry, no pending await).  It is not logged: the
    step writes nothing on the console.  And it raises no error: the
    step leaves no rejection behind, so it does not end the process. *)
Theorem C9_unknown_events_are_ignored (connection : Socket)
  (q : option jsstring) (d : Data) (sys : System) :
  unknown_event d →
  let a := Deliver connection q (Json (JObject d)) in
  on_message connection q (Json (JObject d)) (sys_world sys)
  = RetR tt (sys_world sys)
  ∧ step sys a = sys
  ∧ console_output sys (step sys a) = []
  ∧ ¬ exits sys a.
Proof.
  intros (Hstart & Hmedia & Hstop) a.
  assert (Hun : unserved (Json (JObject d)) = Some None).
  { unfold unserved. by rewrite !bool_decide_eq_false_2. }
  pose proof (on_message_unserved connection q _ None (sys_world sys) Hun)
    as Hmsg.
  assert (Hstep : step sys a = sys).
  { subst a. simpl step. rewrite Hmsg. simpl. rewrite app_nil_r.
    by destruct sys. }
  split; [done|]. split; [done|]. unfold exits, console_output.
  rewrite Hstep. split; [by rewrite drop_ge|]. by intros H.
Qed.

(** ** C8: lookups that miss *)

Lemma media_event_ne_start :
  bool_decide (Some (lit "media") = Some (lit "start")) = false.
Proof. by apply bool_decide_eq_false_2. Qed.

Lemma media_event_eq :
  bool_decide (Some (lit "media") = Some (lit "media")) = true.
Proof. by apply bool_decide_eq_true_2. Qed.


Lemma evolves_same (w w' : World) :
  dom (heap w') = dom (heap w) → activeCalls w' = activeCalls w →
  evolves w w'.
Proof. intros Hd Ha. split; [by rewrite Hd|]. rewrite Ha. auto. Qed.

Lemma quiet_evolves (session : ref) (w w' : World) :
  quiet session w w' → evolves w w'.
Proof. intros []. by apply evolves_same. Qed.

Lemma registers_evolves (o : Owner) (w : World) (r : Res unit) :
  registers w r → evolves w (park o r).1.
Proof.
  destruct r as [| | |[session|] X c k [[] w'| | |]]; try done.
  intros (-> & (conn & startData & prompt & voice & w0 & Hlog & ->) & _).
  assert (Hheap : heap w0 = heap w) by (by destruct Hlog as [->|[l ->]]).
  assert (Hcalls : activeCalls w0 = activeCalls w)
    by (by destruct Hlog as [->|[l ->]]).
  unfold evolves, registered. simpl. rewrite Hheap, Hcalls. split.
  - rewrite dom_insert_L. apply union_subseteq_r.
  - intros sid r. rewrite lookup_insert. case_decide.
    + intros [= <-]. right. apply is_fresh.
    + by left.
Qed.

Lemma handled_evolves (w : World) (r : Res unit) :
  handled w r → evolves w (park Handler r).1.
Proof.
  intros [|e|sid|stopData|sid session chunk Hsid Hlen
    |sid session chunk Hsid Hlen Hbusy|sid session chunk k Hsid Hlen Hbusy Hk
    |r' Hr|id l k Hk]; simpl;
    try (apply evolves_same; simpl; by rewrite ?dom_alter_L).
  - split; [done|]. simpl. intros sid' r'.
    rewrite lookup_delete_Some. intros [_ ?]. by left.
  - by apply registers_evolves.
Qed.

Lemma upholds_evolves (session : ref) (Seg : World → World → Prop)
  (Rely Waiting Final : World → Prop) (o : Owner) (w : World) (r : Res unit) :
  (∀ w0 w1, Seg w0 w1 → quiet session w0 w1) →
  upholds Seg Rely Waiting Final w r → evolves w (park o r).1.
Proof.
  intros Hseg.
  destruct r as [[] w'|e w'|X c k w'|]; simpl; try done.
  - intros [H _]. eapply quiet_evolves, Hseg, H.
  - intros [H _]. eapply quiet_evolves, Hseg, H.
Qed.

Lemma step_evolves (sys : System) (a : Action) :
  Inv sys → evolves (sys_world sys) (sys_world (step sys a)).
Proof.
  intros HI. destruct a as [connection q message|i answer|connection]; simpl.
  - pose proof (handled_evolves _ _ (on_message_handled connection q message
      (sys_world sys) (inv_registry _ HI))) as H.
    by destruct (park Handler
      (on_message connection q message (sys_world sys))).
  - destruct (sys_tasks sys !! i) as [t|] eqn:Hi; [|by apply evolves_same].
    pose proof (Forall_lookup_1 _ _ _ _ (inv_tasks _ HI) Hi) as Hok.
    pose proof (inv_runs _ HI) as Hruns.
    unfold task_ok in Hok.
    set (r := task_k t (answer _ (task_call t)) (sys_world sys)).
    assert (H : evolves (sys_world sys) (park (task_owner t) r).1);
      [|by destruct (park (task_owner t) r)].
    destruct (task_owner t) as [|[session|session audio]] eqn:Howner.
    + apply registers_evolves, Hok.
    + eapply (upholds_evolves session); [|apply Hok]. by intros ?? [].
    + destruct Hok as [[s Hs]%elem_of_dom Hok].
      eapply (upholds_evolves session); [|apply Hok]; [done|].
      rewrite (busy_lookup _ _ _ Hs).
      specialize (Hruns session s Hs).
      rewrite (active_runs_delete session _ i t Hi) in Hruns.
      unfold runs_on at 1 in Hruns. rewrite Howner in Hruns.
      rewrite bool_decide_eq_true_2 in Hruns by done.
      by destruct (isProcessing s).
  - by apply evolves_same.
Qed.



Lemma stop_event_ne_start :
  bool_decide (Some (lit "stop") = Some (lit "start")) = false.
Proof. by apply bool_decide_eq_false_2. Qed.

Lemma stop_event_ne_media :
  bool_decide (Some (lit "stop") = Some (lit "media")) = false.
Proof. by apply bool_decide_eq_false_2. Qed.

Lemma stop_event_eq :
  bool_decide (Some (lit "stop") = Some (lit "stop")) = true.
Proof. by apply bool_decide_eq_true_2. Qed.

Lemma on_message_stop (connection : Socket) (q : option jsstring)
  (d : Data) (stopData : StopBody) (w : World) :
  data_event d = Some (lit "stop") → data_stop d = Some stopData →
  on_message connection q (Json (JObject d)) w
  = RetR tt (set_activeCalls (delete (stop_streamSid stopData))
               (add_console (LogCallEnded (stop_callSid stopData)) w)).
Proof.
  intros Hev Hstop. unfold on_message. cbn.
  rewrite Hev, stop_event_ne_start, stop_event_ne_media, stop_event_eq.
  by rewrite Hstop.
Qed.

Lemma step_stop (connection : Socket) (q : option jsstring)
  (d : Data) (stopData : StopBody) (sys : System) :
  data_event d = Some (lit "stop") → data_stop d = Some stopData →
  step sys (Deliver connection q (Json (JObject d)))
  = {| sys_world := set_activeCalls (delete (stop_streamSid stopData))
         (add_console (LogCallEnded (stop_callSid stopData)) (sys_world sys));
       sys_tasks := sys_tasks sys |}.
Proof.
  intros Hev Hstop. simpl. rewrite (on_message_stop _ _ _ stopData) by done.
  simpl. by rewrite app_nil_r.
Qed.


(** ** C3, C4: the accumulator under interleaving *)

Lemma on_message_not_inbound (connection : Socket) (q : option jsstring)
  (d : Data) (m : MediaBody) (w : World) :
  data_event d = Some (lit "media") → data_media d = Some m →
  media_track m ≠ lit "inbound" →
  on_message connection q (Json (JObject d)) w = RetR tt w.
Proof.
  intros Hev Hm Htrack. unfold on_message. cbn.
  rewrite Hev, media_event_ne_start, media_event_eq, Hm. cbn.
  by rewrite bool_decide_eq_false_2.
Qed.

Lemma on_message_inbound (connection : Socket) (q : option jsstring)
  (d : Data) (m : MediaBody) (sid : jsstring) (session : ref)
  (s : CallSession) (w : World) :
  data_event d = Some (lit "media") → data_media d = Some m →
  media_track m = lit "inbound" → data_streamSid d = Some sid →
  activeCalls w !! sid = Some session → heap w !! session = Some s →
  let chunk := base64_decode (media_payload m) in
  let combinedAudio := concat (audioBuffer s ++ [chunk]) in
  on_message connection q (Json (JObject d)) w
  = if bool_decide (FLUSH_THRESHOLD ≤ length (audioBuffer s) + 1)
    then call_async (InvPipeline session combinedAudio)
           (processAudioPipeline session combinedAudio)
           (set_heap (alter (with_audioBuffer []) session)
              (set_heap (alter (push_chunk chunk) session) w))
    else RetR tt (set_heap (alter (push_chunk chunk) session) w).
Proof.
  intros Hev Hm Htrack Hsid Hreg Hs chunk combinedAudio.
  unfold on_message. cbn.
  rewrite Hev, media_event_ne_start, media_event_eq, Hm. cbn.
  rewrite bool_decide_eq_true_2 by done. cbn.
  rewrite Hsid. cbn. rewrite Hreg. cbn.
  unfold deref. simpl. rewrite lookup_alter_eq, Hs. simpl.
  rewrite length_app. simpl.
  by case_bool_decide.
Qed.

Lemma upholds_park (session : ref) (Seg : World → World → Prop)
  (Rely Waiting Final : World → Prop) (o : Owner) (w : World) (r : Res unit) :
  (∀ w0 w1, Seg w0 w1 → quiet session w0 w1) →
  upholds Seg Rely Waiting Final w r →
  quiet session w (park o r).1
  ∧ Forall (λ t, task_owner t = o) (park o r).2.
Proof.
  intros Hseg.
  destruct r as [[] w'|e w'|X c k w'|]; simpl; try done.
  - intros [H _]. split; [by apply Hseg|constructor].
  - intros [H _]. split; [by apply Hseg|]. by apply Forall_singleton.
Qed.

Lemma settle_quiet (sys : System) (i : nat) (t : Task) (o : Result (task_type t)) :
  Inv sys → sys_tasks sys !! i = Some t → is_handler t = false →
  let r := task_k t o (sys_world sys) in
  ∃ session,
    quiet session (sys_world sys) (park (task_owner t) r).1
    ∧ Forall (λ t', task_owner t' = task_owner t) (park (task_owner t) r).2.
Proof.
  intros HI Hi Hnot r.
  pose proof (Forall_lookup_1 _ _ _ _ (inv_tasks _ HI) Hi) as Hok.
  pose proof (inv_runs _ HI) as Hruns.
  unfold task_ok in Hok. unfold is_handler in Hnot.
  destruct (task_owner t) as [|[session|session audio]] eqn:Howner; [done|..];
    exists session.
  - eapply upholds_park; [|apply Hok]. by intros ?? [].
  - destruct Hok as [[s Hs]%elem_of_dom Hok].
    eapply upholds_park; [|apply Hok]; [done|].
    rewrite (busy_lookup _ _ _ Hs).
    specialize (Hruns session s Hs).
    rewrite (active_runs_delete session _ i t Hi) in Hruns.
    unfold runs_on at 1 in Hruns. rewrite Howner in Hruns.
    rewrite bool_decide_eq_true_2 in Hruns by done.
    by destruct (isProcessing s).
Qed.

Lemma quiet_buffered (session r : ref) (w w' : World) :
  quiet session w w' →
  audioBuffer (deref w' r) = audioBuffer (deref w r).
Proof.
  intros Hq. destruct (decide (r = session)) as [->|Hne].
  - apply (quiet_audio _ _ _ Hq).
  - unfold deref. by rewrite (quiet_other _ _ _ Hq).
Qed.

Lemma background_step (sid : jsstring) (session : ref) (sys : System)
  (a : Action) :
  serving sid session sys → background a = true →
  serving sid session (step sys a)
  ∧ buffered (step sys a) session = buffered sys session
  ∧ invoked (sys_world (step sys a)) = invoked (sys_world sys).
Proof.
  intros [HI Hno Hreg] Hbg.
  split; [|destruct a as [| i answer | connection]; [done|..]].
  - split; [by apply Inv_step| |].
    + destruct a as [| i answer | connection]; [done|..]; simpl; [|done].
      destruct (sys_tasks sys !! i) as [t|] eqn:Hi; [|done].
      pose proof (Forall_lookup_1 _ _ _ _ Hno Hi) as Hnot. simpl in Hnot.
      destruct (settle_quiet sys i t (answer _ (task_call t)) HI Hi Hnot)
        as (session' & _ & Hnew).
      destruct (park _ _) as [w' ts']. simpl in *.
      apply Forall_app. split; [by apply Forall_delete|].
      eapply Forall_impl; [done|]. simpl. intros t' Ht'.
      unfold is_handler in *. by rewrite Ht'.
    + destruct a as [| i answer | connection]; [done|..]; simpl; [|done].
      destruct (sys_tasks sys !! i) as [t|] eqn:Hi; [|done].
      pose proof (Forall_lookup_1 _ _ _ _ Hno Hi) as Hnot. simpl in Hnot.
      destruct (settle_quiet sys i t (answer _ (task_call t)) HI Hi Hnot)
        as (session' & Hq & _).
      destruct (park _ _) as [w' ts']. simpl in *.
      by rewrite (quiet_activeCalls _ _ _ Hq).
  - unfold buffered. simpl.
    destruct (sys_tasks sys !! i) as [t|] eqn:Hi; [|done].
    pose proof (Forall_lookup_1 _ _ _ _ Hno Hi) as Hnot. simpl in Hnot.
    destruct (settle_quiet sys i t (answer _ (task_call t)) HI Hi Hnot)
      as (session' & Hq & _).
    destruct (park _ _) as [w' ts']. simpl in *.
    split; [by eapply quiet_buffered|apply (quiet_invoked _ _ _ Hq)].
  - done.
Qed.

Lemma media_for_Some (sid : jsstring) (a : Action) (m : MediaBody) :
  media_for sid a = Some m →
  ∃ connection q d, a = Deliver connection q (Json (JObject d))
    ∧ data_event d = Some (lit "media") ∧ data_streamSid d = Some sid
    ∧ data_media d = Some m.
Proof.
  destruct a as [connection q [|[|d]]| |]; simpl; try done.
  case_bool_decide as H; [|done]. destruct H. intros Hm.
  by exists connection, q, d.
Qed.

Lemma step_inbound (connection : Socket) (q : option jsstring)
  (d : Data) (m : MediaBody) (sid : jsstring) (session : ref)
  (s : CallSession) (sys : System) :
  data_event d = Some (lit "media") → data_media d = Some m →
  media_track m = lit "inbound" → data_streamSid d = Some sid →
  activeCalls (sys_world sys) !! sid = Some session →
  heap (sys_world sys) !! session = Some s →
  let chunk := base64_decode (media_payload m) in
  ∃ w' ts',
    step sys (Deliver connection q (Json (JObject d)))
    = {| sys_world := w'; sys_tasks := sys_tasks sys ++ ts' |}
    ∧ Forall (λ t, is_handler t = false) ts'
    ∧ activeCalls w' = activeCalls (sys_world sys)
    ∧ if bool_decide (FLUSH_THRESHOLD ≤ length (audioBuffer s) + 1) then
        audioBuffer (deref w' session) = []
        ∧ invoked w' = invoked (sys_world sys)
            ++ [InvPipeline session (concat (audioBuffer s ++ [chunk]))]
      else
        audioBuffer (deref w' session) = audioBuffer s ++ [chunk]
        ∧ invoked w' = invoked (sys_world sys).
Proof.
  intros Hev Hmedia Htrack Hsid Hreg Hs chunk.
  pose proof (on_message_inbound connection q d m sid session s
    (sys_world sys) Hev Hmedia Htrack Hsid Hreg Hs) as Heq.
  simpl in Heq. simpl step. rewrite Heq. clear Heq. fold chunk.
  case_bool_decide as Hthr.
  - unfold call_async.
    match goal with
    | |- context [processAudioPipeline _ _ ?w2] =>
        assert (Hbusy : busy w2 session = isProcessing s)
          by (unfold busy, deref; simpl; by rewrite !lookup_alter_eq, Hs)
    end.
    destruct (isProcessing s) eqn:Hflag.
    + rewrite pipeline_busy by done. cbn.
      eexists _, []. split; [done|]. split; [constructor|].
      split; [done|]. split; [|done].
      unfold deref. simpl. by rewrite !lookup_alter_eq, Hs.
    + match goal with
      | |- context [processAudioPipeline ?r ?au ?w2] =>
          destruct (pipeline_idle r au w2 Hbusy) as (k & Hk & _)
      end.
      rewrite Hk. cbn.
      eexists _, [_]. split; [done|]. split; [by apply Forall_singleton|].
      split; [done|]. split; [|done].
      unfold deref. simpl. by rewrite !lookup_alter_eq, Hs.
  - simpl. eexists _, []. split; [done|]. split; [constructor|].
    split; [done|]. split; [|done].
    unfold deref. simpl. by rewrite !lookup_alter_eq, Hs.
Qed.

Lemma frame_step (sid : jsstring) (session : ref) (sys : System)
  (a : Action) (m : MediaBody) :
  serving sid session sys → media_for sid a = Some m →
  serving sid session (step sys a)
  ∧ frame_effect session m sys (step sys a).
Proof.
  intros [HI Hno Hreg] Hm.
  destruct (media_for_Some sid a m Hm)
    as (connection & q & d & -> & Hev & Hsid & Hmedia).
  destruct (inv_registry _ HI _ _ Hreg) as (s & Hs & _).
  pose proof (Inv_step sys (Deliver connection q (Json (JObject d))) HI) as HI'.
  unfold frame_effect, buffered.
  case_bool_decide as Htrack.
  - destruct (step_inbound connection q d m sid session s sys
      Hev Hmedia Htrack Hsid Hreg Hs) as (w' & ts' & Heq & Hts' & Hcalls & Heff).
    assert (Hd : deref (sys_world sys) session = s)
      by (unfold deref; by rewrite Hs).
    rewrite Heq in *. simpl. rewrite Hd.
    split; [|done].
    split; [done|by apply Forall_app|]. simpl. by rewrite Hcalls.
  - assert (Heq : step sys (Deliver connection q (Json (JObject d))) = sys).
    { simpl step. rewrite (on_message_not_inbound _ _ _ m) by done. simpl.
      rewrite app_nil_r. by destruct sys. }
    by rewrite Heq.
Qed.

Lemma pipeline_calls_snoc (w w' : World) (i : Invocation) (ts ts' : list Task) :
  invoked w' = invoked w ++ [i] → is_pipeline_call i = true →
  pipeline_calls {| sys_world := w'; sys_tasks := ts' |}
  = S (pipeline_calls {| sys_world := w; sys_tasks := ts |}).
Proof.
  intros Heq Hi. unfold pipeline_calls. simpl.
  rewrite Heq, List.filter_app, length_app. simpl. rewrite Hi. simpl. lia.
Qed.

(** One step of a feed: what it does to the buffer of the session and to
    the calls of the pipeline. *)
Lemma feed_step (sid : jsstring) (session : ref) (sys : System) (a : Action) :
  serving sid session sys →
  background a = true ∨ is_Some (media_for sid a) →
  serving sid session (step sys a)
  ∧ if inbound_for sid a then
      if bool_decide (FLUSH_THRESHOLD ≤ length (buffered sys session) + 1) then
        buffered (step sys a) session = []
        ∧ (∃ blob, invoked (sys_world (step sys a))
             = invoked (sys_world sys) ++ [InvPipeline session blob])
        ∧ flushes sys a = true
      else
        length (buffered (step sys a) session)
          = S (length (buffered sys session))
        ∧ invoked (sys_world (step sys a)) = invoked (sys_world sys)
        ∧ flushes sys a = false
    else
      buffered (step sys a) session = buffered sys session
      ∧ invoked (sys_world (step sys a)) = invoked (sys_world sys)
      ∧ flushes sys a = false.
Proof.
  intros Hserv [Hbg|[m Hm]].
  - destruct (background_step sid session sys a Hserv Hbg) as (H & Hbuf & Hinv).
    split; [done|].
    assert (inbound_for sid a = false) as ->.
    { unfold inbound_for, media_for. by destruct a. }
    split; [done|]. split; [done|].
    unfold flushes, pipeline_calls. rewrite Hinv. by rewrite Nat.eqb_refl.
  - destruct (frame_step sid session sys a m Hserv Hm) as (H & Heff).
    split; [done|].
    unfold inbound_for. rewrite Hm. unfold frame_effect in Heff.
    case_bool_decide as Htrack.
    + case_bool_decide as Hthr.
      * destruct Heff as [Hbuf Hinv]. split; [done|]. split; [by eexists|].
        unfold flushes.
        destruct sys as [w ts], (step _ a) as [w' ts'].
        rewrite (pipeline_calls_snoc w w' _ ts ts' Hinv) by done.
        apply negb_true_iff, Nat.eqb_neq. lia.
      * destruct Heff as [Hbuf Hinv]. rewrite Hbuf, length_app. simpl.
        split; [lia|]. split; [done|].
        unfold flushes, pipeline_calls. rewrite Hinv.
        by rewrite Nat.eqb_refl.
    + rewrite Heff. split; [done|]. split; [done|].
      unfold flushes. rewrite Heff. by rewrite Nat.eqb_refl.
Qed.

Lemma feed_since_flush (sid : jsstring) (session : ref) (actions : list Action) :
  ∀ sys, serving sid session sys → feed sid actions →
    length (buffered (run sys actions) session)
    = since_flush sid sys (length (buffered sys session)) actions.
Proof.
  induction actions as [|a actions IH]; intros sys Hserv Hfeed; [done|].
  apply Forall_cons in Hfeed as [Ha Hfeed].
  destruct (feed_step sid session sys a Hserv Ha) as (Hserv' & Heff).
  change (run sys (a :: actions)) with (run (step sys a) actions).
  rewrite (IH _ Hserv' Hfeed). simpl. f_equal.
  destruct (inbound_for sid a).
  - case_bool_decide.
    + destruct Heff as (-> & _ & ->). done.
    + destruct Heff as (-> & _ & ->). done.
  - destruct Heff as (-> & _ & ->). done.
Qed.

Lemma feed_modulo (sid : jsstring) (session : ref) (actions : list Action) :
  ∀ sys, serving sid session sys → feed sid actions →
    length (buffered sys session) < FLUSH_THRESHOLD →
    length (buffered (run sys actions) session)
    = (length (buffered sys session) + inbound_frames sid actions)
        mod FLUSH_THRESHOLD.
Proof.
  induction actions as [|a actions IH]; intros sys Hserv Hfeed Hlt;
    cbn [inbound_frames].
  { rewrite Nat.add_0_r. by rewrite Nat.mod_small. }
  apply Forall_cons in Hfeed as [Ha Hfeed].
  destruct (feed_step sid session sys a Hserv Ha) as (Hserv' & Heff).
  change (run sys (a :: actions)) with (run (step sys a) actions).
  destruct (inbound_for sid a).
  - case_bool_decide as Hthr.
    + destruct Heff as (Hbuf & _ & _).
      rewrite (IH _ Hserv' Hfeed)
        by (rewrite Hbuf; unfold FLUSH_THRESHOLD; simpl; lia).
      rewrite Hbuf. cbn [length].
      replace (length (buffered sys session) + (1 + inbound_frames sid actions))
        with (inbound_frames sid actions + 1 * FLUSH_THRESHOLD)
        by (unfold FLUSH_THRESHOLD in *; lia).
      by rewrite Nat.Div0.mod_add.
    + destruct Heff as (Hbuf & _ & _).
      rewrite (IH _ Hserv' Hfeed) by lia.
      rewrite Hbuf. f_equal. lia.
  - destruct Heff as (Hbuf & _ & _).
    rewrite (IH _ Hserv' Hfeed) by (by rewrite Hbuf).
    rewrite Hbuf. f_equal.
Qed.

(** A feed that does not fill the buffer calls nothing. *)
Lemma feed_below (sid : jsstring) (session : ref) (actions : list Action) :
  ∀ sys, serving sid session sys → feed sid actions →
    length (buffered sys session) + inbound_frames sid actions
      < FLUSH_THRESHOLD →
    invoked (sys_world (run sys actions)) = invoked (sys_world sys).
Proof.
  unfold FLUSH_THRESHOLD.
  induction actions as [|a actions IH]; intros sys Hserv Hfeed Hlt; [done|].
  apply Forall_cons in Hfeed as [Ha Hfeed].
  destruct (feed_step sid session sys a Hserv Ha) as (Hserv' & Heff).
  change (run sys (a :: actions)) with (run (step sys a) actions).
  simpl in Hlt. unfold FLUSH_THRESHOLD in Heff.
  destruct (inbound_for sid a).
  - rewrite bool_decide_eq_false_2 in Heff by lia.
    destruct Heff as (Hbuf & Hinv & _).
    rewrite (IH _ Hserv' Hfeed) by lia. done.
  - destruct Heff as (Hbuf & Hinv & _).
    rewrite (IH _ Hserv' Hfeed) by (rewrite Hbuf; lia). done.
Qed.

(** A feed that fills the buffer exactly once calls the pipeline once. *)
Lemma feed_fill (sid : jsstring) (session : ref) (actions : list Action) :
  ∀ sys, serving sid session sys → feed sid actions →
    0 < inbound_frames sid actions →
    length (buffered sys session) + inbound_frames sid actions
      = FLUSH_THRESHOLD →
    ∃ blob, invoked (sys_world (run sys actions))
            = invoked (sys_world sys) ++ [InvPipeline session blob].
Proof.
  unfold FLUSH_THRESHOLD.
  induction actions as [|a actions IH]; intros sys Hserv Hfeed Hpos Hsum;
    [simpl in Hpos; lia|].
  apply Forall_cons in Hfeed as [Ha Hfeed].
  destruct (feed_step sid session sys a Hserv Ha) as (Hserv' & Heff).
  change (run sys (a :: actions)) with (run (step sys a) actions).
  simpl in Hpos, Hsum. unfold FLUSH_THRESHOLD in Heff.
  destruct (inbound_for sid a).
  - case_bool_decide as Hthr.
    + destruct Heff as (Hbuf & [blob Hinv] & _).
      exists blob. rewrite <- Hinv.
      apply (feed_below sid session); [done..|].
      rewrite Hbuf. unfold FLUSH_THRESHOLD. simpl. lia.
    + destruct Heff as (Hbuf & Hinv & _).
      rewrite <- Hinv. apply (IH _ Hserv' Hfeed); lia.
  - destruct Heff as (Hbuf & Hinv & _).
    rewrite <- Hinv, <- Hbuf in *. apply (IH _ Hserv' Hfeed); lia.
Qed.

(** C4. For any sequence of media events addressed to a stream id whose
    session is registered (with other steps of the event loop in between):
    the length of the session's audio buffer equals the number of
    inbound-track frames received since the last flush, or since the
    beginning if there was none, and it is the number of inbound frames
    modulo the threshold when the buffer was empty at the beginning; a
    frame whose track is not inbound is discarded and leaves the whole
    state as it was; and when an inbound frame fills the buffer to the
    threshold, [processAudioPipeline] is called with the concatenation of
    the buffered chunks in a world in which the buffer is already
    empty. *)
Theorem C4_buffer_counts_inbound_frames (sid : jsstring) (session : ref)
  (sys : System) (actions : list Action) :
  (reachable sys → no_pending_start sys →
   activeCalls (sys_world sys) !! sid = Some session →
   feed sid actions →
   length (buffered (run sys actions) session)
     = since_flush sid sys (length (buffered sys session)) actions
   ∧ (buffered sys session = [] →
      length (buffered (run sys actions) session)
        = inbound_frames sid actions mod FLUSH_THRESHOLD))
  ∧ (∀ connection q d m w,
     data_event d = Some (lit "media") → data_media d = Some m →
     media_track m ≠ lit "inbound" →
     on_message connection q (Json (JObject d)) w = RetR tt w
     ∧ step sys (Deliver connection q (Json (JObject d))) = sys)
  ∧ (∀ connection q d m w s,
     data_event d = Some (lit "media") → data_media d = Some m →
     media_track m = lit "inbound" → data_streamSid d = Some sid →
     activeCalls w !! sid = Some session → heap w !! session = Some s →
     FLUSH_THRESHOLD ≤ length (audioBuffer s) + 1 →
     let chunk := base64_decode (media_payload m) in
     let combinedAudio := concat (audioBuffer s ++ [chunk]) in
     let cleared := set_heap (alter (with_audioBuffer []) session)
                      (set_heap (alter (push_chunk chunk) session) w) in
     on_message connection q (Json (JObject d)) w
     = call_async (InvPipeline session combinedAudio)
         (processAudioPipeline session combinedAudio) cleared
     ∧ audioBuffer (deref cleared session) = []).
Proof.
  split; [|split].
  - intros Hreach Hno Hreg Hfeed.
    assert (Hserv : serving sid session sys)
      by (split; [by apply reachable_Inv|done..]).
    split; [by apply feed_since_flush|].
    intros Hempty.
    rewrite (feed_modulo sid session actions sys Hserv Hfeed);
      rewrite Hempty; [done|]. unfold FLUSH_THRESHOLD. simpl. lia.
  - intros connection q d m w Hev Hm Htrack.
    pose proof (on_message_not_inbound connection q d m) as H.
    split; [by apply H|]. simpl step. rewrite H by done. simpl.
    rewrite app_nil_r. by destruct sys.
  - intros connection q d m w s Hev Hm Htrack Hsid Hreg Hs Hthr
      chunk combinedAudio cleared.
    rewrite (on_message_inbound connection q d m sid session s w) by done.
    rewrite bool_decide_eq_true_2 by done. split; [done|].
    subst cleared. unfold deref. simpl. by rewrite !lookup_alter_eq, Hs.
Qed.

(** C3. For a registered session whose buffer is empty, a sequence of
    exactly 150 inbound-track media frames for its stream id followed by a
    stop event causes exactly one call of [processAudioPipeline] (for
    that session), whereas a sequence of exactly 149 such frames followed
    by a stop event causes none; in both cases the stop removes the
    session from the registry.  Steps of the event loop other than
    message arrivals may come in between. *)
Theorem C3_threshold_frames_then_stop (sid : jsstring) (session : ref)
  (sys : System) (frames : list Action)
  (connection : Socket) (q : option jsstring) (stop : Data)
  (stopData : StopBody) :
  reachable sys → no_pending_start sys →
  activeCalls (sys_world sys) !! sid = Some session →
  busy (sys_world sys) session = false →
  buffered sys session = [] →
  feed sid frames →
  data_event stop = Some (lit "stop") → data_stop stop = Some stopData →
  stop_streamSid stopData = sid →
  let final := run sys (frames ++ [Deliver connection q (Json (JObject stop))]) in
  (inbound_frames sid frames = 150 →
     (∃ blob, invoked (sys_world final)
              = invoked (sys_world sys) ++ [InvPipeline session blob])
     ∧ pipeline_calls final = S (pipeline_calls sys)
     ∧ activeCalls (sys_world final) !! sid = None)
  ∧ (inbound_frames sid frames = 149 →
     invoked (sys_world final) = invoked (sys_world sys)
     ∧ pipeline_calls final = pipeline_calls sys
     ∧ activeCalls (sys_world final) !! sid = None).
Proof.
  intros Hreach Hno Hreg _ Hempty Hfeed Hev Hstop <- final.
  assert (Hserv : serving (stop_streamSid stopData) session sys)
    by (split; [by apply reachable_Inv|done..]).
  subst final. rewrite run_snoc, (step_stop _ _ _ stopData) by done.
  split; intros Hn.
  - destruct (feed_fill _ session frames sys Hserv Hfeed) as [blob Hblob];
      [lia|rewrite Hempty, Hn; by unfold FLUSH_THRESHOLD|].
    split; [by exists blob|]. split; [|simpl; by rewrite lookup_delete_eq].
    destruct sys as [w ts]. by eapply pipeline_calls_snoc.
  - pose proof (feed_below _ session frames sys Hserv Hfeed) as Hinv.
    rewrite Hempty, Hn in Hinv. specialize (Hinv ltac:(unfold FLUSH_THRESHOLD; simpl; lia)).
    split; [done|]. split; [|simpl; by rewrite lookup_delete_eq].
    unfold pipeline_calls. simpl. by rewrite Hinv.
Qed.

(** ** Single runs: the chain of stages *)

Lemma history_alter_push (session : ref) (m : ChatMessage) (w : World) :
  is_Some (heap w !! session) →
  conversationHistory (deref (set_heap (alter (λ s, with_conversationHistory
    (conversationHistory s ++ [m]) s) session) w) session)
  = history w session ++ [m].
Proof. apply history_push. Qed.

(** X1. A pipeline run all of whose stages succeed awaits exactly six
    calls, each fed with the result of the one before: decoding of the
    blob, transcription of the decoded audio, chat completion over the
    system prompt and the history as it is when the transcript arrives
    (ended by the new user turn), synthesis of the reply with the voice of
    the session, reading of the response body, encoding.  It appends the
    user turn and then the assistant turn, sends nothing before the last
    segment and there exactly one message, on the socket and under the
    stream id that the session object has at that moment, carrying the
    encoded audio; and it returns with [isProcessing] reset. *)
Theorem X1_successful_run_answers_once (session : ref) (audio : Buffer)
  (w w1 w2 w3 w4 w5 w6 : World) (rest : list World) (answer : Answer)
  (wav : Buffer) (text : jsstring) (reply : option jsstring) (resp : Response)
  (mp3 mulaw : Buffer) :
  busy w session = false →
  is_Some (heap w2 !! session) → is_Some (heap w3 !! session) →
  answer _ (MulawToWav audio) = Resolved wav →
  answer _ (TranscriptionsCreate wav) = Resolved text →
  truthy (trim text) = true →
  (∀ messages, answer _ (ChatCompletionsCreate messages) = Resolved reply) →
  (∀ voice t, answer _ (FetchTextToSpeech voice t) = Resolved resp) →
  ok resp = true →
  answer _ (ResponseArrayBuffer resp) = Resolved mp3 →
  answer _ (Mp3ToMulaw mp3) = Resolved mulaw →
  socket (deref w6 session) ∉ broken w6 →
  let resumes := w1 :: w2 :: w3 :: w4 :: w5 :: w6 :: rest in
  let r := processAudioPipeline session audio w in
  requests answer resumes r =
    [ Req (MulawToWav audio);
      Req (TranscriptionsCreate wav);
      Req (ChatCompletionsCreate (chat_context w2 session (trim text)));
      Req (FetchTextToSpeech (campaignVoiceId (deref w3 session))
             (default [] reply));
      Req (ResponseArrayBuffer resp);
      Req (Mp3ToMulaw mp3) ]
  ∧ Forall2 (appended session) (segments answer resumes w r)
      [ []; [];
        [ {| role := user; content := trim text |} ];
        [ {| role := assistant; content := default [] reply |} ];
        []; []; [] ]
  ∧ Forall2 sends (segments answer resumes w r)
      [ []; []; []; []; []; []; [reply_to w6 session mulaw] ]
  ∧ ∃ w', finish answer resumes r = RetR tt w' ∧ busy w' session = false.
Proof.
  intros Hidle H2 H3 Hwav Htext Hsaid Hreply Hresp Hok Hmp3 Hmulaw Hsock
    resumes r. subst resumes r.
  unfold processAudioPipeline. cbn.
  unfold busy in Hidle. rewrite Hidle. cbn.
  rewrite Hwav. cbn. rewrite Htext. cbn. rewrite Hsaid. cbn.
  rewrite Hreply. cbn. rewrite Hresp. cbn. rewrite Hok. cbn.
  rewrite Hmp3. cbn. rewrite Hmulaw. cbn.
  unfold socket_send. rewrite bool_decide_eq_false_2 by exact Hsock. cbn.
  split; [|split; [|split]].
  - unfold chat_context. rewrite history_alter_push by done.
    destruct H2 as [s2 Hs2], H3 as [s3 Hs3].
    unfold deref. simpl. rewrite !lookup_alter_eq, Hs2, Hs3. done.
  - segs_tac.
  - unfold sends, reply_to. repeat (apply Forall2_cons; split; [simpl;
      by rewrite ?app_nil_r|]). apply List.Forall2_nil.
  - eexists. split; [done|]. session_facts.
Qed.


(** X2. A pipeline run whose audio never becomes a transcript (the
    decoding or the transcription is rejected) changes no history and
    sends nothing in any of its segments, calls neither the conversational
    nor the synthesis engine, and, once the rejection has arrived, has
    returned with [isProcessing] reset after writing the one line
    '[Pipeline error]' with that rejection: the caller's speech is lost
    without a trace in the conversation. *)
Theorem X2_untranscribed_audio_is_dropped (session : ref) (audio : Buffer)
  (w : World) (answer : Answer) (resumes : list World) (e : Err) :
  busy w session = false →
  no_transcript answer audio e →
  let r := processAudioPipeline session audio w in
  Forall (λ seg, appended session seg [] ∧ silent seg)
    (segments answer resumes w r)
  ∧ Forall (λ q, is_engine_call q = false) (requests answer resumes r)
  ∧ (2 ≤ length resumes →
     ∃ seg w', last (segments answer resumes w r) = Some seg
       ∧ logs seg [LogPipelineError e]
       ∧ finish answer resumes r = RetR tt w'
       ∧ seg.2 = w' ∧ busy w' session = false).
Proof.
  intros Hidle Hno r. subst r.
  unfold processAudioPipeline. cbn.
  unfold busy in Hidle. rewrite Hidle. cbn.
  destruct resumes as [|w1 resumes]; cbn.
  { split; [segs_tac|]. split; [by repeat constructor|]. simpl; lia. }
  destruct Hno as [Hwav|(wav & Hwav & Htext)]; rewrite Hwav; cbn.
  { split; [segs_tac|]. split; [by repeat constructor|].
    intros _. eexists _, _. split; [done|]. split; [done|].
    split; [done|]. split; [done|]. session_facts. }
  destruct resumes as [|w2 resumes]; cbn.
  { split; [segs_tac|]. split; [by repeat constructor|]. simpl; lia. }
  rewrite Htext. cbn.
  split; [segs_tac|]. split; [by repeat constructor|].
  intros _. eexists _, _. split; [done|]. split; [done|].
  split; [done|]. split; [done|]. session_facts.
Qed.

(** X3. A pipeline run whose chat completion is rejected keeps the user
    turn it has already pushed: the history ends with the transcribed
    user turn and no assistant turn follows it, the synthesis engine is
    not called, nothing is sent, and the run returns with [isProcessing]
    reset after logging the rejection. *)
Theorem X3_rejected_completion_keeps_user_turn (session : ref)
  (audio : Buffer) (w w1 w2 w3 : World) (rest : list World) (answer : Answer)
  (wav : Buffer) (text : jsstring) (e : Err) :
  busy w session = false →
  is_Some (heap w2 !! session) →
  answer _ (MulawToWav audio) = Resolved wav →
  answer _ (TranscriptionsCreate wav) = Resolved text →
  truthy (trim text) = true →
  (∀ messages, answer _ (ChatCompletionsCreate messages) = Rejected e) →
  let resumes := w1 :: w2 :: w3 :: rest in
  let r := processAudioPipeline session audio w in
  requests answer resumes r =
    [ Req (MulawToWav audio);
      Req (TranscriptionsCreate wav);
      Req (ChatCompletionsCreate (chat_context w2 session (trim text))) ]
  ∧ Forall2 (appended session) (segments answer resumes w r)
      [ []; []; [ {| role := user; content := trim text |} ]; [] ]
  ∧ Forall silent (segments answer resumes w r)
  ∧ Forall2 logs (segments answer resumes w r)
      [ []; []; [LogWhisper (trim text)]; [LogPipelineError e] ]
  ∧ ∃ w', finish answer resumes r = RetR tt w' ∧ busy w' session = false.
Proof.
  intros Hidle H2 Hwav Htext Hsaid Hreply resumes r. subst resumes r.
  unfold processAudioPipeline. cbn.
  unfold busy in Hidle. rewrite Hidle. cbn.
  rewrite Hwav. cbn. rewrite Htext. cbn. rewrite Hsaid. cbn.
  rewrite Hreply. cbn.
  split; [|split; [|split; [|split]]].
  - unfold chat_context. rewrite history_alter_push by done.
    destruct H2 as [s2 Hs2].
    unfold deref. simpl. rewrite !lookup_alter_eq, Hs2. done.
  - segs_tac.
  - segs_tac.
  - unfold logs. repeat (apply Forall2_cons; split; [simpl;
      by rewrite ?app_nil_r|]). apply List.Forall2_nil.
  - eexists. split; [done|]. session_facts.
Qed.

Ltac sends_leaf :=
  split;
  [ let i := fresh "i" in
    intros i ?;
    do 6 (destruct i as [|i]; simpl;
            [first [ done | intros [= <-] ?; by unfold silent ]|]);
    intros; lia
  | split;
    [ first [ done | intros ? [= <-]; first [ by left | right; by eexists ] ]
    | simpl; lia ] ].

(** X4. Whatever its awaited calls settle to and whatever happens while
    it is suspended, a pipeline run has at most seven segments, sends
    nothing in the first six, and in the seventh, the one resumed with
    the encoded audio after all six stages have succeeded, sends at most
    one message: a run never answers twice and never answers before the
    whole chain has succeeded. *)
Theorem X4_run_sends_last_and_once (session : ref) (audio : Buffer)
  (w : World) (answer : Answer) (resumes : list World) :
  let segs := segments answer resumes w
    (processAudioPipeline session audio w) in
  (∀ i seg, segs !! i = Some seg → i < 6 → silent seg)
  ∧ (∀ seg, segs !! 6 = Some seg → silent seg ∨ ∃ m, sends seg [m])
  ∧ length segs ≤ 7.
Proof.
  intros segs. subst segs. unfold processAudioPipeline. cbn.
  destruct (isProcessing (deref w session)); cbn; [sends_leaf|].
  destruct resumes as [|w1 resumes]; cbn; [sends_leaf|].
  destruct (answer _ (MulawToWav audio)) as [wav|e]; cbn; [|sends_leaf].
  destruct resumes as [|w2 resumes]; cbn; [sends_leaf|].
  destruct (answer _ (TranscriptionsCreate wav)) as [text|e]; cbn;
    [|sends_leaf].
  destruct (truthy (trim text)); cbn; [|sends_leaf].
  destruct resumes as [|w3 resumes]; cbn; [sends_leaf|].
  destruct (answer _ (ChatCompletionsCreate _)) as [reply|e]; cbn;
    [|sends_leaf].
  destruct resumes as [|w4 resumes]; cbn; [sends_leaf|].
  destruct (answer _ (FetchTextToSpeech _ _)) as [resp|e]; cbn;
    [|sends_leaf].
  destruct (ok resp); cbn.
  - destruct resumes as [|w5 resumes]; cbn; [sends_leaf|].
    destruct (answer _ (ResponseArrayBuffer resp)) as [mp3|e]; cbn;
      [|sends_leaf].
    destruct resumes as [|w6 resumes]; cbn; [sends_leaf|].
    destruct (answer _ (Mp3ToMulaw mp3)) as [mulaw|e]; cbn; [|sends_leaf].
    unfold socket_send. case_bool_decide; cbn; sends_leaf.
  - destruct resumes as [|w5 resumes]; cbn; [sends_leaf|].
    destruct (answer _ (ResponseText resp)) as [errText|e]; cbn; sends_leaf.
Qed.


(** X5. A greeting all of whose stages succeed awaits exactly four
    calls: the chat completion over the system prompt of the session and
    the fixed '[START_CALL]' instruction, the synthesis of the greeting
    (the model's text, or 'Ciao, come posso aiutarti?' when the completion
    has no content) with the voice of the session, the reading of the
    response body and the encoding.  It appends the greeting as an
    assistant turn, sends exactly one message, in its last segment, on the
    socket and under the stream id of the session, and never touches
    [isProcessing]. *)
Theorem X5_successful_greeting_speaks_once (session : ref)
  (w w1 w2 w3 w4 : World) (rest : list World) (answer : Answer)
  (reply : option jsstring) (resp : Response) (mp3 mulaw : Buffer) :
  is_Some (heap w1 !! session) →
  (∀ messages, answer _ (ChatCompletionsCreate messages) = Resolved reply) →
  (∀ voice t, answer _ (FetchTextToSpeech voice t) = Resolved resp) →
  ok resp = true →
  answer _ (ResponseArrayBuffer resp) = Resolved mp3 →
  answer _ (Mp3ToMulaw mp3) = Resolved mulaw →
  socket (deref w4 session) ∉ broken w4 →
  let greetingText := default greeting_fallback reply in
  let resumes := w1 :: w2 :: w3 :: w4 :: rest in
  let r := sendGreeting session w in
  requests answer resumes r =
    [ Req (ChatCompletionsCreate
        [ {| role := system; content := campaignPrompt (deref w session) |};
          {| role := user; content := START_CALL |} ]);
      Req (FetchTextToSpeech (campaignVoiceId (deref w1 session))
             greetingText);
      Req (ResponseArrayBuffer resp);
      Req (Mp3ToMulaw mp3) ]
  ∧ Forall2 (appended session) (segments answer resumes w r)
      [ []; [ {| role := assistant; content := greetingText |} ]; []; []; [] ]
  ∧ Forall2 sends (segments answer resumes w r)
      [ []; []; []; []; [reply_to w4 session mulaw] ]
  ∧ Forall (λ seg, busy seg.2 session = busy seg.1 session)
      (segments answer resumes w r)
  ∧ returned (finish answer resumes r) = true.
Proof.
  intros H1 Hreply Hresp Hok Hmp3 Hmulaw Hsock greetingText resumes r.
  subst greetingText resumes r.
  unfold sendGreeting. cbn.
  rewrite Hreply. cbn. rewrite Hresp. cbn. rewrite Hok. cbn.
  rewrite Hmp3. cbn. rewrite Hmulaw. cbn.
  unfold socket_send. rewrite bool_decide_eq_false_2 by exact Hsock. cbn.
  split; [|split; [|split; [|split]]].
  - destruct H1 as [s1 Hs1].
    unfold deref. simpl. rewrite !lookup_alter_eq, Hs1. done.
  - segs_tac.
  - unfold sends, reply_to. repeat (apply Forall2_cons; split; [simpl;
      by rewrite ?app_nil_r|]). apply List.Forall2_nil.
  - repeat (apply Forall_cons; split; [by session_facts|]).
    apply List.Forall_nil.
  - done.
Qed.

(** X6. A greeting whose chat completion is rejected says nothing: it
    appends no turn, calls no other engine, sends nothing, writes the one
    line '[Greeting error]' and returns normally; the call goes on
    without a greeting and with an empty history. *)
Theorem X6_rejected_greeting_is_skipped (session : ref) (w w1 : World)
  (rest : list World) (answer : Answer) (e : Err) :
  (∀ messages, answer _ (ChatCompletionsCreate messages) = Rejected e) →
  let resumes := w1 :: rest in
  let r := sendGreeting session w in
  requests answer resumes r =
    [ Req (ChatCompletionsCreate
        [ {| role := system; content := campaignPrompt (deref w session) |};
          {| role := user; content := START_CALL |} ]) ]
  ∧ Forall (λ seg, appended session seg [] ∧ silent seg)
      (segments answer resumes w r)
  ∧ Forall2 logs (segments answer resumes w r) [ []; [LogGreetingError e] ]
  ∧ finish answer resumes r = RetR tt (add_console (LogGreetingError e) w1).
Proof.
  intros Hreply resumes r. subst resumes r.
  unfold sendGreeting. cbn. rewrite Hreply. cbn.
  split; [done|]. split; [segs_tac|]. split; [|done].
  unfold logs. repeat (apply Forall2_cons; split; [simpl;
    by rewrite ?app_nil_r|]). apply List.Forall2_nil.
Qed.


(** ** What no step of the event loop undoes *)

Lemma trimStart_headed (s : jsstring) :
  match trimStart s with
  | [] => True
  | c :: _ => is_js_whitespace c = false
  end.
Proof.
  induction s as [|c s IH]; cbn; [done|].
  destruct (is_js_whitespace c) eqn:Hc; [done|]. exact Hc.
Qed.

Lemma trimStart_fixed (s : jsstring) :
  match s with
  | [] => True
  | c :: _ => is_js_whitespace c = false
  end →
  trimStart s = s.
Proof. destruct s as [|c s]; cbn; [done|]. by intros ->. Qed.

Lemma trim_idemp (s : jsstring) : trim (trim s) = trim s.
Proof.
  unfold trim.
  pose proof (trimStart_headed s) as Ht.
  set (t := trimStart s) in *.
  pose proof (trimStart_headed (rev t)) as Hu.
  destruct (trimStart_suffix (rev t)) as (p & Hp & _).
  set (u := trimStart (rev t)) in *.
  assert (Hfront : trimStart (rev u) = rev u).
  { apply trimStart_fixed.
    apply (f_equal (@rev N)) in Hp.
    rewrite rev_involutive, rev_app_distr in Hp.
    destruct (rev u) as [|c r]; [done|].
    rewrite Hp in Ht. exact Ht. }
  rewrite Hfront, rev_involutive.
  by rewrite (trimStart_fixed u Hu).
Qed.

Lemma grown_refl (s : CallSession) : grown s s.
Proof. split; [done|]. exists []. split; [by rewrite app_nil_r|apply List.Forall_nil]. Qed.

Lemma grown_trans (s1 s2 s3 : CallSession) :
  grown s1 s2 → grown s2 s3 → grown s1 s3.
Proof.
  intros [Hi1 (t1 & Hh1 & Ht1)] [Hi2 (t2 & Hh2 & Ht2)].
  split; [congruence|]. exists (t1 ++ t2).
  split; [by rewrite Hh2, Hh1, app_assoc|by apply Forall_app].
Qed.

Lemma grown_prefix (s s' : CallSession) :
  grown s s' → conversationHistory s `prefix_of` conversationHistory s'.
Proof. intros [_ (turns & -> & _)]. by apply prefix_app_r. Qed.

Lemma grown_same_history (s s' : CallSession) :
  identity s' = identity s → conversationHistory s' = conversationHistory s →
  grown s s'.
Proof.
  intros Hi Hh. split; [done|]. exists [].
  split; [by rewrite app_nil_r|apply List.Forall_nil].
Qed.

(** Solves [orderly] goals about a world obtained from [w] by writes to
    the flag and pushes to the history of the one session object, log
    lines and at most one send. *)
Ltac grown_tac :=
  unfold grown, identity, deref; simpl;
  rewrite ?lookup_alter_eq;
  match goal with
  | |- context [heap ?w !! ?r] => destruct (heap w !! r)
  end; simpl;
  (split; [done|]);
  first
    [ by (exists []; split; [by rewrite ?app_nil_r|apply List.Forall_nil])
    | by (eexists [_]; split; [done|]; apply Forall_singleton;
          split; [done|]; intros [=])
    | by (eexists [_]; split; [done|]; apply Forall_singleton;
          split; [done|]; intros _; cbn; split; [|apply trim_idemp];
          match goal with
          | H : truthy ?t = true |- _ => destruct t
          end) ].

Ltac orderly_tac :=
  split;
  [ quiet_tac
  | grown_tac
  | first [ by (exists []; simpl; rewrite app_nil_r)
          | by (eexists [_]; simpl; split; [done|];
                apply Forall_singleton; split) ] ].

Lemma pipeline_orderly (session : ref) (audio : Buffer) (w : World) :
  orderly_run session w (processAudioPipeline session audio w).
Proof.
  unfold orderly_run, processAudioPipeline. cbn.
  destruct (isProcessing (deref w session)); cbn.
  { split; [orderly_tac|done]. }
  split; [orderly_tac|]. split; [done|].
  intros [wav|e] w1 _; cbn; [|split; [orderly_tac|done]].
  split; [orderly_tac|]. split; [done|].
  intros [text|e] w2 _; cbn; [|split; [orderly_tac|done]].
  destruct (truthy (trim text)) eqn:Hsaid; cbn; [|split; [orderly_tac|done]].
  split; [orderly_tac|]. split; [done|].
  intros [reply|e] w3 _; cbn; [|split; [orderly_tac|done]].
  split; [orderly_tac|]. split; [done|].
  intros [resp|e] w4 _; cbn; [|split; [orderly_tac|done]].
  destruct (ok resp); cbn.
  - split; [orderly_tac|]. split; [done|].
    intros [mp3|e] w5 _; cbn; [|split; [orderly_tac|done]].
    split; [orderly_tac|]. split; [done|].
    intros [mulaw|e] w6 _; cbn; [|split; [orderly_tac|done]].
    unfold socket_send. case_bool_decide; cbn; (split; [orderly_tac|done]).
  - split; [orderly_tac|]. split; [done|].
    intros [errText|e] w5 _; cbn; (split; [orderly_tac|done]).
Qed.

Lemma greeting_orderly (session : ref) (w : World) :
  orderly_run session w (sendGreeting session w).
Proof.
  unfold orderly_run, sendGreeting. cbn.
  split; [orderly_tac|]. split; [done|].
  intros [greeting|e] w1 _; cbn; [|split; [orderly_tac|done]].
  split; [orderly_tac|]. split; [done|].
  intros [resp|e] w2 _; cbn; [|split; [orderly_tac|done]].
  destruct (ok resp); cbn.
  - split; [orderly_tac|]. split; [done|].
    intros [mp3|e] w3 _; cbn; [|split; [orderly_tac|done]].
    split; [orderly_tac|]. split; [done|].
    intros [mulaw|e] w4 _; cbn; [|split; [orderly_tac|done]].
    unfold socket_send. case_bool_decide; cbn; (split; [orderly_tac|done]).
  - split; [orderly_tac|]. split; [done|].
    intros [errText|e] w3 _; cbn; (split; [orderly_tac|done]).
Qed.


Lemma start_parks_orderly (connection : Socket) (startData : StartBody)
  (prompt voice : jsstring) (w0 : World) :
  let r := bindR
    (new_session (fresh_session connection startData prompt voice) w0)
    (λ newSession,
       modify (set_activeCalls (insert (start_streamSid startData) newSession));;;
       call_async (InvGreeting newSession) (sendGreeting newSession)) in
  starts_orderly r
  ∧ Forall (task_orderly (park Handler r).1) (park Handler r).2
  ∧ unhandled (park Handler r).1 = unhandled w0.
Proof.
  cbn. unfold call_async.
  match goal with
  | |- context [sendGreeting ?r ?w1] =>
      destruct (greeting_first_call r w1) as (k & Heq & _);
      pose proof (greeting_orderly r w1) as Hrun
  end.
  rewrite Heq in Hrun |- *. simpl in Hrun. destruct Hrun as (_ & _ & Hk).
  cbn. split; [by intros o w1; apply Hk|]. split; [|done].
  apply Forall_singleton. unfold task_orderly. simpl. split.
  - rewrite dom_insert_L. apply elem_of_union_l, elem_of_singleton_2. done.
  - intros o w1. by apply Hk.
Qed.

(** What the handler leaves behind: orderly runs, and a rejection only
    when the message is malformed. *)
Lemma on_message_orderly (connection : Socket) (q : option jsstring)
  (message : RawData) (w : World) :
  registry_ok w →
  let p := park Handler (on_message connection q message w) in
  Forall (task_orderly p.1) p.2
  ∧ (mjoin (unserved message) = None → unhandled p.1 = unhandled w).
Proof.
  intros Hreg. unfold on_message, unserved.
  destruct message as [|[|d]]; cbn; [by split..|].
  case_bool_decide as Hstart; [|case_bool_decide as Hmedia;
    [|case_bool_decide as Hstop]]; cbn.
  - (* start *)
    destruct (data_start d) as [startData|]; cbn; [|by split].
    destruct (truthy_opt q); cbn.
    + split; [|done]. apply Forall_singleton. unfold task_orderly. simpl.
      intros [campaign|e] w'; cbn.
      * eapply proj1, (start_parks_orderly connection startData _ _ w').
      * eapply proj1, (start_parks_orderly connection startData _ _
          (add_console (LogStartError e) w')).
    + split; [|intros _];
        eapply (start_parks_orderly connection startData _ _
          (add_console (LogCallStarted (start_callSid startData)) w)).
  - (* media *)
    destruct (data_media d) as [mediaData|]; cbn; [|by split].
    case_bool_decide as Htrack; cbn; [|by split].
    destruct (data_streamSid d) as [sid|]; cbn; [|by split].
    destruct (activeCalls w !! sid) as [session|] eqn:Hsid; cbn; [|by split].
    destruct (Hreg _ _ Hsid) as (s & Hs & _).
    set (chunk := base64_decode (media_payload mediaData)).
    case_bool_decide as Hthr; cbn; [|by split].
    unfold call_async.
    match goal with
    | |- context [processAudioPipeline ?r ?a ?w2] =>
        assert (Hbusy : busy w2 session = busy w session)
          by (unfold busy, deref; simpl; by rewrite !lookup_alter_eq, Hs);
        pose proof (pipeline_orderly r a w2) as Hrun
    end.
    destruct (busy w session) eqn:Hb.
    + rewrite pipeline_busy by done. cbn. by split.
    + match goal with
      | |- context [processAudioPipeline ?r ?a ?w2] =>
          destruct (pipeline_idle r a w2 Hbusy) as (k & Heq & _)
      end.
      rewrite Heq in Hrun |- *. simpl in Hrun. destruct Hrun as (_ & _ & Hk).
      cbn. split; [|done].
      apply Forall_singleton. unfold task_orderly. simpl. split.
      * rewrite !dom_alter_L. by eapply elem_of_dom_2.
      * intros o w1. by apply Hk.
  - (* stop *)
    destruct (data_stop d) as [stopData|]; cbn; by split.
  - by split.
Qed.

Lemma task_orderly_mono (w w' : World) (t : Task) :
  dom (heap w) ⊆ dom (heap w') → task_orderly w t → task_orderly w' t.
Proof.
  intros Hdom. unfold task_orderly.
  destruct (task_owner t) as [|[session|session audio]]; [done|..];
    (intros [Hin H]; split; [by apply Hdom|done]).
Qed.

Lemma Orderly_step (sys : System) (a : Action) :
  Inv sys → Orderly sys → Orderly (step sys a).
Proof.
  intros HI HO. unfold Orderly in *.
  pose proof (step_evolves sys a HI) as [Hdom _].
  assert (Hold : Forall (task_orderly (sys_world (step sys a))) (sys_tasks sys)).
  { eapply Forall_impl; [exact HO|]. intros t. by apply task_orderly_mono. }
  destruct a as [connection q message|i answer|connection]; simpl in *.
  - destruct (on_message_orderly connection q message (sys_world sys)
      (inv_registry _ HI)) as [Hnew _].
    destruct (park Handler (on_message connection q message (sys_world sys)))
      as [w' ts']. simpl in *. by apply Forall_app.
  - destruct (sys_tasks sys !! i) as [t|] eqn:Hi; [|done].
    pose proof (Forall_lookup_1 _ _ _ _ HO Hi) as Hok.
    pose proof (Forall_lookup_1 _ _ _ _ (inv_tasks _ HI) Hi) as Hreg.
    unfold task_orderly in Hok. unfold task_ok in Hreg.
    set (r := task_k t (answer _ (task_call t)) (sys_world sys)) in *.
    assert (Hnew : Forall (task_orderly (park (task_owner t) r).1)
                     (park (task_owner t) r).2).
    { destruct (task_owner t) as [|[session|session audio]] eqn:Howner.
      - specialize (Hok (answer _ (task_call t)) (sys_world sys)).
        specialize (Hreg (answer _ (task_call t)) (sys_world sys)).
        fold r in Hok, Hreg.
        destruct r as [| | |[session|] X c k [[] w'| | |]]; try done.
        destruct Hreg as (-> & (conn & startData & prompt & voice & w0
          & Hlog & ->) & _).
        simpl. apply Forall_singleton. unfold task_orderly. simpl.
        split; [|done].
        assert (Hheap : heap w0 = heap (sys_world sys))
          by (by destruct Hlog as [->|[l ->]]).
        rewrite Hheap, dom_insert_L.
        apply elem_of_union_l, elem_of_singleton_2. done.
      - destruct Hok as [Hin Hok].
        specialize (Hok (answer _ (task_call t)) (sys_world sys)).
        fold r in Hok. unfold orderly_run in Hok.
        destruct r as [[] w'|e w'|X c k w'|]; simpl in Hok |- *;
          [constructor|done| |done].
        destruct Hok as (Hseg & _ & Hk).
        apply Forall_singleton. unfold task_orderly. simpl. split.
        + by rewrite (quiet_dom _ _ _ (orderly_quiet _ _ _ Hseg)).
        + intros o w1. by apply Hk.
      - destruct Hok as [Hin Hok].
        specialize (Hok (answer _ (task_call t)) (sys_world sys)).
        fold r in Hok. unfold orderly_run in Hok.
        destruct r as [[] w'|e w'|X c k w'|]; simpl in Hok |- *;
          [constructor|done| |done].
        destruct Hok as (Hseg & _ & Hk).
        apply Forall_singleton. unfold task_orderly. simpl. split.
        + by rewrite (quiet_dom _ _ _ (orderly_quiet _ _ _ Hseg)).
        + intros o w1. by apply Hk. }
    destruct (park (task_owner t) r) as [w' ts']. simpl in *.
    apply Forall_app. split; [by apply Forall_delete|done].
  - done.
Qed.

Lemma reachable_Orderly (sys : System) : reachable sys → Orderly sys.
Proof.
  intros [actions ->].
  induction actions as [|a actions IH] using rev_ind; [constructor|].
  rewrite run_snoc. apply Orderly_step; [|done]. apply Inv_run, Inv_init.
Qed.


Lemma keeps_refl (w : World) : keeps w w.
Proof. split; [|done]. intros r s Hs. exists s. split; [done|apply grown_refl]. Qed.

Lemma keeps_trans (w1 w2 w3 : World) : keeps w1 w2 → keeps w2 w3 → keeps w1 w3.
Proof.
  intros [H1 Ho1] [H2 Ho2]. split; [|by etrans].
  intros r s Hs. destruct (H1 r s Hs) as (s2 & Hs2 & Hg2).
  destruct (H2 r s2 Hs2) as (s3 & Hs3 & Hg3).
  exists s3. split; [done|]. by eapply grown_trans.
Qed.

Lemma keeps_same (w w' : World) :
  heap w' = heap w → outbox w' = outbox w → keeps w w'.
Proof.
  intros Hh Ho. split; [|by rewrite Ho]. intros r s Hs. exists s.
  rewrite Hh. split; [done|apply grown_refl].
Qed.

Lemma keeps_alter (session : ref) (f : CallSession → CallSession) (w : World) :
  (∀ s, grown s (f s)) → keeps w (set_heap (alter f session) w).
Proof.
  intros Hf. split; [|done]. intros r s Hs. simpl.
  destruct (decide (r = session)) as [->|Hne].
  - exists (f s). by rewrite lookup_alter_eq, Hs.
  - exists s. rewrite lookup_alter_ne by done. split; [done|apply grown_refl].
Qed.

Lemma keeps_logged (w w0 : World) : logged w w0 → keeps w w0.
Proof. intros [->|[l ->]]; by apply keeps_same. Qed.

Lemma keeps_registered (connection : Socket) (startData : StartBody)
  (prompt voice : jsstring) (w : World) :
  keeps w (registered connection startData prompt voice w).
Proof.
  split; [|done]. intros r s Hs. exists s. split; [|apply grown_refl].
  simpl. rewrite lookup_insert_ne; [done|].
  intros <-. pose proof (is_fresh (dom (heap w))) as Hfresh.
  apply Hfresh. by eapply elem_of_dom_2.
Qed.

Lemma registers_keeps (o : Owner) (w : World) (r : Res unit) :
  registers w r →
  keeps w (park o r).1
  ∧ outbox (park o r).1 = outbox w
  ∧ unhandled (park o r).1 = unhandled w.
Proof.
  destruct r as [| | |[session|] X c k [[] w'| | |]]; try done.
  intros (-> & (conn & startData & prompt & voice & w0 & Hlog & ->) & _).
  simpl. split; [|by destruct Hlog as [->|[l ->]]].
  eapply keeps_trans; [by apply keeps_logged|apply keeps_registered].
Qed.

Lemma grown_push_chunk (chunk : Buffer) (s : CallSession) :
  grown s (push_chunk chunk s).
Proof. by apply grown_same_history. Qed.

Lemma grown_with_audioBuffer (b : list Buffer) (s : CallSession) :
  grown s (with_audioBuffer b s).
Proof. by apply grown_same_history. Qed.

Lemma grown_with_isProcessing (b : bool) (s : CallSession) :
  grown s (with_isProcessing b s).
Proof. by apply grown_same_history. Qed.

Lemma keeps_flushed (session : ref) (chunk : Buffer) (w : World) :
  keeps w (flushed session chunk w).
Proof.
  apply (keeps_trans _ (set_heap (alter (push_chunk chunk) session) w)).
  - apply keeps_alter, grown_push_chunk.
  - apply (keeps_trans _ (set_heap (alter (with_audioBuffer []) session)
      (set_heap (alter (push_chunk chunk) session) w))).
    + apply keeps_alter, grown_with_audioBuffer.
    + by apply keeps_same.
Qed.

(** The handler sends nothing and undoes nothing. *)
Lemma handled_keeps (w : World) (r : Res unit) :
  handled w r →
  keeps w (park Handler r).1 ∧ outbox (park Handler r).1 = outbox w.
Proof.
  intros [|e|sid|stopData|sid session chunk Hsid Hlen
    |sid session chunk Hsid Hlen Hbusy|sid session chunk k Hsid Hlen Hbusy Hk
    |r' Hr|id l k Hk]; simpl;
    try (split; [by apply keeps_same|done]).
  - split; [|done]. apply keeps_alter, grown_push_chunk.
  - split; [|done]. apply keeps_flushed.
  - split; [|done]. eapply keeps_trans; [apply keeps_flushed|].
    apply keeps_alter, grown_with_isProcessing.
  - destruct (registers_keeps Handler w r' Hr) as (H1 & H2 & _). by split.
Qed.

Lemma advances_silent (w w' : World) :
  keeps w w' → outbox w' = outbox w → advances w w'.
Proof.
  intros Hk Ho. split; [done|]. exists []. by rewrite app_nil_r.
Qed.

Lemma orderly_advances (session : ref) (w w' : World) :
  session ∈ dom (heap w) → orderly session w w' → advances w w'.
Proof.
  intros [s Hs]%elem_of_dom [Hq Hg (sent & Ho & Hsent)].
  assert (Hd : deref w session = s) by (unfold deref; by rewrite Hs).
  rewrite Hd in *.
  split; [split|].
  - intros r s0 Hs0. destruct (decide (r = session)) as [->|Hne].
    + assert (session ∈ dom (heap w')) as [s' Hs']%elem_of_dom.
      { rewrite (quiet_dom _ _ _ Hq). by eapply elem_of_dom_2. }
      exists s'. split; [done|].
      assert (deref w' session = s') as <- by (unfold deref; by rewrite Hs').
      congruence.
    + exists s0. rewrite (quiet_other _ _ _ Hq) by done.
      split; [done|apply grown_refl].
  - rewrite Ho. by apply prefix_app_r.
  - exists sent. split; [done|]. eapply Forall_impl; [exact Hsent|].
    intros m Hm. by exists session, s.
Qed.

Lemma step_advances (sys : System) (a : Action) :
  Inv sys → Orderly sys →
  advances (sys_world sys) (sys_world (step sys a)).
Proof.
  intros HI HO.
  destruct a as [connection q message|i answer|connection]; simpl.
  - destruct (handled_keeps _ _ (on_message_handled connection q message
      (sys_world sys) (inv_registry _ HI))) as [Hk Ho].
    destruct (park Handler (on_message connection q message (sys_world sys)))
      as [w' ts']. by apply advances_silent.
  - destruct (sys_tasks sys !! i) as [t|] eqn:Hi;
      [|apply advances_silent; [apply keeps_refl|done]].
    pose proof (Forall_lookup_1 _ _ _ _ HO Hi) as Hok.
    pose proof (Forall_lookup_1 _ _ _ _ (inv_tasks _ HI) Hi) as Hreg.
    unfold task_orderly in Hok. unfold task_ok in Hreg.
    set (r := task_k t (answer _ (task_call t)) (sys_world sys)) in *.
    assert (H : advances (sys_world sys) (park (task_owner t) r).1);
      [|by destruct (park (task_owner t) r)].
    destruct (task_owner t) as [|[session|session audio]] eqn:Howner.
    + destruct (registers_keeps Handler (sys_world sys) r (Hreg _ _))
        as (H1 & H2 & _).
      by apply advances_silent.
    + destruct Hok as [Hin Hok].
      specialize (Hok (answer _ (task_call t)) (sys_world sys)).
      fold r in Hok. unfold orderly_run in Hok.
      destruct r as [[] w'|e w'|X c k w'|]; simpl in Hok |- *; try done;
        apply (orderly_advances session); try done; apply Hok.
    + destruct Hok as [Hin Hok].
      specialize (Hok (answer _ (task_call t)) (sys_world sys)).
      fold r in Hok. unfold orderly_run in Hok.
      destruct r as [[] w'|e w'|X c k w'|]; simpl in Hok |- *; try done;
        apply (orderly_advances session); try done; apply Hok.
  - apply advances_silent; [by apply keeps_same|done].
Qed.

Lemma run_keeps (sys : System) (actions : list Action) :
  reachable sys → keeps (sys_world sys) (sys_world (run sys actions)).
Proof.
  intros Hreach.
  induction actions as [|a actions IH] using rev_ind; [apply keeps_refl|].
  rewrite run_snoc. eapply keeps_trans; [exact IH|].
  assert (Hreach' : reachable (run sys actions)).
  { destruct Hreach as [before ->]. exists (before ++ actions).
    by rewrite run_app. }
  apply step_advances; [by apply reachable_Inv|by apply reachable_Orderly].
Qed.

Lemma addressed_advances (w w' : World) :
  advances w w' → addressed w → addressed w'.
Proof.
  intros [[Hheap _] (sent & Ho & Hsent)] Hw m. rewrite Ho, elem_of_app.
  assert (Hlift : (∃ r s, heap w !! r = Some s ∧ sent_to s m) →
                  ∃ r s, heap w' !! r = Some s ∧ sent_to s m).
  { intros (r & s & Hs & Hto1 & Hto2).
    destruct (Hheap r s Hs) as (s' & Hs' & Hid & _).
    exists r, s'. split; [done|]. unfold sent_to, identity in *.
    simplify_eq. split; congruence. }
  intros [Hm|Hm]; apply Hlift; [by apply Hw|].
  by eapply (proj1 (Forall_forall _ _) Hsent).
Qed.

(** X7. From any reachable state onwards, whatever the event loop does
    next (messages of any kind, settled or rejected calls, failing
    sockets): a session object stays allocated, keeps the call id, stream
    id, socket, prompt and voice it was created with, and keeps its
    conversation history as a prefix of the later one (turns are only
    ever appended, never removed, reordered or rewritten); and what has
    been sent stays the beginning of what has been sent. *)
Theorem X7_sessions_only_grow (sys : System) (actions : list Action)
  (session : ref) (s : CallSession) :
  reachable sys →
  heap (sys_world sys) !! session = Some s →
  let later := sys_world (run sys actions) in
  (∃ s', heap later !! session = Some s'
     ∧ callSid s' = callSid s ∧ streamSid s' = streamSid s
     ∧ socket s' = socket s
     ∧ campaignPrompt s' = campaignPrompt s
     ∧ campaignVoiceId s' = campaignVoiceId s
     ∧ conversationHistory s `prefix_of` conversationHistory s')
  ∧ outbox (sys_world sys) `prefix_of` outbox later.
Proof.
  intros Hreach Hs later. subst later.
  destruct (run_keeps sys actions Hreach) as [Hheap Hout].
  split; [|done].
  destruct (Hheap session s Hs) as (s' & Hs' & Hgrown).
  pose proof (grown_prefix s s' Hgrown) as Hhist.
  destruct Hgrown as [Hid _].
  exists s'. unfold identity in Hid. simplify_eq. by repeat split.
Qed.

(** X8. In every reachable state, every message that has ever been sent
    went out on the socket of a session object that is allocated and
    carries the stream id of that same object: audio is never sent to a
    socket under the stream id of another call. *)
Theorem X8_replies_go_to_their_call (sys : System) (m : Socket * OutMsg) :
  reachable sys →
  m ∈ outbox (sys_world sys) →
  ∃ session s, heap (sys_world sys) !! session = Some s
    ∧ socket s = m.1 ∧ streamSid s = out_streamSid m.2.
Proof.
  intros [actions ->]. revert m.
  assert (H : addressed (sys_world (run init actions))).
  { induction actions as [|a actions IH] using rev_ind.
    - intros m Hm. by apply elem_of_nil in Hm.
    - rewrite run_snoc. eapply addressed_advances; [|exact IH].
      apply step_advances; [apply Inv_run, Inv_init|].
      apply reachable_Orderly. by eexists. }
  intros m Hm. destruct (H m Hm) as (r & s & Hs & Hto1 & Hto2).
  by exists r, s.
Qed.


(** ** The buffer stays below the threshold *)

Lemma below_same (w w' : World) :
  heap w' = heap w → below_threshold w → below_threshold w'.
Proof. intros Hh H r s. rewrite Hh. apply H. Qed.

Lemma below_alter (session : ref) (f : CallSession → CallSession) (w : World) :
  (∀ s, heap w !! session = Some s →
        length (audioBuffer (f s)) < FLUSH_THRESHOLD) →
  below_threshold w → below_threshold (set_heap (alter f session) w).
Proof.
  intros Hf H r s'. simpl. destruct (decide (r = session)) as [->|Hne].
  - rewrite lookup_alter_eq.
    destruct (heap w !! session) as [s|] eqn:Hs; simpl; [|done].
    intros [= <-]. by apply Hf.
  - rewrite lookup_alter_ne by done. apply H.
Qed.

Lemma below_quiet (session : ref) (w w' : World) :
  quiet session w w' → below_threshold w → below_threshold w'.
Proof.
  intros Hq H r s' Hs'.
  assert (r ∈ dom (heap w)) as [s Hs]%elem_of_dom.
  { rewrite <- (quiet_dom _ _ _ Hq). by eapply elem_of_dom_2. }
  pose proof (quiet_buffered session r w w' Hq) as Hbuf.
  unfold deref in Hbuf. rewrite Hs, Hs' in Hbuf. simpl in Hbuf.
  rewrite Hbuf. by eapply H.
Qed.

Lemma below_registers (o : Owner) (w : World) (r : Res unit) :
  registers w r → below_threshold w → below_threshold (park o r).1.
Proof.
  destruct r as [| | |[session|] X c k [[] w'| | |]]; try done.
  intros (-> & (conn & startData & prompt & voice & w0 & Hlog & ->) & _) H.
  assert (Hheap : heap w0 = heap w) by (by destruct Hlog as [->|[l ->]]).
  intros r s. simpl. rewrite Hheap, lookup_insert. case_decide.
  - intros [= <-]. simpl. unfold FLUSH_THRESHOLD. lia.
  - apply H.
Qed.

Lemma below_flushed (session : ref) (chunk : Buffer) (w : World) :
  below_threshold w → below_threshold (flushed session chunk w).
Proof.
  intros H r s'. simpl. destruct (decide (r = session)) as [->|Hne].
  - rewrite !lookup_alter_eq.
    destruct (heap w !! session) as [s|]; simpl; [|done].
    intros [= <-]. simpl. unfold FLUSH_THRESHOLD. lia.
  - rewrite !lookup_alter_ne by done. apply H.
Qed.

Lemma below_handled (w : World) (r : Res unit) :
  handled w r → below_threshold w → below_threshold (park Handler r).1.
Proof.
  intros [|e|sid|stopData|sid session chunk Hsid Hlen
    |sid session chunk Hsid Hlen Hbusy|sid session chunk k Hsid Hlen Hbusy Hk
    |r' Hr|id l k Hk] H; simpl;
    try (by apply (below_same w)).
  - apply below_alter; [|done]. intros s Hs.
    unfold deref in Hlen. rewrite Hs in Hlen. simpl in *.
    rewrite length_app. simpl. done.
  - by apply below_flushed.
  - apply below_alter; [|by apply below_flushed].
    intros s Hs. exact (below_flushed session chunk w H session s Hs).
  - by apply (below_registers Handler w).
Qed.

Lemma below_step (sys : System) (a : Action) :
  Inv sys → below_threshold (sys_world sys) →
  below_threshold (sys_world (step sys a)).
Proof.
  intros HI H.
  destruct a as [connection q message|i answer|connection]; simpl.
  - pose proof (below_handled _ _ (on_message_handled connection q message
      (sys_world sys) (inv_registry _ HI)) H) as H'.
    by destruct (park Handler (on_message connection q message (sys_world sys))).
  - destruct (sys_tasks sys !! i) as [t|] eqn:Hi; [|done].
    set (r := task_k t (answer _ (task_call t)) (sys_world sys)).
    assert (H' : below_threshold (park (task_owner t) r).1);
      [|by destruct (park (task_owner t) r)].
    destruct (is_handler t) eqn:Hh.
    + pose proof (Forall_lookup_1 _ _ _ _ (inv_tasks _ HI) Hi) as Hreg.
      unfold task_ok in Hreg. unfold is_handler in Hh.
      destruct (task_owner t); [|done].
      apply (below_registers Handler (sys_world sys)); [apply Hreg|done].
    + destruct (settle_quiet sys i t (answer _ (task_call t)) HI Hi Hh)
        as (session & Hq & _).
      by eapply below_quiet.
  - by apply (below_same (sys_world sys)).
Qed.

(** X9. In every reachable state, the audio buffer of every session
    object holds fewer than 150 chunks: the buffer is emptied in the
    very segment in which the 150th chunk arrives, whether or not a run
    can take the audio, so buffered audio never piles up behind a busy
    pipeline. *)
Theorem X9_buffer_stays_below_threshold (sys : System) (session : ref)
  (s : CallSession) :
  reachable sys →
  heap (sys_world sys) !! session = Some s →
  length (audioBuffer s) < FLUSH_THRESHOLD.
Proof.
  intros [actions ->]. revert session s.
  induction actions as [|a actions IH] using rev_ind.
  - intros session s. simpl. by rewrite lookup_empty.
  - rewrite run_snoc. apply below_step; [|exact IH]. apply Inv_run, Inv_init.
Qed.

(** ** Rejections that nobody handles *)

Lemma unhandled_step (sys : System) (a : Action) :
  Inv sys →
  unhandled (sys_world (step sys a))
  = unhandled (sys_world sys) ++ option_list (rejection_of a).
Proof.
  intros HI.
  destruct a as [connection q message|i answer|connection]; simpl;
    [| |by rewrite app_nil_r].
  - destruct (unserved message) as [o|] eqn:Hun; simpl.
    + rewrite (on_message_unserved connection q message o) by done.
      destruct o as [e|]; simpl; [done|by rewrite app_nil_r].
    + destruct (on_message_orderly connection q message (sys_world sys)
        (inv_registry _ HI)) as [_ H].
      rewrite Hun in H. specialize (H eq_refl). rewrite app_nil_r.
      by destruct (park Handler
        (on_message connection q message (sys_world sys))).
  - rewrite app_nil_r.
    destruct (sys_tasks sys !! i) as [t|] eqn:Hi; [|done].
    set (r := task_k t (answer _ (task_call t)) (sys_world sys)).
    assert (H' : unhandled (park (task_owner t) r).1
                 = unhandled (sys_world sys));
      [|by destruct (park (task_owner t) r)].
    destruct (is_handler t) eqn:Hh.
    + pose proof (Forall_lookup_1 _ _ _ _ (inv_tasks _ HI) Hi) as Hreg.
      unfold task_ok in Hreg. unfold is_handler in Hh.
      destruct (task_owner t); [|done].
      by destruct (registers_keeps Handler (sys_world sys) r (Hreg _ _))
        as (_ & _ & ?).
    + destruct (settle_quiet sys i t (answer _ (task_call t)) HI Hi Hh)
        as (session & Hq & _).
      apply (quiet_unhandled _ _ _ Hq).
Qed.

(** X10. No failure of a collaborator and no failing socket ends the
    process.  In every state the event loop can reach, a step that is
    not the arrival of a message leaves no rejection unhandled: a
    pending call that settles, whatever it is fulfilled or rejected
    with, and a socket that stops accepting sends.  The greeting and the
    pipeline, which nobody awaits, catch everything, and so does the
    campaign lookup of a start. *)
Theorem X10_background_steps_never_exit (sys : System) (a : Action) :
  reachable sys → background a = true → ¬ exits sys a.
Proof.
  intros Hreach Hbg. unfold exits.
  rewrite unhandled_step by by apply reachable_Inv.
  destruct a; [done| |]; simpl; rewrite app_nil_r; by intros H.
Qed.

(** ** The threshold, busy or idle *)

(** X11. When an inbound frame fills the buffer of a registered session
    to the threshold, the buffer is emptied in any case and the step
    changes no history and sends nothing.  If the session is idle, the
    step sets [isProcessing] and leaves exactly one new pending call, the
    decoding of the concatenated buffer, owned by the run it has entered.
    If a run is in flight ([isProcessing] is true), no run is entered and
    no call is left pending: the buffered audio is discarded, it is
    neither queued nor retried. *)
Theorem X11_full_buffer_runs_or_is_dropped (connection : Socket)
  (q : option jsstring) (d : Data) (m : MediaBody) (sid : jsstring)
  (session : ref) (s : CallSession) (sys : System) :
  data_event d = Some (lit "media") → data_media d = Some m →
  media_track m = lit "inbound" → data_streamSid d = Some sid →
  activeCalls (sys_world sys) !! sid = Some session →
  heap (sys_world sys) !! session = Some s →
  FLUSH_THRESHOLD ≤ length (audioBuffer s) + 1 →
  let sys' := step sys (Deliver connection q (Json (JObject d))) in
  let blob := concat (audioBuffer s ++ [base64_decode (media_payload m)]) in
  buffered sys' session = []
  ∧ history (sys_world sys') session = conversationHistory s
  ∧ outbox (sys_world sys') = outbox (sys_world sys)
  ∧ busy (sys_world sys') session = true
  ∧ if isProcessing s then sys_tasks sys' = sys_tasks sys
    else ∃ k, sys_tasks sys' = sys_tasks sys ++
           [ {| task_owner := Started (InvPipeline session blob);
                task_call := MulawToWav blob; task_k := k |} ].
Proof.
  intros Hev Hmedia Htrack Hsid Hreg Hs Hthr sys' blob. subst sys' blob.
  pose proof (on_message_inbound connection q d m sid session s
    (sys_world sys) Hev Hmedia Htrack Hsid Hreg Hs) as Heq.
  simpl in Heq. simpl step. rewrite Heq. clear Heq.
  rewrite bool_decide_eq_true_2 by done.
  unfold call_async, buffered, history.
  match goal with
  | |- context [processAudioPipeline _ _ ?w2] =>
      assert (Hbusy : busy w2 session = isProcessing s)
        by (unfold busy, deref; simpl; by rewrite !lookup_alter_eq, Hs)
  end.
  destruct (isProcessing s) eqn:Hflag.
  - rewrite pipeline_busy by done. cbn.
    unfold busy, deref. simpl. rewrite !lookup_alter_eq, Hs. simpl.
    by rewrite app_nil_r.
  - match goal with
    | |- context [processAudioPipeline ?r ?au ?w2] =>
        destruct (pipeline_idle r au w2 Hbusy) as (k & Hk & _)
    end.
    rewrite Hk. cbn.
    unfold busy, deref. simpl. rewrite !lookup_alter_eq, Hs. simpl.
    repeat split; try done. by exists k.
Qed.

(** ** The registry *)

(** X12. In every reachable state the registry is consistent with the
    session objects: a stream id leads to an allocated session object
    whose [streamSid] is that very id; hence no session object is
    registered under two stream ids, and a media frame is never buffered
    into the session of another stream. *)
Theorem X12_registry_keys_match_sessions (sys : System)
  (sid sid' : jsstring) (session session' : ref) :
  reachable sys →
  activeCalls (sys_world sys) !! sid = Some session →
  (∃ s, heap (sys_world sys) !! session = Some s ∧ streamSid s = sid)
  ∧ (activeCalls (sys_world sys) !! sid' = Some session' →
     sid ≠ sid' → session ≠ session').
Proof.
  intros Hreach Hsid.
  pose proof (inv_registry _ (reachable_Inv sys Hreach)) as Hreg.
  split; [by apply Hreg|].
  intros Hsid' Hne <-.
  destruct (Hreg _ _ Hsid) as (s & Hs & Hstream).
  destruct (Hreg _ _ Hsid') as (s' & Hs' & Hstream').
  congruence.
Qed.

(** ** A start whose campaign is found *)

(** X13. For a start event with a campaign selector whose lookup finds
    a row: the handler asks the campaign store for that selector and,
    when the row arrives, creates the session with the prompt of the row,
    or the default prompt if the row's prompt is NULL or empty, and with
    the voice of the row, or the default voice if the row's voice is NULL
    or empty, each field falling back on its own; it registers the
    session under the stream id, logs no error, and leaves the greeting
    waiting for a chat completion whose system message is that prompt. *)
Theorem X13_start_with_campaign_row (connection : Socket)
  (q : option jsstring) (d : Data) (startData : StartBody) (w w1 : World)
  (rest : list World) (answer : Answer) (row : Campaign) :
  data_event d = Some (lit "start") →
  data_start d = Some startData →
  truthy_opt q = true →
  answer _ (GetCampaignById (default [] q)) = Resolved (Some row) →
  let prompt := or_else (campaign_prompt row) default_prompt in
  let voice := or_else (voice_id row) default_voice in
  let session := fresh (dom (heap w1)) in
  let r := on_message connection q (Json (JObject d)) w in
  requests answer (w1 :: rest) r = [ Req (GetCampaignById (default [] q)) ]
  ∧ ∃ k w',
      finish answer (w1 :: rest) r
      = Detach (InvGreeting session)
          (ChatCompletionsCreate
             [ {| role := system; content := prompt |};
               {| role := user; content := START_CALL |} ])
          k (RetR tt w')
      ∧ heap w' = <[session :=
          fresh_session connection startData prompt voice]> (heap w1)
      ∧ activeCalls w' =
          <[start_streamSid startData := session]> (activeCalls w1)
      ∧ console w' = console w1.
Proof.
  intros Hev Hstart Hq Hrow prompt voice session r.
  subst prompt voice session r.
  unfold on_message. cbn.
  rewrite Hev, start_event_eq, Hstart. cbn. rewrite Hq. cbn.
  rewrite Hrow. cbn. unfold call_async, or_else.
  destruct (campaign_prompt row) as [[|c p]|], (voice_id row) as [[|c' v]|];
    cbn;
    match goal with
    | |- context [sendGreeting ?r ?w1] =>
        destruct (greeting_first_call r w1) as (k & -> & _)
    end;
    cbn; (split; [done|]); unfold deref; simpl; rewrite lookup_insert_eq;
    simpl; by eexists _, _.
Qed.


(** ** The campaign store *)

Ltac store_tac :=
  unfold api_try_finally, api_bind, client_connect, client_query, client_end,
    perform, body_of, api_ret, api_throw;
  cbn;
  repeat match goal with
  | |- context [env_connect ?env] => destruct (env_connect env) as [[]|?]; cbn
  | |- context [env_query ?env ?q ?v] => destruct (env_query env q v); cbn
  | |- context [env_end ?env] => destruct (env_end env) as [[]|?]; cbn
  end.

Ltac one_connection_tac :=
  first
    [ by (exists []; repeat split; [simpl; lia|constructor])
    | by (eexists [_]; repeat split; [simpl; lia|by repeat constructor|done]) ].

(** X14. Every call of the campaign store, whatever the database
    answers, opens its client first, sends at most one statement, and
    none when the client could not be opened, and closes the client last:
    [client.end()] is called exactly once on every path, also when
    connecting or the statement fails, when the body of the request is
    missing and when there is nothing to update. *)
Theorem X14_store_calls_close_their_client (env : Env) (id : Value)
  (n : num) (campaign : option NewCampaign) (updates : option CampaignUpdates) :
  one_connection env (getCampaignById id env).1
  ∧ one_connection env (getCampaigns env).1
  ∧ one_connection env (createCampaign campaign env).1
  ∧ one_connection env (deleteCampaign n env).1
  ∧ one_connection env (updateCampaign n updates env).1.
Proof.
  unfold one_connection.
  split; [|split; [|split; [|split]]].
  - unfold getCampaignById.
    destruct (env_connect env) as [[]|e] eqn:Hc;
      store_tac; rewrite ?Hc; store_tac; one_connection_tac.
  - unfold getCampaigns.
    destruct (env_connect env) as [[]|e] eqn:Hc;
      store_tac; rewrite ?Hc; store_tac; one_connection_tac.
  - unfold createCampaign.
    destruct (env_connect env) as [[]|e] eqn:Hc, campaign as [c|];
      store_tac; rewrite ?Hc; store_tac; one_connection_tac.
  - unfold deleteCampaign.
    destruct (env_connect env) as [[]|e] eqn:Hc;
      store_tac; rewrite ?Hc; store_tac;
      try match goal with |- context [match ?l with [] => _ | _ => _ end] =>
        destruct l end;
      simpl; one_connection_tac.
  - unfold updateCampaign.
    destruct (env_connect env) as [[]|e] eqn:Hc, updates as [u|];
      store_tac; rewrite ?Hc; store_tac; try one_connection_tac;
      destruct (push_field _ _ _) as [[fields values] k];
      case_bool_decide; store_tac; one_connection_tac.
Qed.


Lemma push_field_assigned (column : string) (value : Value)
  (assigned : list (string * Value)) :
  push_field column value
    (imap assignment assigned, assigned.*2, S (length assigned))
  = let assigned' :=
      assigned ++ List.filter (λ cv, negb (is_undefined cv.2)) [(column, value)] in
    (imap assignment assigned', assigned'.*2, S (length assigned')).
Proof.
  unfold push_field. cbn. destruct (is_undefined value); cbn.
  - by rewrite app_nil_r.
  - rewrite imap_app, fmap_app, length_app. cbn.
    unfold assignment at 2. cbn. by rewrite Nat.add_0_r, Nat.add_1_r.
Qed.

Lemma filter_cons_app {A : Type} (f : A → bool) (x : A) (l : list A) :
  List.filter f (x :: l) = List.filter f [x] ++ List.filter f l.
Proof. cbn. by destruct (f x). Qed.

(** The builder of [updateCampaign], in closed form. *)
Lemma builder_provided (u : CampaignUpdates) :
  push_field "calendar_connected" (upd_calendar_connected u)
    (push_field "webhook_url" (upd_webhook_url u)
       (push_field "retry_interval" (upd_retry_interval u)
          (push_field "max_retries" (upd_max_retries u)
             (push_field "initial_delay" (upd_initial_delay u)
                (push_field "voice_id" (upd_voice_id u)
                   (push_field "campaign_prompt" (upd_campaign_prompt u)
                      (push_field "description" (upd_description u)
                         (push_field "name" (upd_name u) ([], [], 1)))))))))
  = (imap assignment (provided u), (provided u).*2, S (length (provided u))).
Proof.
  change (@nil jsstring, @nil Value, 1)
    with (imap assignment [], (@nil (string * Value)).*2,
          S (length (@nil (string * Value)))).
  rewrite !push_field_assigned. cbv zeta.
  unfold provided, columns_of.
  rewrite !(filter_cons_app _ _ (_ :: _)).
  by rewrite !app_assoc, app_nil_l.
Qed.

Arguments provided : simpl never.

(** X15. When [updateCampaign] is given at least one of the nine fields
    it knows, it sends one UPDATE statement whose SET clause assigns
    exactly the fields that are provided, in the order name, description,
    campaign_prompt, voice_id, initial_delay, max_retries, retry_interval,
    webhook_url, calendar_connected, the i-th of them to the placeholder
    of the i-th parameter, followed by the update of [updated_at]; the
    parameters are the provided values in that same order followed by the
    id, and the WHERE clause selects by the placeholder of that last
    parameter.  A field given as null is provided (it is set to NULL);
    only an absent field is left out.  The call returns the first row of
    the answer, or null if there is none. *)
Theorem X15_update_statement_matches_parameters (id : num)
  (u : CampaignUpdates) (env : Env) :
  env_connect env = Returned tt →
  provided u ≠ [] →
  let statement := update_statement (provided u) in
  let parameters := (provided u).*2 ++ [VNum id] in
  (updateCampaign id (Some u) env).1
  = [OpConnect; OpQuery statement parameters; OpEnd]
  ∧ length parameters = S (length (provided u))
  ∧ (env_end env = Returned tt →
     (updateCampaign id (Some u) env).2
     = match env_query env statement parameters with
       | Returned rows => Returned (head rows)
       | Thrown e => Thrown e
       end).
Proof.
  intros Hc Hsome statement parameters. subst statement parameters.
  unfold updateCampaign, api_try_finally, api_bind, client_connect,
    client_query, client_end, perform, body_of, api_ret. cbn.
  rewrite Hc, builder_provided.
  generalize dependent (provided u). intros p Hsome. cbn.
  rewrite bool_decide_eq_false_2 by (rewrite length_imap; by destruct p).
  fold (update_statement p).
  split; [|split].
  - by destruct (env_query env _ _), (env_end env) as [[]|e2].
  - rewrite length_app, length_fmap. cbn. lia.
  - intros ->. by destruct (env_query env _ _).
Qed.


(** ** The routes *)

Ltac route_tac :=
  unfold api_try_catch, api_try_finally, api_bind, client_connect,
    client_query, client_end, perform, body_of, api_ret, api_throw,
    console_error, console_log_line, getenv, calls_create;
  cbn.

(** X16. A PATCH of a campaign whose body provides none of the nine
    fields that can be updated is answered 404 'Campaign not found'
    although no statement is sent to the database: the client is opened
    and closed and the campaign is never looked up, so the answer is the
    same whether the campaign exists or not. *)
Theorem X16_patch_without_fields_is_not_found (idParam : jsstring)
  (u : CampaignUpdates) (env : Env) :
  isNaN (Number idParam) = false →
  provided u = [] →
  env_connect env = Returned tt →
  env_end env = Returned tt →
  patch_campaign idParam (Some u) env
  = ([OpConnect; OpEnd],
     Returned (error_reply 404 "Campaign not found" None)).
Proof.
  intros Hid Hnone Hc He.
  unfold patch_campaign, updateCampaign. rewrite Hid. route_tac.
  rewrite Hc, builder_provided, Hnone, He. reflexivity.
Qed.

(** X17. DELETE of a campaign never throws and answers with one of four
    status codes.  An id that is not a number is answered 400 and the
    database is not touched.  Otherwise one DELETE statement with the id
    as its only parameter is sent (if the client could be opened), and
    the answer is 500, with the error, as soon as opening the client,
    the statement or closing the client fails (so also when the row has
    been deleted and only closing failed); 404 when the statement
    returns no row (or a row whose id is null); and 200 with the id of
    the first returned row otherwise. *)
Theorem X17_delete_route_status (idParam : jsstring) (env : Env) :
  let id := Number idParam in
  let answered := env_query env DELETE_CAMPAIGN [VNum id] in
  ∃ ops reply,
    delete_campaign idParam env = (ops, Returned reply)
    ∧ if isNaN id then
        ops = [] ∧ reply = error_reply 400 "Invalid campaign ID" None
      else
        match store_failure env answered with
        | Some e =>
            ops = (deleteCampaign id env).1
                  ++ [OpConsoleError "Error deleting campaign:" e]
            ∧ reply = error_reply 500 "Failed to delete campaign" (Some e)
        | None =>
            ops = [OpConnect; OpQuery DELETE_CAMPAIGN [VNum id]; OpEnd]
            ∧ ∃ rows, answered = Returned rows
              ∧ reply = match rows with
                        | [] => error_reply 404 "Campaign not found" None
                        | row :: _ =>
                            if is_null (row_get row "id")
                            then error_reply 404 "Campaign not found" None
                            else {| reply_code := 200;
                                    reply_body := DeletedBody
                                      "Campaign deleted successfully"
                                      (row_get row "id") |}
                        end
        end.
Proof.
  intros id answered. subst id answered.
  unfold delete_campaign, deleteCampaign, store_failure, DELETE_CAMPAIGN.
  destruct (isNaN (Number idParam)); route_tac; [by eexists _, _|].
  destruct (env_connect env) as [[]|e1]; cbn.
  - destruct (env_query env _ _) as [[|row rows]|e2]; cbn;
      destruct (env_end env) as [[]|e3]; cbn;
      try destruct (is_null (row_get row "id")) eqn:Hnull; cbn;
      eexists _, _; (split; [reflexivity|]);
      first [ by split
            | split; [reflexivity|]; eexists; split; [reflexivity|];
              cbn; by rewrite ?Hnull ].
  - destruct (env_end env) as [[]|e3]; cbn; by eexists _, _.
Qed.


Lemma or_value_stored (given fallback : Value) :
  or_value given fallback = stored given fallback.
Proof.
  unfold or_value, stored.
  destruct given as [| |[]|n|[|c s]]; cbn; try done.
Qed.

(** X18. POST of a campaign never throws.  It sends one INSERT with ten
    parameters: slug and name as given, and for each optional field the
    given value if it is truthy and otherwise NULL (description, prompt,
    voice, webhook), 0 (the two delays and the retries) or false (the
    calendar flag), so an omitted, empty, zero or false field is always
    written explicitly.  The answer is 201 with the first returned row
    when opening, statement and closing all succeed; otherwise 409 when
    the error carries the code 23505 (unique violation) and 500 with the
    error for any other failure, a missing body included. *)
Theorem X18_post_campaigns_status (body : option NewCampaign) (env : Env) :
  let answered :=
    match body with
    | Some c => env_query env INSERT_CAMPAIGN (insert_parameters c)
    | None => Thrown (TypeErrorOf "slug")
    end in
  ∃ ops reply,
    post_campaigns body env = (ops, Returned reply)
    ∧ List.filter is_query ops
      = match body, env_connect env with
        | Some c, Returned _ => [OpQuery INSERT_CAMPAIGN (insert_parameters c)]
        | _, _ => []
        end
    ∧ match store_failure env answered with
      | None =>
          ∃ rows, answered = Returned rows
            ∧ reply = {| reply_code := 201;
                         reply_body := CampaignBody (head rows) |}
      | Some e =>
          reply = if bool_decide (error_code e = Some (lit "23505"))
                  then error_reply 409
                         "Campaign with this slug already exists" None
                  else error_reply 500 "Failed to create campaign" (Some e)
      end.
Proof.
  intros answered. subst answered.
  unfold post_campaigns, createCampaign, store_failure, INSERT_CAMPAIGN,
    insert_parameters.
  destruct body as [c|]; rewrite <- ?or_value_stored; route_tac;
    destruct (env_connect env) as [[]|e1]; cbn;
    try destruct (env_query env _ _) as [rows|e2]; cbn;
    destruct (env_end env) as [[]|e3]; cbn;
    try case_bool_decide; cbn;
    eexists _, _; (split; [reflexivity|]); (split; [reflexivity|]);
    first [ reflexivity | by eexists ].
Qed.

(** X19. POST /calls/outbound touches nothing and answers 400 unless
    both [to] and [campaignId] are truthy.  Otherwise it looks the
    campaign up with [campaignId] as the parameter, and Twilio is asked
    to place a call only if that lookup, the closing of its client
    included, has succeeded and has returned a row: then exactly once,
    to the number given, from the configured number, with the TwiML URL
    of the server that carries the campaign id.  A lookup that fails is
    answered 500, one that finds nothing 404, a call that Twilio rejects
    500, and a call that is placed 200 with its sid and status.  A
    request without body makes the route itself throw. *)
Theorem X19_outbound_dials_only_known_campaigns (body : OutboundBody)
  (env : Env) :
  let to := out_to body in
  let campaignId := out_campaignId body in
  let answered := env_query env SELECT_CAMPAIGN [campaignId] in
  let from := TWILIO_PHONE_NUMBER env in
  let url := twiml_url env campaignId in
  let lookup := [OpConnect; OpQuery SELECT_CAMPAIGN [campaignId]; OpEnd] in
  calls_outbound None env = ([], Thrown (TypeErrorOf "to"))
  ∧ ∃ ops reply,
      calls_outbound (Some body) env = (ops, Returned reply)
      ∧ if negb (truthy_value to) || negb (truthy_value campaignId) then
          ops = []
          ∧ reply = error_reply 400
                      "Missing required fields: to, campaignId" None
        else
          match store_failure env answered with
          | Some e =>
              List.filter is_calls_create ops = []
              ∧ reply = error_reply 500 "Failed to initiate call" (Some e)
          | None =>
              ∃ rows, answered = Returned rows
                ∧ match rows with
                  | [] =>
                      ops = lookup
                      ∧ reply = error_reply 404 "Campaign not found" None
                  | _ :: _ =>
                      match env_calls_create env to from url with
                      | Returned call =>
                          ops = lookup ++
                            [ OpCallsCreate to from url;
                              OpConsoleLog
                                (lit "[Outbound] Call initiated to "
                                 ++ to_string to ++ lit ", SID: "
                                 ++ call_sid call) ]
                          ∧ reply = {| reply_code := 200;
                                       reply_body := CallBody (call_sid call)
                                                       (call_status call) |}
                      | Thrown e =>
                          ops = lookup ++
                            [ OpCallsCreate to from url;
                              OpConsoleError "[Outbound] Error:" e ]
                          ∧ reply = error_reply 500
                                      "Failed to initiate call" (Some e)
                      end
                  end
          end.
Proof.
  intros to campaignId answered from url lookup.
  subst to campaignId answered from url lookup.
  split; [reflexivity|].
  unfold calls_outbound, getCampaignById, store_failure, SELECT_CAMPAIGN,
    twiml_url.
  route_tac.
  destruct (negb (truthy_value (out_to body))
            || negb (truthy_value (out_campaignId body))); cbn;
    [by eexists _, _|].
  destruct (env_connect env) as [[]|e1]; cbn;
    try destruct (env_query env _ _) as [[|row rows]|e2]; cbn;
    destruct (env_end env) as [[]|e3]; cbn;
    try destruct (env_calls_create env _ _ _) as [call|e4]; cbn;
    eexists _, _; (split; [reflexivity|]);
    first [ by split | eexists; by split ].
Qed.


(** ** The two conversions *)

Lemma collect_settled (events : list StreamEvent) (c : Collector)
  (r : Result Buffer) :
  settled c = Some r →
  settled (foldl on_stream_event c events) = Some r.
Proof.
  revert c. induction events as [|ev events IH]; intros c Hc; [done|].
  cbn. apply IH. destruct ev; cbn; unfold settle; by rewrite ?Hc.
Qed.

Lemma collect_data (events : list StreamEvent) (c : Collector) :
  forallb is_data events = true →
  foldl on_stream_event c events
  = {| chunks := chunks c ++ data_of events; settled := settled c |}.
Proof.
  revert c. induction events as [|ev events IH]; intros c Hdata; cbn.
  - rewrite app_nil_r. by destruct c.
  - destruct ev; try done. cbn in Hdata. rewrite IH by done. cbn.
    by rewrite <- app_assoc.
Qed.

Lemma collect_verdict (chunked : list StreamEvent) (ev : StreamEvent)
  (rest : list StreamEvent) :
  forallb is_data chunked = true → is_data ev = false →
  collect (chunked ++ ev :: rest) = Some (verdict (data_of chunked) ev).
Proof.
  intros Hdata Hev. unfold collect.
  rewrite foldl_app, (collect_data chunked) by done. cbn.
  apply collect_settled. by destruct ev.
Qed.

(** X20. The promise that [mulawToWav] or [mp3ToMulaw] returns is
    settled by the first event of the ffmpeg job that is not a chunk of
    output, and by nothing after it: if that event is the end of the
    stream the promise is fulfilled with the concatenation, in order of
    arrival, of exactly the chunks emitted before it; if it is an error
    of the stream or of ffmpeg the promise is rejected with that error
    and the chunks are discarded.  As long as the job emits nothing but
    chunks the promise stays pending: the conversions have no timeout. *)
Theorem X20_conversion_settles_on_first_verdict
  (ffmpeg : FfmpegJob → list StreamEvent) (buffer : Buffer)
  (chunked rest : list StreamEvent) (ev : StreamEvent) :
  forallb is_data chunked = true →
  (ffmpeg (wav_job buffer) = chunked → mulawToWav ffmpeg buffer = None)
  ∧ (ffmpeg (mulaw_job buffer) = chunked → mp3ToMulaw ffmpeg buffer = None)
  ∧ (is_data ev = false →
     (ffmpeg (wav_job buffer) = chunked ++ ev :: rest →
      mulawToWav ffmpeg buffer = Some (verdict (data_of chunked) ev))
     ∧ (ffmpeg (mulaw_job buffer) = chunked ++ ev :: rest →
        mp3ToMulaw ffmpeg buffer = Some (verdict (data_of chunked) ev))).
Proof.
  intros Hdata. unfold mulawToWav, mp3ToMulaw.
  split; [|split; [|split]].
  - intros ->. unfold collect. by rewrite collect_data.
  - intros ->. unfold collect. by rewrite collect_data.
  - intros ->. by apply collect_verdict.
  - intros ->. by apply collect_verdict.
Qed.


(** ** Every call is greeted once *)

Lemma greetings_same (session : ref) (w w' : World) :
  invoked w' = invoked w → greetings_of session w' = greetings_of session w.
Proof. unfold greetings_of. by intros ->. Qed.

Lemma greetings_snoc (session : ref) (w w' : World) (i : Invocation) :
  invoked w' = invoked w ++ [i] →
  greetings_of session w'
  = greetings_of session w + (if is_greeting_of session i then 1 else 0).
Proof.
  unfold greetings_of. intros ->. rewrite List.filter_app, length_app. cbn.
  by destruct (is_greeting_of session i).
Qed.

Lemma greeted_same (w w' : World) :
  invoked w' = invoked w → dom (heap w') = dom (heap w) →
  greeted_once w → greeted_once w'.
Proof.
  intros Hi Hd H session. rewrite (greetings_same session w w' Hi), Hd.
  apply H.
Qed.

Lemma greeted_pipeline_call (w w' : World) (session : ref) (blob : Buffer) :
  invoked w' = invoked w ++ [InvPipeline session blob] →
  dom (heap w') = dom (heap w) →
  greeted_once w → greeted_once w'.
Proof.
  intros Hi Hd H r. rewrite (greetings_snoc r w w' _ Hi), Hd. cbn.
  rewrite Nat.add_0_r. apply H.
Qed.

Lemma greeted_registers (o : Owner) (w : World) (r : Res unit) :
  registers w r → greeted_once w → greeted_once (park o r).1.
Proof.
  destruct r as [| | |[session|] X c k [[] w'| | |]]; try done.
  intros (-> & (conn & startData & prompt & voice & w0 & Hlog & ->) & _) H.
  change (greeted_once (registered conn startData prompt voice w0)).
  intros r.
  assert (Hheap : heap w0 = heap w) by (by destruct Hlog as [->|[l ->]]).
  assert (Hinv : invoked w0 = invoked w) by (by destruct Hlog as [->|[l ->]]).
  pose proof (is_fresh (dom (heap w))) as Hfresh.
  rewrite (greetings_snoc r w
    (registered conn startData prompt voice w0) (InvGreeting (fresh (dom (heap w)))))
    by (cbn; by rewrite Hheap, Hinv).
  rewrite (H r). cbn. rewrite Hheap, dom_insert_L.
  destruct (decide (fresh (dom (heap w)) = r)) as [<-|Hne].
  - rewrite (bool_decide_eq_false_2 (fresh (dom (heap w)) ∈ dom (heap w)))
      by done.
    rewrite bool_decide_eq_true_2 by done.
    rewrite bool_decide_eq_true_2; [done|].
    apply elem_of_union_l, elem_of_singleton_2. done.
  - rewrite (bool_decide_eq_false_2 (fresh (dom (heap w)) = r)) by done.
    rewrite Nat.add_0_r.
    rewrite (bool_decide_ext (r ∈ {[fresh (dom (heap w))]} ∪ dom (heap w))
               (r ∈ dom (heap w))); [done|].
    rewrite elem_of_union, elem_of_singleton.
    split; [intros [Heq|Hin]; [by destruct Hne|done]|by right].
Qed.

Lemma greeted_handled (w : World) (r : Res unit) :
  handled w r → greeted_once w → greeted_once (park Handler r).1.
Proof.
  intros [|e|sid|stopData|sid session chunk Hsid Hlen
    |sid session chunk Hsid Hlen Hbusy|sid session chunk k Hsid Hlen Hbusy Hk
    |r' Hr|id l k Hk] H; cbn;
    try (by apply (greeted_same w); cbn; rewrite ?dom_alter_L).
  - eapply (greeted_pipeline_call w); [|cbn; by rewrite !dom_alter_L|done].
    reflexivity.
  - eapply (greeted_pipeline_call w); [|cbn; by rewrite !dom_alter_L|done].
    reflexivity.
  - by apply (greeted_registers Handler w).
Qed.

Lemma greeted_step (sys : System) (a : Action) :
  Inv sys → greeted_once (sys_world sys) →
  greeted_once (sys_world (step sys a)).
Proof.
  intros HI H.
  destruct a as [connection q message|i answer|connection]; simpl.
  - pose proof (greeted_handled _ _ (on_message_handled connection q message
      (sys_world sys) (inv_registry _ HI)) H) as H'.
    by destruct (park Handler (on_message connection q message (sys_world sys))).
  - destruct (sys_tasks sys !! i) as [t|] eqn:Hi; [|done].
    set (r := task_k t (answer _ (task_call t)) (sys_world sys)).
    assert (H' : greeted_once (park (task_owner t) r).1);
      [|by destruct (park (task_owner t) r)].
    destruct (is_handler t) eqn:Hh.
    + pose proof (Forall_lookup_1 _ _ _ _ (inv_tasks _ HI) Hi) as Hreg.
      unfold task_ok in Hreg. unfold is_handler in Hh.
      destruct (task_owner t); [|done].
      apply (greeted_registers Handler (sys_world sys)); [apply Hreg|done].
    + destruct (settle_quiet sys i t (answer _ (task_call t)) HI Hi Hh)
        as (session & Hq & _).
      eapply greeted_same; [apply (quiet_invoked _ _ _ Hq)| |done].
      apply (quiet_dom _ _ _ Hq).
  - by apply (greeted_same (sys_world sys)).
Qed.

(** X21. In every reachable state, [sendGreeting] has been called
    exactly once for every session object that exists and never for
    anything else: each start greets the object it creates (a repeated
    start for the same stream creates, and greets, a new object), and no
    later event greets a session again. *)
Theorem X21_every_session_is_greeted_once (sys : System) (session : ref) :
  reachable sys →
  greetings_of session (sys_world sys)
  = if bool_decide (session ∈ dom (heap (sys_world sys))) then 1 else 0.
Proof.
  intros [actions ->]. revert session.
  induction actions as [|a actions IH] using rev_ind.
  - intros session. cbn. by rewrite dom_empty_L, bool_decide_eq_false_2.
  - rewrite run_snoc. apply greeted_step; [|exact IH]. apply Inv_run, Inv_init.
Qed.

(** ** What the blob is made of *)

Lemma inbound_chunks_length (sid : jsstring) (actions : list Action) :
  length (inbound_chunks sid actions) = inbound_frames sid actions.
Proof.
  induction actions as [|a actions IH]; [done|].
  cbn [inbound_chunks inbound_frames]. unfold inbound_for.
  destruct (media_for sid a) as [m|]; [|done].
  case_bool_decide; cbn; by rewrite IH.
Qed.

Lemma feed_step_chunks (sid : jsstring) (session : ref) (sys : System)
  (a : Action) (rest : list Action) :
  serving sid session sys →
  background a = true ∨ is_Some (media_for sid a) →
  serving sid session (step sys a)
  ∧ match inbound_chunks sid (a :: rest) with
    | chunk :: chunks =>
        inbound_for sid a = true → chunks = inbound_chunks sid rest →
        if bool_decide (FLUSH_THRESHOLD ≤ length (buffered sys session) + 1)
        then buffered (step sys a) session = []
             ∧ invoked (sys_world (step sys a)) = invoked (sys_world sys)
                 ++ [InvPipeline session
                       (concat (buffered sys session ++ [chunk]))]
        else buffered (step sys a) session = buffered sys session ++ [chunk]
             ∧ invoked (sys_world (step sys a)) = invoked (sys_world sys)
    | [] => True
    end
  ∧ (inbound_for sid a = false →
     inbound_chunks sid (a :: rest) = inbound_chunks sid rest
     ∧ buffered (step sys a) session = buffered sys session
     ∧ invoked (sys_world (step sys a)) = invoked (sys_world sys))
  ∧ (inbound_for sid a = true →
     ∃ chunk, inbound_chunks sid (a :: rest)
              = chunk :: inbound_chunks sid rest).
Proof.
  intros Hserv [Hbg|[m Hm]].
  - destruct (background_step sid session sys a Hserv Hbg) as (H & Hbuf & Hinv).
    assert (Hnone : media_for sid a = None) by (by destruct a).
    assert (Hin : inbound_for sid a = false)
      by (unfold inbound_for; by rewrite Hnone).
    split; [done|]. cbn [inbound_chunks]. rewrite Hnone, Hin.
    split; [by destruct (inbound_chunks sid rest)|]. by split.
  - destruct (frame_step sid session sys a m Hserv Hm) as (H & Heff).
    split; [done|]. cbn [inbound_chunks]. unfold inbound_for.
    rewrite Hm. unfold frame_effect in Heff.
    case_bool_decide as Htrack.
    + split; [|split; [done|by eexists]]. intros _ _. exact Heff.
    + split; [by destruct (inbound_chunks sid rest)|].
      split; [|done]. intros _. by rewrite Heff.
Qed.

Lemma feed_chunks_below (sid : jsstring) (session : ref)
  (actions : list Action) :
  ∀ sys, serving sid session sys → feed sid actions →
    length (buffered sys session) + inbound_frames sid actions
      < FLUSH_THRESHOLD →
    buffered (run sys actions) session
    = buffered sys session ++ inbound_chunks sid actions
    ∧ invoked (sys_world (run sys actions)) = invoked (sys_world sys).
Proof.
  induction actions as [|a actions IH]; intros sys Hserv Hfeed Hlt.
  { cbn. by rewrite app_nil_r. }
  apply Forall_cons in Hfeed as [Ha Hfeed].
  destruct (feed_step_chunks sid session sys a actions Hserv Ha)
    as (Hserv' & Hin & Hout & Hsome).
  change (run sys (a :: actions)) with (run (step sys a) actions).
  cbn [inbound_frames] in Hlt.
  destruct (inbound_for sid a) eqn:Hfor.
  - destruct (Hsome eq_refl) as [chunk Hchunks]. rewrite Hchunks in Hin |- *.
    specialize (Hin eq_refl eq_refl).
    rewrite bool_decide_eq_false_2 in Hin by lia.
    destruct Hin as [Hbuf Hinv].
    destruct (IH _ Hserv' Hfeed) as [-> ->].
    { rewrite Hbuf, length_app. cbn. lia. }
    rewrite Hbuf, Hinv. by rewrite <- app_assoc.
  - destruct (Hout eq_refl) as (-> & Hbuf & Hinv).
    destruct (IH _ Hserv' Hfeed) as [-> ->]; [rewrite Hbuf; lia|].
    by rewrite Hbuf, Hinv.
Qed.

Lemma feed_chunks_fill (sid : jsstring) (session : ref)
  (actions : list Action) :
  ∀ sys, serving sid session sys → feed sid actions →
    0 < inbound_frames sid actions →
    length (buffered sys session) + inbound_frames sid actions
      = FLUSH_THRESHOLD →
    buffered (run sys actions) session = []
    ∧ invoked (sys_world (run sys actions))
      = invoked (sys_world sys)
        ++ [InvPipeline session
              (concat (buffered sys session ++ inbound_chunks sid actions))].
Proof.
  induction actions as [|a actions IH]; intros sys Hserv Hfeed Hpos Hsum;
    [cbn in Hpos; lia|].
  apply Forall_cons in Hfeed as [Ha Hfeed].
  destruct (feed_step_chunks sid session sys a actions Hserv Ha)
    as (Hserv' & Hin & Hout & Hsome).
  change (run sys (a :: actions)) with (run (step sys a) actions).
  cbn [inbound_frames] in Hpos, Hsum.
  destruct (inbound_for sid a) eqn:Hfor.
  - destruct (Hsome eq_refl) as [chunk Hchunks]. rewrite Hchunks in Hin |- *.
    specialize (Hin eq_refl eq_refl).
    case_bool_decide as Hthr.
    + destruct Hin as [Hbuf Hinv].
      assert (Hnone : inbound_frames sid actions = 0) by lia.
      destruct (feed_chunks_below sid session actions _ Hserv' Hfeed)
        as [-> ->].
      { rewrite Hbuf, Hnone. unfold FLUSH_THRESHOLD. cbn. lia. }
      rewrite Hbuf, Hinv.
      assert (inbound_chunks sid actions = []) as ->.
      { apply length_zero_iff_nil. by rewrite inbound_chunks_length. }
      done.
    + destruct Hin as [Hbuf Hinv].
      destruct (IH _ Hserv' Hfeed) as [-> ->].
      { lia. }
      { rewrite Hbuf, length_app. cbn. lia. }
      rewrite Hbuf, Hinv. by rewrite <- app_assoc.
  - destruct (Hout eq_refl) as (-> & Hbuf & Hinv).
    destruct (IH _ Hserv' Hfeed) as [-> ->]; [lia|rewrite Hbuf; lia|].
    by rewrite Hbuf, Hinv.
Qed.

(** X22. For a sequence of media events addressed to a registered
    stream (with other steps of the event loop in between): as long as
    the threshold is not reached, the buffer of the session is what it
    held before followed by the decoded payloads of the inbound frames,
    one chunk per frame, in order of arrival, and nothing is handed to
    the pipeline; and when the frames fill the buffer exactly, the blob
    handed to [processAudioPipeline] is the concatenation of those same
    chunks in that order, and the buffer is left empty.  No chunk is
    lost, duplicated or reordered on the way into a blob. *)
Theorem X22_blob_is_the_audio_in_order (sid : jsstring) (session : ref)
  (sys : System) (actions : list Action) :
  reachable sys → no_pending_start sys →
  activeCalls (sys_world sys) !! sid = Some session →
  feed sid actions →
  let before := buffered sys session in
  let chunks := inbound_chunks sid actions in
  let after := run sys actions in
  length chunks = inbound_frames sid actions
  ∧ (length before + length chunks < FLUSH_THRESHOLD →
     buffered after session = before ++ chunks
     ∧ invoked (sys_world after) = invoked (sys_world sys))
  ∧ (0 < length chunks → length before + length chunks = FLUSH_THRESHOLD →
     buffered after session = []
     ∧ invoked (sys_world after)
       = invoked (sys_world sys)
         ++ [InvPipeline session (concat (before ++ chunks))]).
Proof.
  intros Hreach Hno Hreg Hfeed before chunks after. subst before chunks after.
  assert (Hserv : serving sid session sys)
    by (split; [by apply reachable_Inv|done..]).
  rewrite inbound_chunks_length.
  split; [done|]. split.
  - by apply feed_chunks_below.
  - by apply feed_chunks_fill.
Qed.


(** ** What a history holds *)

Lemma tidy_same (w w' : World) : heap w' = heap w → tidy w → tidy w'.
Proof. intros Hh H r s. rewrite Hh. apply H. Qed.

Lemma tidy_keeps_dom (w w' : World) :
  keeps w w' → dom (heap w') = dom (heap w) → tidy w → tidy w'.
Proof.
  intros [Hheap _] Hdom H r s' Hs'.
  assert (r ∈ dom (heap w)) as [s Hs]%elem_of_dom.
  { rewrite <- Hdom. by eapply elem_of_dom_2. }
  destruct (Hheap r s Hs) as (s2 & Hs2 & _ & turns & Hturns & Hok).
  simplify_eq. rewrite Hturns. apply Forall_app. split; [by eapply H|done].
Qed.

Lemma tidy_registers (o : Owner) (w : World) (r : Res unit) :
  registers w r → tidy w → tidy (park o r).1.
Proof.
  destruct r as [| | |[session|] X c k [[] w'| | |]]; try done.
  intros (-> & (conn & startData & prompt & voice & w0 & Hlog & ->) & _) H.
  assert (Hheap : heap w0 = heap w) by (by destruct Hlog as [->|[l ->]]).
  intros r s. simpl. rewrite Hheap, lookup_insert. case_decide.
  - intros [= <-]. simpl. apply List.Forall_nil.
  - apply H.
Qed.

Lemma tidy_alter (session : ref) (f : CallSession → CallSession) (w : World) :
  (∀ s, conversationHistory (f s) = conversationHistory s) →
  tidy w → tidy (set_heap (alter f session) w).
Proof.
  intros Hf H r s'. simpl. destruct (decide (r = session)) as [->|Hne].
  - rewrite lookup_alter_eq.
    destruct (heap w !! session) as [s|] eqn:Hs; simpl; [|done].
    intros [= <-]. rewrite Hf. by eapply H.
  - rewrite lookup_alter_ne by done. apply H.
Qed.

Lemma tidy_flushed (session : ref) (chunk : Buffer) (w : World) :
  tidy w → tidy (flushed session chunk w).
Proof.
  intros H.
  apply (tidy_same (set_heap (alter (with_audioBuffer []) session)
    (set_heap (alter (push_chunk chunk) session) w))); [done|].
  apply tidy_alter; [done|]. by apply tidy_alter.
Qed.

Lemma tidy_handled (w : World) (r : Res unit) :
  handled w r → tidy w → tidy (park Handler r).1.
Proof.
  intros [|e|sid|stopData|sid session chunk Hsid Hlen
    |sid session chunk Hsid Hlen Hbusy|sid session chunk k Hsid Hlen Hbusy Hk
    |r' Hr|id l k Hk] H; simpl;
    try (by apply (tidy_same w)).
  - by apply tidy_alter.
  - by apply tidy_flushed.
  - apply tidy_alter; [done|]. by apply tidy_flushed.
  - by apply (tidy_registers Handler w).
Qed.

Lemma tidy_step (sys : System) (a : Action) :
  Inv sys → Orderly sys → tidy (sys_world sys) →
  tidy (sys_world (step sys a)).
Proof.
  intros HI HO H.
  destruct a as [connection q message|i answer|connection]; simpl.
  - pose proof (tidy_handled _ _ (on_message_handled connection q message
      (sys_world sys) (inv_registry _ HI)) H) as H'.
    by destruct (park Handler (on_message connection q message (sys_world sys))).
  - destruct (sys_tasks sys !! i) as [t|] eqn:Hi; [|done].
    pose proof (Forall_lookup_1 _ _ _ _ HO Hi) as Hok.
    pose proof (Forall_lookup_1 _ _ _ _ (inv_tasks _ HI) Hi) as Hreg.
    unfold task_orderly in Hok. unfold task_ok in Hreg.
    set (r := task_k t (answer _ (task_call t)) (sys_world sys)) in *.
    assert (H' : tidy (park (task_owner t) r).1);
      [|by destruct (park (task_owner t) r)].
    destruct (task_owner t) as [|[session|session audio]] eqn:Howner.
    + apply (tidy_registers Handler (sys_world sys)); [apply Hreg|done].
    + destruct Hok as [Hin Hok].
      specialize (Hok (answer _ (task_call t)) (sys_world sys)).
      fold r in Hok. unfold orderly_run in Hok.
      destruct r as [[] w'|e w'|X c k w'|]; simpl in Hok |- *; try done;
        destruct Hok as [Hseg _];
        (apply (tidy_keeps_dom (sys_world sys));
         [by destruct (orderly_advances session _ _ Hin Hseg)
         |apply (quiet_dom _ _ _ (orderly_quiet _ _ _ Hseg))|done]).
    + destruct Hok as [Hin Hok].
      specialize (Hok (answer _ (task_call t)) (sys_world sys)).
      fold r in Hok. unfold orderly_run in Hok.
      destruct r as [[] w'|e w'|X c k w'|]; simpl in Hok |- *; try done;
        destruct Hok as [Hseg _];
        (apply (tidy_keeps_dom (sys_world sys));
         [by destruct (orderly_advances session _ _ Hin Hseg)
         |apply (quiet_dom _ _ _ (orderly_quiet _ _ _ Hseg))|done]).
  - by apply (tidy_same (sys_world sys)).
Qed.

(** X23. In every reachable state, every turn in the conversation
    history of a session is a user turn or an assistant turn, never a
    system message (the system prompt is added to each request and is
    not stored), and the text of every user turn is non-empty and has no
    white space at either end: a transcript that is empty or blank never
    becomes a turn. *)
Theorem X23_history_holds_real_turns (sys : System) (session : ref)
  (s : CallSession) (m : ChatMessage) :
  reachable sys →
  heap (sys_world sys) !! session = Some s →
  m ∈ conversationHistory s →
  role m ≠ system
  ∧ (role m = user → content m ≠ [] ∧ trim (content m) = content m).
Proof.
  intros [actions ->]. revert session s m.
  assert (H : tidy (sys_world (run init actions))).
  { induction actions as [|a actions IH] using rev_ind.
    - intros r s. simpl. by rewrite lookup_empty.
    - rewrite run_snoc.
      apply tidy_step; [apply Inv_run, Inv_init| |exact IH].
      apply reachable_Orderly. by eexists. }
  intros session s m Hs Hm.
  exact (proj1 (Forall_forall _ _) (H session s Hs) m Hm).
Qed.


(** ** The campaign routes, as a whole *)

Ltac codes_tac :=
  eexists _, _; (split; [reflexivity|]);
  split;
  [ cbn; first
      [ by left
      | by (right; unfold one_connection;
            match goal with H : env_connect _ = _ |- _ => rewrite H end;
            one_connection_tac) ]
  | cbn; repeat first [ done | left; done | right ] ].

(** X24. The four campaign routes never throw, whatever the request
    and whatever the database answers: every failure inside them is
    turned into a reply.  GET /campaigns answers 200 or 500; POST
    /campaigns 201, 409 or 500; DELETE and PATCH /campaigns/:id 200, 400,
    404 or 500.  Each of them calls the store at most once, and any
    database client it has opened has been closed when it replies. *)
Theorem X24_campaign_routes_never_throw (env : Env) (idParam : jsstring)
  (campaign : option NewCampaign) (updates : option CampaignUpdates) :
  (∃ ops reply, get_campaigns env = (ops, Returned reply)
     ∧ at_most_one_connection env ops
     ∧ (reply_code reply = 200 ∨ reply_code reply = 500))
  ∧ (∃ ops reply, post_campaigns campaign env = (ops, Returned reply)
       ∧ at_most_one_connection env ops
       ∧ (reply_code reply = 201 ∨ reply_code reply = 409
          ∨ reply_code reply = 500))
  ∧ (∃ ops reply, delete_campaign idParam env = (ops, Returned reply)
       ∧ at_most_one_connection env ops
       ∧ (reply_code reply = 200 ∨ reply_code reply = 400
          ∨ reply_code reply = 404 ∨ reply_code reply = 500))
  ∧ (∃ ops reply, patch_campaign idParam updates env = (ops, Returned reply)
       ∧ at_most_one_connection env ops
       ∧ (reply_code reply = 200 ∨ reply_code reply = 400
          ∨ reply_code reply = 404 ∨ reply_code reply = 500)).
Proof.
  unfold at_most_one_connection.
  split; [|split; [|split]].
  - unfold get_campaigns, getCampaigns. route_tac.
    destruct (env_connect env) as [[]|e1] eqn:Hc; cbn;
      try destruct (env_query env _ _) as [rows|e2]; cbn;
      destruct (env_end env) as [[]|e3]; cbn; codes_tac.
  - unfold post_campaigns, createCampaign.
    destruct campaign as [c|]; route_tac;
      destruct (env_connect env) as [[]|e1] eqn:Hc; cbn;
      try destruct (env_query env _ _) as [rows|e2]; cbn;
      destruct (env_end env) as [[]|e3]; cbn;
      try case_bool_decide; cbn; codes_tac.
  - unfold delete_campaign, deleteCampaign.
    destruct (isNaN (Number idParam)); route_tac; [codes_tac|].
    destruct (env_connect env) as [[]|e1] eqn:Hc; cbn;
      try destruct (env_query env _ _) as [[|row rows]|e2]; cbn;
      destruct (env_end env) as [[]|e3]; cbn;
      try destruct (is_null (row_get row "id")); cbn; codes_tac.
  - unfold patch_campaign, updateCampaign.
    destruct (isNaN (Number idParam)); route_tac; [codes_tac|].
    destruct updates as [u|]; cbn;
      destruct (env_connect env) as [[]|e1] eqn:Hc; cbn;
      try (destruct (push_field _ _ _) as [[fields values] k];
           case_bool_decide; cbn);
      try destruct (env_query env _ _) as [[|row rows]|e2]; cbn;
      destruct (env_end env) as [[]|e3]; cbn; codes_tac.
Qed.

End Program.

Arguments VUndefined {num}.
Arguments VNull {num}.
Arguments VBool {num} b.
Arguments VNum {num} n.
Arguments VStr {num} s.
Arguments OpConnect {num}.
Arguments OpQuery {num} text values.
Arguments OpEnd {num}.
Arguments OpCallsCreate {num} to from url.
Arguments OpConsoleError {num} tag e.
Arguments OpConsoleLog {num} line.
Arguments ErrorBody {num} error details.
Arguments CampaignsBody {num} campaigns.
Arguments CampaignBody {num} campaign.
Arguments DeletedBody {num} message id.
Arguments CallBody {num} callSid status.
Arguments reply_code {num} r.
Arguments reply_body {num} r.
Arguments env_connect {num} e.
Arguments env_query {num} e text values.
Arguments env_end {num} e.
Arguments env_calls_create {num} e to from url.
Arguments SERVER_URL {num} e.
Arguments TWILIO_PHONE_NUMBER {num} e.
Arguments provided {num} u.
Arguments update_statement {num} assigned.
Arguments updateCampaign {num} id updates env.
Arguments error_reply {num} code error details.

(** * Concrete scenarios *)

Module Scenario.

(** A stand-in for the base64 decoder: one byte per character. *)
Definition decode (payload : jsstring) : Buffer :=
  replicate (length payload) Byte.x7f.

Definition voice : option jsstring := Some (lit "voice-1").

Definition event (name : string) : Data :=
  {| data_event := Some (lit name); data_start := None; data_media := None;
     data_stop := None; data_streamSid := None |}.

Definition start_of (sid cid : string) : Data :=
  {| data_event := Some (lit "start");
     data_start := Some {| start_callSid := Some (lit cid);
                           start_streamSid := lit sid |};
     data_media := None; data_stop := None; data_streamSid := None |}.

Definition media_of (sid track : string) : Data :=
  {| data_event := Some (lit "media"); data_start := None;
     data_media := Some {| media_track := lit track;
                           media_payload := lit "fw==" |};
     data_stop := None; data_streamSid := Some (lit sid) |}.

Definition stop_of (sid cid : string) : Data :=
  {| data_event := Some (lit "stop"); data_start := None; data_media := None;
     data_stop := Some {| stop_callSid := Some (lit cid);
                          stop_streamSid := lit sid |};
     data_streamSid := None |}.

Definition deliver (d : Data) : Action := Deliver 0 None (Json (JObject d)).

(** Every collaborator answers; the synthesis answers with status 500. *)
Definition answers : Answer :=
  λ X c,
    match c in Call X return Result X with
    | GetCampaignById _ => Resolved None
    | ChatCompletionsCreate _ => Resolved (Some (lit "Hola"))
    | MulawToWav b => Resolved b
    | TranscriptionsCreate _ => Resolved (lit "hola")
    | FetchTextToSpeech _ _ => Resolved {| status := 500 |}
    | ResponseText _ => Resolved (lit "quota exceeded")
    | ResponseArrayBuffer _ => Resolved []
    | Mp3ToMulaw b => Resolved b
    end.

(** As [answers], but the caller said nothing. *)
Definition answers_silence : Answer :=
  λ X c,
    match c in Call X return Result X with
    | TranscriptionsCreate _ => Resolved (lit "  ")
    | c => answers _ c
    end.

(** As [answers], but the campaign lookup is rejected. *)
Definition answers_no_db : Answer :=
  λ X c,
    match c in Call X return Result X with
    | GetCampaignById _ => Rejected (EngineError 1)
    | c => answers _ c
    end.

(** As [answers], but the synthesis succeeds. *)
Definition answers_ok : Answer :=
  λ X c,
    match c in Call X return Result X with
    | FetchTextToSpeech _ _ => Resolved {| status := 200 |}
    | c => answers _ c
    end.

Definition go : System → list Action → System := run decode voice.

(** The call S1 has started; its greeting waits for the chat completion. *)
Definition started : System := go init [deliver (start_of "S1" "C1")].

(** 149 inbound frames later. *)
Definition almost : System :=
  go started (replicate 149 (deliver (media_of "S1" "inbound"))).

(** The 150th frame has flushed the buffer and a run is in flight. *)
Definition running : System :=
  go almost [deliver (media_of "S1" "inbound")].

(** The run has gone through decoding, transcription, chat completion,
    the failed synthesis request and the reading of the error body. *)
Definition failed : System :=
  go running (replicate 5 (Settle 1 answers)).

(** The call S1 has started and its socket throws on send. *)
Definition unplugged : System := go started [SocketBreaks 0].


(** As [answers_ok], but the decoding of the audio is rejected. *)
Definition answers_no_wav : Answer :=
  λ X c,
    match c in Call X return Result X with
    | MulawToWav _ => Rejected (EngineError 2)
    | c => answers_ok _ c
    end.

(** As [answers_ok], but the chat completion is rejected. *)
Definition answers_no_chat : Answer :=
  λ X c,
    match c in Call X return Result X with
    | ChatCompletionsCreate _ => Rejected (EngineError 3)
    | c => answers_ok _ c
    end.

(** As [answers_ok], but the campaign is found: it has a prompt and an
    empty voice. *)
Definition answers_campaign : Answer :=
  λ X c,
    match c in Call X return Result X with
    | GetCampaignById _ =>
        Resolved (Some {| campaign_prompt := Some (lit "Vendi assicurazioni.");
                          voice_id := Some [] |})
    | c => answers_ok _ c
    end.

(** The greeting of S1 has gone through all its stages and has been
    sent. *)
Definition greeted : System := go started (replicate 4 (Settle 0 answers_ok)).

(** While the run is in flight, 149 more inbound frames have arrived. *)
Definition backlog : System :=
  go running (replicate 149 (deliver (media_of "S1" "inbound"))).

(** Numbers, for the routes: the natural numbers and NaN. *)
Definition jsnum : Type := option nat.

Definition digit (c : N) : option nat :=
  if ((48 <=? c) && (c <=? 57))%N then Some (N.to_nat (c - 48)) else None.

(** A stand-in for [Number(string)] on strings of decimal digits. *)
Definition to_number (s : jsstring) : jsnum :=
  foldl (λ acc c, n ← acc; d ← digit c; Some (10 * n + d)) (Some 0) s.

Definition is_nan (n : jsnum) : bool :=
  match n with None => true | Some _ => false end.

Definition nonzero (n : jsnum) : bool :=
  match n with Some (S _) => true | _ => false end.

Definition show (n : jsnum) : jsstring :=
  match n with Some k => lit (pretty k) | None => lit "NaN" end.

(** A database that holds the campaign 7 and answers every statement
    with its row, and a Twilio that places every call. *)
Definition db : Env jsnum :=
  {| env_connect := Returned tt;
     env_query := λ _ _, Returned [ [ (lit "id", VNum (Some 7)) ] ];
     env_end := Returned tt;
     env_calls_create := λ _ _ _,
       Returned {| call_sid := lit "CA1"; call_status := lit "queued" |};
     SERVER_URL := Some (lit "https://example.org");
     TWILIO_PHONE_NUMBER := Some (lit "+390000000") |}.

(** A PATCH body that renames the campaign, clears its description and
    sets the retries. *)
Definition renaming : CampaignUpdates jsnum :=
  {| upd_name := VStr (lit "Nuova");
     upd_description := VNull;
     upd_campaign_prompt := VUndefined;
     upd_voice_id := VUndefined;
     upd_initial_delay := VUndefined;
     upd_max_retries := VNum (Some 5);
     upd_retry_interval := VUndefined;
     upd_webhook_url := VUndefined;
     upd_calendar_connected := VUndefined |}.

(** A PATCH body without any of the fields that can be updated. *)
Definition nothing : CampaignUpdates jsnum :=
  {| upd_name := VUndefined;
     upd_description := VUndefined;
     upd_campaign_prompt := VUndefined;
     upd_voice_id := VUndefined;
     upd_initial_delay := VUndefined;
     upd_max_retries := VUndefined;
     upd_retry_interval := VUndefined;
     upd_webhook_url := VUndefined;
     upd_calendar_connected := VUndefined |}.

(** An ffmpeg that emits two chunks, ends, and then reports an error. *)
Definition two_chunks (job : FfmpegJob) : list StreamEvent :=
  [ StreamData [Byte.x01]; StreamData [Byte.x02; Byte.x03]; StreamEnd;
    FfmpegError (EngineError 4) ].

(** A start for [sid] whose body has no [callSid]. *)
Definition nameless_start (sid : string) : Data :=
  {| data_event := Some (lit "start");
     data_start := Some {| start_callSid := None;
                           start_streamSid := lit sid |};
     data_media := None; data_stop := None; data_streamSid := None |}.

(** A frame that is not JSON. *)
Definition garbage : Action := Deliver 0 None BadJson.





End Scenario.

(** * Counterexamples and witnesses *)

Import Scenario.

Lemma started_reachable : reachable decode voice started.
Proof. exists [deliver (start_of "S1" "C1")]. reflexivity. Qed.

Lemma running_reachable : reachable decode voice running.
Proof.
  exists ([deliver (start_of "S1" "C1")]
          ++ replicate 149 (deliver (media_of "S1" "inbound"))
          ++ [deliver (media_of "S1" "inbound")]).
  unfold running, almost, started, go. rewrite !run_app. reflexivity.
Qed.

(** C2, counterexample.  The call S1 starts, 150 inbound frames arrive,
    and the run they trigger transcribes "hola", gets the reply "Hola"
    and then a 500 from the synthesis engine.  Nothing is sent and the
    flag is reset, but the history of the session now holds the user turn
    and the assistant turn, so the claim's "no assistant turn" fails. *)
Lemma C2_counterexample :
  ¬ failed_run_keeps_only_user_turn
      (sys_world almost) (sys_world failed) 0 (lit "hola").
Proof.
  intros (_ & _ & _ & H).
  apply (H {| role := assistant; content := lit "Hola" |}); [| |done].
  - assert (history (sys_world failed) 0
            = [ {| role := user; content := lit "hola" |};
                {| role := assistant; content := lit "Hola" |} ]) as ->
      by (vm_compute; reflexivity).
    apply list_elem_of_In. right. by left.
  - assert (history (sys_world almost) 0 = []) as ->
      by (vm_compute; reflexivity).
    apply not_elem_of_nil.
Qed.

(** C7, counterexample.  S1 is registered; a second start for S1 writes
    exactly what it writes when S1 is not registered. *)
Lemma C7_counterexample :
  ¬ logs_protocol_violation decode voice (lit "S1") started
      (deliver (start_of "S1" "C2")).
Proof. intros H. apply H. vm_compute. reflexivity. Qed.


(** C9, counterexample.  Three messages, each delivered after the start
    of S1.  One with the unknown event type "mark" writes nothing on the
    console.  A frame that is not JSON writes nothing either, and the
    error it raises is handled by nobody, which ends the process.  A
    start for S2 whose body has no [callSid] is not ignored: it registers
    a session under S2. *)
Lemma C9_counterexample :
  (¬ ignored_and_logged decode voice started (deliver (event "mark"))
   ∧ console_output started
       (step decode voice started (deliver (event "mark"))) = [])
  ∧ (¬ ignored_and_logged decode voice started garbage
     ∧ console_output started (step decode voice started garbage) = []
     ∧ exits decode voice started garbage)
  ∧ (¬ ignored_and_logged decode voice started
         (deliver (nameless_start "S2"))
     ∧ activeCalls (sys_world started) !! lit "S2" = None
     ∧ activeCalls
         (sys_world (step decode voice started
                       (deliver (nameless_start "S2")))) !! lit "S2"
       = Some 1).
Proof.
  assert (Hbad : exits decode voice started garbage).
  { unfold exits. vm_compute. discriminate. }
  assert (Hnew : activeCalls
    (sys_world (step decode voice started
                  (deliver (nameless_start "S2")))) !! lit "S2" = Some 1)
    by (vm_compute; reflexivity).
  assert (Hold : activeCalls (sys_world started) !! lit "S2" = None)
    by (vm_compute; reflexivity).
  repeat split; try done; try (vm_compute; reflexivity).
  - intros [H _]. apply H. vm_compute. reflexivity.
  - intros (_ & _ & _ & H). by apply Hbad.
  - intros (_ & _ & H & _). rewrite H, Hold in Hnew. discriminate Hnew.
Qed.

(** C1, witness: the session of S1 right after the flush (busy, one run in
    flight) and right after the start (idle). *)
Lemma C1_witness :
  (active_runs 0 (sys_tasks running) = 1
   ∧ processAudioPipeline 0 [] (sys_world running)
     = RetR tt (sys_world running))
  ∧ guarded 0 []
      (finish answers [] (processAudioPipeline 0 [] (sys_world started))).
Proof.
  split.
  - destruct (C1_busy_guard_spans_the_run decode voice running 0
      (deref (sys_world running) 0) running_reachable)
      as (H1 & _ & H3 & _); [vm_compute; reflexivity|].
    split.
    + rewrite H1. vm_compute. reflexivity.
    + apply H3. vm_compute. reflexivity.
  - destruct (C1_busy_guard_spans_the_run decode voice started 0
      (deref (sys_world started) 0) started_reachable)
      as (_ & _ & _ & H4); [vm_compute; reflexivity|].
    apply H4; [vm_compute; reflexivity|constructor].
Defined.

Lemma session_allocated (n : nat) :
  Forall (λ w', is_Some (heap w' !! 0)) (replicate n (sys_world started)).
Proof.
  apply Forall_replicate. vm_compute. eexists. reflexivity.
Qed.

(** C2, witness: a run on the session of S1 whose synthesis gets a 500. *)
Lemma C2_witness :
  let w := sys_world started in
  let resumes := replicate 5 w in
  let r := processAudioPipeline 0 [] w in
  Forall silent (segments answers resumes w r)
  ∧ (∃ w', finish answers resumes r = RetR tt w' ∧ busy w' 0 = false)
  ∧ Forall2 (appended 0) (segments answers resumes w r)
      [ []; [];
        [ {| role := user; content := trim (lit "hola") |} ];
        [ {| role := assistant; content := default [] (Some (lit "Hola")) |} ];
        []; [] ].
Proof.
  apply (C2_failed_synthesis_keeps_both_turns 0 [] (sys_world started)
    answers (replicate 5 (sys_world started)) [] (lit "hola")
    (Some (lit "Hola")) {| status := 500 |}).
  - vm_compute. reflexivity.
  - apply session_allocated.
  - reflexivity.
  - reflexivity.
  - vm_compute. reflexivity.
  - intros messages. reflexivity.
  - intros voice t. reflexivity.
  - reflexivity.
  - vm_compute. lia.
Defined.

Lemma feed_replicate (n : nat) :
  feed (lit "S1") (replicate n (deliver (media_of "S1" "inbound"))).
Proof.
  apply Forall_replicate. right. vm_compute. eexists. reflexivity.
Qed.

Lemma started_serving :
  no_pending_start started
  ∧ activeCalls (sys_world started) !! lit "S1" = Some 0
  ∧ busy (sys_world started) 0 = false
  ∧ buffered started 0 = [].
Proof.
  split; [|split; [|split]]; try (vm_compute; reflexivity).
  unfold no_pending_start. vm_compute. repeat constructor.
Qed.

(** C3, witness: 150, respectively 149, inbound frames for S1, then its
    stop. *)
Lemma C3_witness :
  let frames n := replicate n (deliver (media_of "S1" "inbound")) in
  let final n := go started (frames n ++ [deliver (stop_of "S1" "C1")]) in
  ((∃ blob, invoked (sys_world (final 150))
            = invoked (sys_world started) ++ [InvPipeline 0 blob])
   ∧ pipeline_calls (final 150) = S (pipeline_calls started)
   ∧ activeCalls (sys_world (final 150)) !! lit "S1" = None)
  ∧ (invoked (sys_world (final 149)) = invoked (sys_world started)
     ∧ pipeline_calls (final 149) = pipeline_calls started
     ∧ activeCalls (sys_world (final 149)) !! lit "S1" = None).
Proof.
  intros frames final.
  destruct started_serving as (Hno & Hreg & Hidle & Hempty).
  split.
  - apply (C3_threshold_frames_then_stop decode voice (lit "S1") 0 started
      (frames 150) 0 None (stop_of "S1" "C1")
      {| stop_callSid := Some (lit "C1"); stop_streamSid := lit "S1" |}
      started_reachable Hno Hreg Hidle Hempty (feed_replicate 150)
      eq_refl eq_refl eq_refl).
    vm_compute. reflexivity.
  - apply (C3_threshold_frames_then_stop decode voice (lit "S1") 0 started
      (frames 149) 0 None (stop_of "S1" "C1")
      {| stop_callSid := Some (lit "C1"); stop_streamSid := lit "S1" |}
      started_reachable Hno Hreg Hidle Hempty (feed_replicate 149)
      eq_refl eq_refl eq_refl).
    vm_compute. reflexivity.
Defined.

(** C4, witness: 151 inbound frames for S1; an outbound frame; the frame
    that fills the buffer. *)
Lemma C4_witness :
  let actions := replicate 151 (deliver (media_of "S1" "inbound")) in
  let outbound := Json (JObject (media_of "S1" "outbound")) in
  let inbound := Json (JObject (media_of "S1" "inbound")) in
  let m := {| media_track := lit "inbound"; media_payload := lit "fw==" |} in
  let w := sys_world almost in
  let s := deref w 0 in
  let chunk := decode (media_payload m) in
  let combinedAudio := concat (audioBuffer s ++ [chunk]) in
  let cleared := set_heap (alter (with_audioBuffer []) 0)
                   (set_heap (alter (push_chunk chunk) 0) w) in
  (length (buffered (run decode voice started actions) 0)
     = since_flush decode voice (lit "S1") started
         (length (buffered started 0)) actions
   ∧ length (buffered (run decode voice started actions) 0)
     = inbound_frames (lit "S1") actions mod FLUSH_THRESHOLD)
  ∧ (on_message decode voice 0 None outbound w = RetR tt w
     ∧ step decode voice started (Deliver 0 None outbound) = started)
  ∧ (on_message decode voice 0 None inbound w
     = call_async (InvPipeline 0 combinedAudio)
         (processAudioPipeline 0 combinedAudio) cleared
     ∧ audioBuffer (deref cleared 0) = []).
Proof.
  intros actions outbound inbound m w s chunk combinedAudio cleared.
  destruct started_serving as (Hno & Hreg & Hidle & Hempty).
  destruct (C4_buffer_counts_inbound_frames decode voice (lit "S1") 0 started
    actions) as (H1 & H2 & H3).
  split; [|split].
  - destruct (H1 started_reachable Hno Hreg (feed_replicate 151))
      as [Hcount Hmod].
    split; [exact Hcount|exact (Hmod Hempty)].
  - apply (H2 0 None (media_of "S1" "outbound")
      {| media_track := lit "outbound"; media_payload := lit "fw==" |} w);
      [reflexivity|reflexivity|].
    vm_compute. discriminate.
  - assert (Hs : heap w !! 0 = Some s) by (vm_compute; reflexivity).
    assert (Hreg' : activeCalls w !! lit "S1" = Some 0)
      by (vm_compute; reflexivity).
    assert (Hfull : FLUSH_THRESHOLD ≤ length (audioBuffer s) + 1)
      by (vm_compute; lia).
    pose proof (H3 0 None (media_of "S1" "inbound") m w s
      eq_refl eq_refl eq_refl eq_refl Hreg' Hs Hfull) as H.
    cbv zeta in H. exact H.
Defined.

(** C5, witness: a run whose transcription is two spaces. *)
Lemma C5_witness :
  let w := sys_world started in
  let resumes := replicate 2 w in
  let r := processAudioPipeline 0 [] w in
  Forall (λ seg, appended 0 seg [] ∧ silent seg)
    (segments answers_silence resumes w r)
  ∧ requests answers_silence resumes r
      `prefix_of` [Req (MulawToWav []); Req (TranscriptionsCreate [])]
  ∧ (2 ≤ length resumes →
     ∃ w', finish answers_silence resumes r = RetR tt w' ∧ busy w' 0 = false).
Proof.
  apply (C5_empty_transcript_exits_quietly 0 [] (sys_world started)
    answers_silence (replicate 2 (sys_world started)) [] (lit "  "));
    [vm_compute; reflexivity|reflexivity|reflexivity|vm_compute; reflexivity].
Defined.

(** C6, witness: a start with campaign selector 7 whose lookup is
    rejected. *)
Lemma C6_witness :
  let d := start_of "S1" "C1" in
  let startData := {| start_callSid := Some (lit "C1"); start_streamSid := lit "S1" |} in
  let q := Some (lit "7") in
  let resumes := [empty_world] in
  let base := registration_world q empty_world resumes in
  let session := fresh (dom (heap base)) in
  ∃ k w',
    finish answers_no_db resumes
      (on_message decode voice 0 q (Json (JObject d)) empty_world)
    = Detach (InvGreeting session)
        (ChatCompletionsCreate
           [ {| role := system; content := default_prompt |};
             {| role := user; content := START_CALL |} ])
        k (RetR tt w')
    ∧ heap w' = <[session :=
        fresh_session 0 startData default_prompt (default_voice voice)]>
        (heap base)
    ∧ activeCalls w' = <[start_streamSid startData := session]> (activeCalls base)
    ∧ invoked w' = invoked base ++ [InvGreeting session].
Proof.
  apply (C6_start_without_campaign_uses_defaults decode voice 0
    (Some (lit "7")) (start_of "S1" "C1")
    {| start_callSid := Some (lit "C1"); start_streamSid := lit "S1" |}
    empty_world answers_no_db [empty_world]); [reflexivity|reflexivity|].
  right. split; [discriminate|]. vm_compute. exact I.
Defined.

(** C7, witness: a second start for S1 while S1 is registered. *)
Lemma C7_witness :
  let d := start_of "S1" "C2" in
  let startData := {| start_callSid := Some (lit "C2"); start_streamSid := lit "S1" |} in
  let w := sys_world started in
  let base := registration_world None w [] in
  let w' := world_of
    (finish answers [] (on_message decode voice 0 None (Json (JObject d)) w)) in
  let session := fresh (dom (heap base)) in
  session ≠ 0
  ∧ activeCalls w' !! start_streamSid startData = Some session
  ∧ (∃ prompt voice, heap w' !! session
       = Some (fresh_session 0 startData prompt voice))
  ∧ heap w' !! 0 = heap base !! 0
  ∧ ∃ lines, console w' = console base ++ lines
      ∧ Forall (λ l, l = LogCallStarted (start_callSid startData)
                     ∨ ∃ e, l = LogStartError e) lines.
Proof.
  apply (C7_duplicate_start_replaces_silently decode voice 0 None
    (start_of "S1" "C2")
    {| start_callSid := Some (lit "C2"); start_streamSid := lit "S1" |}
    (sys_world started) answers [] 0);
    [reflexivity|reflexivity|discriminate|vm_compute; reflexivity|].
  apply elem_of_dom. vm_compute. eexists. reflexivity.
Defined.


(** C9, witness: a message of the unknown type "mark", delivered after
    the start of S1. *)
Lemma C9_witness :
  let mark := Json (JObject (event "mark")) in
  on_message decode voice 0 None mark (sys_world started)
  = RetR tt (sys_world started)
  ∧ step decode voice started (Deliver 0 None mark) = started
  ∧ console_output started (step decode voice started (Deliver 0 None mark))
    = []
  ∧ ¬ exits decode voice started (Deliver 0 None mark).
Proof.
  intros mark.
  apply (C9_unknown_events_are_ignored decode voice 0 None (event "mark")
    started).
  repeat split; vm_compute; discriminate.
Defined.

(** C10, witness: a greeting whose synthesis gets a 500, and a greeting
    whose synthesis succeeds but whose socket throws on send. *)
Lemma C10_witness :
  let text := default greeting_fallback (Some (lit "Hola")) in
  (let w := sys_world started in
   let resumes := replicate 3 w in
   let r := sendGreeting 0 w in
   (∀ i seg, segments answers resumes w r !! i = Some seg →
      appended 0 seg
        (if decide (i = 1)
         then [ {| role := assistant; content := text |} ]
         else []))
   ∧ (1 ≤ length resumes → ∃ messages voice rest,
        requests answers resumes r =
        Req (ChatCompletionsCreate messages)
        :: Req (FetchTextToSpeech voice text) :: rest)
   ∧ Forall silent (segments answers resumes w r)
   ∧ threw (finish answers resumes r) = false
   ∧ (4 ≤ length resumes → returned (finish answers resumes r) = true))
  ∧ (let w := sys_world unplugged in
     let resumes := replicate 4 w in
     let r := sendGreeting 0 w in
     Forall silent (segments answers_ok resumes w r)
     ∧ threw (finish answers_ok resumes r) = false
     ∧ returned (finish answers_ok resumes r) = true).
Proof.
  intros text. split.
  - apply (C10_greeting_turn_survives_failure 0 (sys_world started) answers
      (replicate 3 (sys_world started)) (Some (lit "Hola"))).
    + apply session_allocated.
    + intros messages. reflexivity.
    + left. intros voice0 text0. reflexivity.
  - destruct (C10_greeting_turn_survives_failure 0 (sys_world unplugged)
      answers_ok (replicate 4 (sys_world unplugged)) (Some (lit "Hola")))
      as (_ & _ & Hsilent & Hthrew & Hreturned).
    + apply Forall_replicate. vm_compute. eexists. reflexivity.
    + intros messages. reflexivity.
    + right. vm_compute. reflexivity.
    + split; [exact Hsilent|]. split; [exact Hthrew|].
      apply Hreturned. vm_compute. lia.
Defined.

(** ** Witnesses of the further properties *)

Lemma almost_reachable : reachable decode voice almost.
Proof.
  exists ([deliver (start_of "S1" "C1")]
          ++ replicate 149 (deliver (media_of "S1" "inbound"))).
  unfold almost, started, go. rewrite !run_app. reflexivity.
Qed.

Lemma greeted_reachable : reachable decode voice greeted.
Proof.
  exists ([deliver (start_of "S1" "C1")] ++ replicate 4 (Settle 0 answers_ok)).
  unfold greeted, started, go. rewrite !run_app. reflexivity.
Qed.

Lemma backlog_reachable : reachable decode voice backlog.
Proof.
  destruct running_reachable as [actions Heq].
  exists (actions ++ replicate 149 (deliver (media_of "S1" "inbound"))).
  unfold backlog, go. rewrite run_app. by rewrite <- Heq.
Qed.

(** X1, witness: a run on the session of S1 all of whose stages succeed. *)
Lemma X1_witness :
  let w := sys_world started in
  let resumes := w :: w :: w :: w :: w :: w :: [] in
  let r := processAudioPipeline 0 [] w in
  requests answers_ok resumes r =
    [ Req (MulawToWav []);
      Req (TranscriptionsCreate []);
      Req (ChatCompletionsCreate (chat_context w 0 (trim (lit "hola"))));
      Req (FetchTextToSpeech (campaignVoiceId (deref w 0))
             (default [] (Some (lit "Hola"))));
      Req (ResponseArrayBuffer {| status := 200 |});
      Req (Mp3ToMulaw []) ]
  ∧ Forall2 (appended 0) (segments answers_ok resumes w r)
      [ []; [];
        [ {| role := user; content := trim (lit "hola") |} ];
        [ {| role := assistant; content := default [] (Some (lit "Hola")) |} ];
        []; []; [] ]
  ∧ Forall2 sends (segments answers_ok resumes w r)
      [ []; []; []; []; []; []; [reply_to w 0 []] ]
  ∧ ∃ w', finish answers_ok resumes r = RetR tt w' ∧ busy w' 0 = false.
Proof.
  apply (X1_successful_run_answers_once 0 [] (sys_world started)
    (sys_world started) (sys_world started) (sys_world started)
    (sys_world started) (sys_world started) (sys_world started) []
    answers_ok [] (lit "hola") (Some (lit "Hola")) {| status := 200 |} [] []).
  - vm_compute. reflexivity.
  - vm_compute. eexists. reflexivity.
  - vm_compute. eexists. reflexivity.
  - reflexivity.
  - reflexivity.
  - vm_compute. reflexivity.
  - intros messages. reflexivity.
  - intros voice0 t. reflexivity.
  - vm_compute. reflexivity.
  - reflexivity.
  - reflexivity.
  - vm_compute. discriminate.
Defined.

(** X2, witness: a run whose decoding is rejected. *)
Lemma X2_witness :
  let w := sys_world started in
  let resumes := [w; w] in
  let r := processAudioPipeline 0 [] w in
  Forall (λ seg, appended 0 seg [] ∧ silent seg)
    (segments answers_no_wav resumes w r)
  ∧ Forall (λ q, is_engine_call q = false) (requests answers_no_wav resumes r)
  ∧ (2 ≤ length resumes →
     ∃ seg w', last (segments answers_no_wav resumes w r) = Some seg
       ∧ logs seg [LogPipelineError (EngineError 2)]
       ∧ finish answers_no_wav resumes r = RetR tt w'
       ∧ seg.2 = w' ∧ busy w' 0 = false).
Proof.
  apply (X2_untranscribed_audio_is_dropped 0 [] (sys_world started)
    answers_no_wav [sys_world started; sys_world started] (EngineError 2)).
  - vm_compute. reflexivity.
  - left. reflexivity.
Defined.

(** X3, witness: a run whose chat completion is rejected. *)
Lemma X3_witness :
  let w := sys_world started in
  let resumes := w :: w :: w :: [] in
  let r := processAudioPipeline 0 [] w in
  requests answers_no_chat resumes r =
    [ Req (MulawToWav []);
      Req (TranscriptionsCreate []);
      Req (ChatCompletionsCreate (chat_context w 0 (trim (lit "hola")))) ]
  ∧ Forall2 (appended 0) (segments answers_no_chat resumes w r)
      [ []; []; [ {| role := user; content := trim (lit "hola") |} ]; [] ]
  ∧ Forall silent (segments answers_no_chat resumes w r)
  ∧ Forall2 logs (segments answers_no_chat resumes w r)
      [ []; []; [LogWhisper (trim (lit "hola"))];
        [LogPipelineError (EngineError 3)] ]
  ∧ ∃ w', finish answers_no_chat resumes r = RetR tt w' ∧ busy w' 0 = false.
Proof.
  apply (X3_rejected_completion_keeps_user_turn 0 [] (sys_world started)
    (sys_world started) (sys_world started) (sys_world started) []
    answers_no_chat [] (lit "hola") (EngineError 3)).
  - vm_compute. reflexivity.
  - vm_compute. eexists. reflexivity.
  - reflexivity.
  - reflexivity.
  - vm_compute. reflexivity.
  - intros messages. reflexivity.
Defined.

(** X5, witness: the greeting of S1, all of whose stages succeed. *)
Lemma X5_witness :
  let w := sys_world started in
  let greetingText := default greeting_fallback (Some (lit "Hola")) in
  let resumes := w :: w :: w :: w :: [] in
  let r := sendGreeting 0 w in
  requests answers_ok resumes r =
    [ Req (ChatCompletionsCreate
        [ {| role := system; content := campaignPrompt (deref w 0) |};
          {| role := user; content := START_CALL |} ]);
      Req (FetchTextToSpeech (campaignVoiceId (deref w 0)) greetingText);
      Req (ResponseArrayBuffer {| status := 200 |});
      Req (Mp3ToMulaw []) ]
  ∧ Forall2 (appended 0) (segments answers_ok resumes w r)
      [ []; [ {| role := assistant; content := greetingText |} ]; []; []; [] ]
  ∧ Forall2 sends (segments answers_ok resumes w r)
      [ []; []; []; []; [reply_to w 0 []] ]
  ∧ Forall (λ seg, busy seg.2 0 = busy seg.1 0)
      (segments answers_ok resumes w r)
  ∧ returned (finish answers_ok resumes r) = true.
Proof.
  apply (X5_successful_greeting_speaks_once 0 (sys_world started)
    (sys_world started) (sys_world started) (sys_world started)
    (sys_world started) [] answers_ok (Some (lit "Hola"))
    {| status := 200 |} [] []).
  - vm_compute. eexists. reflexivity.
  - intros messages. reflexivity.
  - intros voice0 t. reflexivity.
  - vm_compute. reflexivity.
  - reflexivity.
  - reflexivity.
  - vm_compute. discriminate.
Defined.

(** X6, witness: the greeting of S1 when the chat completion is
    rejected. *)
Lemma X6_witness :
  let w := sys_world started in
  let resumes := w :: [] in
  let r := sendGreeting 0 w in
  requests answers_no_chat resumes r =
    [ Req (ChatCompletionsCreate
        [ {| role := system; content := campaignPrompt (deref w 0) |};
          {| role := user; content := START_CALL |} ]) ]
  ∧ Forall (λ seg, appended 0 seg [] ∧ silent seg)
      (segments answers_no_chat resumes w r)
  ∧ Forall2 logs (segments answers_no_chat resumes w r)
      [ []; [LogGreetingError (EngineError 3)] ]
  ∧ finish answers_no_chat resumes r
    = RetR tt (add_console (LogGreetingError (EngineError 3)) w).
Proof.
  apply (X6_rejected_greeting_is_skipped 0 (sys_world started)
    (sys_world started) [] answers_no_chat (EngineError 3)).
  intros messages. reflexivity.
Defined.


(** X7, witness: the session of S1 from the start of the call to the
    greeting's request for synthesis (the greeting turn is appended). *)
Lemma X7_witness :
  let actions := [Settle 0 answers_ok; Settle 0 answers_ok] in
  let s := deref (sys_world started) 0 in
  let later := sys_world (run decode voice started actions) in
  (∃ s', heap later !! 0 = Some s'
     ∧ callSid s' = callSid s ∧ streamSid s' = streamSid s
     ∧ socket s' = socket s
     ∧ campaignPrompt s' = campaignPrompt s
     ∧ campaignVoiceId s' = campaignVoiceId s
     ∧ conversationHistory s `prefix_of` conversationHistory s')
  ∧ outbox (sys_world started) `prefix_of` outbox later.
Proof.
  apply (X7_sessions_only_grow decode voice started
    [Settle 0 answers_ok; Settle 0 answers_ok] 0
    (deref (sys_world started) 0) started_reachable).
  vm_compute. reflexivity.
Defined.

(** X8, witness: the message that carries the greeting of S1. *)
Lemma X8_witness :
  let m := (0, {| out_streamSid := lit "S1"; out_payload := [] |}) in
  ∃ session s, heap (sys_world greeted) !! session = Some s
    ∧ socket s = m.1 ∧ streamSid s = out_streamSid m.2.
Proof.
  apply (X8_replies_go_to_their_call decode voice greeted
    (0, {| out_streamSid := lit "S1"; out_payload := [] |}) greeted_reachable).
  assert (outbox (sys_world greeted)
          = [(0, {| out_streamSid := lit "S1"; out_payload := [] |})]) as ->
    by (vm_compute; reflexivity).
  apply list_elem_of_here.
Defined.

(** X9, witness: the session of S1 after 149 inbound frames. *)
Lemma X9_witness :
  length (audioBuffer (deref (sys_world almost) 0)) < FLUSH_THRESHOLD.
Proof.
  apply (X9_buffer_stays_below_threshold decode voice almost 0
    (deref (sys_world almost) 0) almost_reachable).
  vm_compute. reflexivity.
Defined.

(** X10, witness: the decoding of the audio of the run in flight is
    rejected; the socket of S1 breaks. *)
Lemma X10_witness :
  ¬ exits decode voice running (Settle 1 answers_no_wav)
  ∧ ¬ exits decode voice started (SocketBreaks 0).
Proof.
  split.
  - apply X10_background_steps_never_exit;
      [apply running_reachable|reflexivity].
  - apply X10_background_steps_never_exit;
      [apply started_reachable|reflexivity].
Defined.

(** X11, witness: the 150th frame for S1 when the session is idle, and
    when a run is in flight. *)
Lemma X11_witness :
  let d := media_of "S1" "inbound" in
  let m := {| media_track := lit "inbound"; media_payload := lit "fw==" |} in
  (let s := deref (sys_world almost) 0 in
   let sys' := step decode voice almost (Deliver 0 None (Json (JObject d))) in
   let blob := concat (audioBuffer s ++ [decode (media_payload m)]) in
   buffered sys' 0 = []
   ∧ history (sys_world sys') 0 = conversationHistory s
   ∧ outbox (sys_world sys') = outbox (sys_world almost)
   ∧ busy (sys_world sys') 0 = true
   ∧ if isProcessing s then sys_tasks sys' = sys_tasks almost
     else ∃ k, sys_tasks sys' = sys_tasks almost ++
            [ {| task_owner := Started (InvPipeline 0 blob);
                 task_call := MulawToWav blob; task_k := k |} ])
  ∧ (let s := deref (sys_world backlog) 0 in
     let sys' := step decode voice backlog (Deliver 0 None (Json (JObject d))) in
     let blob := concat (audioBuffer s ++ [decode (media_payload m)]) in
     buffered sys' 0 = []
     ∧ history (sys_world sys') 0 = conversationHistory s
     ∧ outbox (sys_world sys') = outbox (sys_world backlog)
     ∧ busy (sys_world sys') 0 = true
     ∧ if isProcessing s then sys_tasks sys' = sys_tasks backlog
       else ∃ k, sys_tasks sys' = sys_tasks backlog ++
              [ {| task_owner := Started (InvPipeline 0 blob);
                   task_call := MulawToWav blob; task_k := k |} ]).
Proof.
  intros d m. split.
  - pose proof (X11_full_buffer_runs_or_is_dropped decode voice 0 None d m
      (lit "S1") 0 (deref (sys_world almost) 0) almost
      eq_refl eq_refl eq_refl eq_refl) as H.
    cbv zeta in H. apply H.
    + vm_compute. reflexivity.
    + vm_compute. reflexivity.
    + vm_compute. lia.
  - pose proof (X11_full_buffer_runs_or_is_dropped decode voice 0 None d m
      (lit "S1") 0 (deref (sys_world backlog) 0) backlog
      eq_refl eq_refl eq_refl eq_refl) as H.
    cbv zeta in H. apply H.
    + vm_compute. reflexivity.
    + vm_compute. reflexivity.
    + vm_compute. lia.
Defined.

(** X12, witness: the registry entry of S1. *)
Lemma X12_witness :
  (∃ s, heap (sys_world started) !! 0 = Some s ∧ streamSid s = lit "S1")
  ∧ (activeCalls (sys_world started) !! lit "S2" = Some 0 →
     lit "S1" ≠ lit "S2" → 0 ≠ 0).
Proof.
  apply (X12_registry_keys_match_sessions decode voice started
    (lit "S1") (lit "S2") 0 0 started_reachable).
  vm_compute. reflexivity.
Defined.

(** X13, witness: a start with campaign selector 7 whose row has a
    prompt and an empty voice. *)
Lemma X13_witness :
  let d := start_of "S1" "C1" in
  let startData := {| start_callSid := Some (lit "C1"); start_streamSid := lit "S1" |} in
  let q := Some (lit "7") in
  let row := {| campaign_prompt := Some (lit "Vendi assicurazioni.");
                voice_id := Some [] |} in
  let prompt := or_else (campaign_prompt row) default_prompt in
  let voice := or_else (voice_id row) (default_voice voice) in
  let session := fresh (dom (heap empty_world)) in
  let r := on_message decode Scenario.voice 0 q (Json (JObject d)) empty_world in
  requests answers_campaign (empty_world :: []) r
    = [ Req (GetCampaignById (default [] q)) ]
  ∧ ∃ k w',
      finish answers_campaign (empty_world :: []) r
      = Detach (InvGreeting session)
          (ChatCompletionsCreate
             [ {| role := system; content := prompt |};
               {| role := user; content := START_CALL |} ])
          k (RetR tt w')
      ∧ heap w' = <[session := fresh_session 0 startData prompt voice]>
                    (heap empty_world)
      ∧ activeCalls w' =
          <[start_streamSid startData := session]> (activeCalls empty_world)
      ∧ console w' = console empty_world.
Proof.
  apply (X13_start_with_campaign_row decode Scenario.voice 0 (Some (lit "7"))
    (start_of "S1" "C1")
    {| start_callSid := Some (lit "C1"); start_streamSid := lit "S1" |}
    empty_world empty_world [] answers_campaign
    {| campaign_prompt := Some (lit "Vendi assicurazioni.");
       voice_id := Some [] |});
    reflexivity.
Defined.

(** X15, witness: the statement and the parameters of a PATCH that
    renames campaign 7, clears its description and sets its retries. *)
Lemma X15_witness :
  (@updateCampaign jsnum (Some 7) (Some renaming) db).1
  = [ OpConnect;
      OpQuery
        (lit "UPDATE campaigns SET name = $1, description = $2, max_retries = $3, updated_at = CURRENT_TIMESTAMP WHERE id = $4 RETURNING id, slug, name, description, campaign_prompt, voice_id, initial_delay, max_retries, retry_interval, webhook_url, calendar_connected, leads, calls, qualified")
        [ VStr (lit "Nuova"); VNull; VNum (Some 5); VNum (Some 7) ];
      OpEnd ].
Proof.
  assert (Hsome : provided renaming ≠ []) by (vm_compute; discriminate).
  pose proof (X15_update_statement_matches_parameters jsnum (Some 7)
    renaming db eq_refl Hsome) as H.
  cbv zeta in H. destruct H as (H & _ & _).
  rewrite H. vm_compute. reflexivity.
Defined.

(** X16, witness: a PATCH of campaign 7 with an empty body. *)
Lemma X16_witness :
  patch_campaign jsnum to_number is_nan (lit "7") (Some nothing) db
  = ([OpConnect; OpEnd], Returned (error_reply 404 "Campaign not found" None)).
Proof.
  apply (X16_patch_without_fields_is_not_found jsnum to_number is_nan
    (lit "7") nothing db); reflexivity.
Defined.

(** X20, witness: an ffmpeg job that emits two chunks, ends, and then
    reports an error. *)
Lemma X20_witness :
  mulawToWav two_chunks [] = Some (Resolved [Byte.x01; Byte.x02; Byte.x03])
  ∧ mp3ToMulaw two_chunks [] = Some (Resolved [Byte.x01; Byte.x02; Byte.x03]).
Proof.
  destruct (X20_conversion_settles_on_first_verdict two_chunks []
    [StreamData [Byte.x01]; StreamData [Byte.x02; Byte.x03]]
    [FfmpegError (EngineError 4)] StreamEnd eq_refl) as (_ & _ & H).
  destruct (H eq_refl) as [H1 H2].
  split; [exact (H1 eq_refl)|exact (H2 eq_refl)].
Defined.


Lemma failed_reachable : reachable decode voice failed.
Proof.
  destruct running_reachable as [actions Heq].
  exists (actions ++ replicate 5 (Settle 1 answers)).
  unfold failed, go. rewrite run_app. by rewrite <- Heq.
Qed.

(** X21, witness: the session of S1, and a reference that is not
    allocated. *)
Lemma X21_witness :
  greetings_of 0 (sys_world started)
  = (if bool_decide (0 ∈ dom (heap (sys_world started))) then 1 else 0)
  ∧ greetings_of 1 (sys_world started)
    = (if bool_decide (1 ∈ dom (heap (sys_world started))) then 1 else 0).
Proof.
  split.
  - apply (X21_every_session_is_greeted_once decode voice started 0
      started_reachable).
  - apply (X21_every_session_is_greeted_once decode voice started 1
      started_reachable).
Defined.

(** X22, witness: 150 inbound frames for S1 after its start. *)
Lemma X22_witness :
  let actions := replicate 150 (deliver (media_of "S1" "inbound")) in
  let before := buffered started 0 in
  let chunks := inbound_chunks decode (lit "S1") actions in
  let after := run decode voice started actions in
  length chunks = inbound_frames (lit "S1") actions
  ∧ (length before + length chunks < FLUSH_THRESHOLD →
     buffered after 0 = before ++ chunks
     ∧ invoked (sys_world after) = invoked (sys_world started))
  ∧ (0 < length chunks → length before + length chunks = FLUSH_THRESHOLD →
     buffered after 0 = []
     ∧ invoked (sys_world after)
       = invoked (sys_world started)
         ++ [InvPipeline 0 (concat (before ++ chunks))]).
Proof.
  destruct started_serving as (Hno & Hreg & _ & _).
  apply (X22_blob_is_the_audio_in_order decode voice (lit "S1") 0 started
    (replicate 150 (deliver (media_of "S1" "inbound")))
    started_reachable Hno Hreg (feed_replicate 150)).
Defined.

(** X23, witness: the user turn of the run whose synthesis failed. *)
Lemma X23_witness :
  let m := {| role := user; content := lit "hola" |} in
  role m ≠ system
  ∧ (role m = user → content m ≠ [] ∧ trim (content m) = content m).
Proof.
  apply (X23_history_holds_real_turns decode voice failed 0
    (deref (sys_world failed) 0) {| role := user; content := lit "hola" |}
    failed_reachable).
  - vm_compute. reflexivity.
  - assert (conversationHistory (deref (sys_world failed) 0)
            = [ {| role := user; content := lit "hola" |};
                {| role := assistant; content := lit "Hola" |} ]) as ->
      by (vm_compute; reflexivity).
    apply list_elem_of_here.
Defined.
